(** * Verification of the llm-inferno optimizer core

    A shallow embedding of [pkg/core/allocation.go] and of the greedy solver
    ([SolveGreedy] and its saturation procedures), followed by theorems about
    them.

    Conventions of the embedding:
    - Go [int] is a 64-bit two's complement integer: values are [Z] and every
      [+], [-] and [*] of the source is wrapped ([GoInt]).
    - Go [float32] quantities (cost, value, rates, times) are exact rationals
      [Q]; rounding, infinities and NaN are outside this model.
    - A nil pointer is [None]; dereferencing it is the outcome [Panic].
    - The registries of package [core] that the code only looks up by name
      are lookup functions; those that it ranges over are association lists
      whose order is the iteration order of that run. *)

From Stdlib Require Import ZArith QArith Qround Qabs Qminmax Lia Lqa Permutation.
From stdpp Require Import gmap strings list.

Local Open Scope Z_scope.

(** ** Go integers *)

Module GoInt.

Definition modulus : Z := 2 ^ 64.
Definition half : Z := 2 ^ 63.
Definition MaxInt : Z := half - 1.
Definition MinInt : Z := - half.

(** Two's complement wrap-around of a mathematical integer. *)
Definition wrap (z : Z) : Z := (z + half) mod modulus - half.

Definition inRange (z : Z) : Prop := MinInt <= z <= MaxInt.

Definition add (a b : Z) : Z := wrap (a + b).
Definition sub (a b : Z) : Z := wrap (a - b).
Definition mul (a b : Z) : Z := wrap (a * b).

(** Go's [/] on integers truncates toward zero. Wherever the sources divide,
    the divisor was checked to be positive just before. *)
Definition quot (a b : Z) : Z := wrap (Z.quot a b).

End GoInt.

(** ** Outcomes of a call: a value, a run-time panic, or exhausted fuel *)

Inductive panic : Set :=
| NilDereference
| IndexOutOfRange
| DivideByZero.

Inductive result (A : Type) : Type :=
| Ret (a : A)
| Panic (p : panic)
| OutOfFuel.
Arguments Ret {A} a.
Arguments Panic {A} p.
Arguments OutOfFuel {A}.

Definition bind {A B} (r : result A) (k : A -> result B) : result B :=
  match r with
  | Ret a => k a
  | Panic p => Panic p
  | OutOfFuel => OutOfFuel
  end.

Notation "'try!' x ':=' r 'in' k" := (bind r (fun x => k))
  (at level 10, x name, r at level 100, k at level 200,
   format "'[v' 'try!'  x  ':='  r  'in' '/' k ']'").

(** Use of a pointer that may be nil. *)
Definition deref {A} (o : option A) : result A :=
  match o with
  | Some a => Ret a
  | None => Panic NilDereference
  end.

(** [float32(n)] for an [int] n. *)
Definition float32 (n : Z) : Q := inject_Z n.

(** [math.MaxFloat32]. *)
Definition MaxFloat32 : Q := inject_Z 340282346638528859811704183484516925440.

(** [cmp.Compare]. *)
Definition cmpCompareQ (x y : Q) : comparison := (x ?= y)%Q.
Definition cmpCompareZ (x y : Z) : comparison := (x ?= y)%Z.

(** The comparisons [x > y], [x < y] and [x == y] of the sources on float32
    values. *)
Definition Qgtb (x y : Q) : bool := negb (Qle_bool x y).
Definition Qltb (x y : Q) : bool := negb (Qle_bool y x).
Definition Qeqb (x y : Q) : bool := Qeq_bool x y.

(** [int(math.Ceil(x))]. Go leaves the conversion of a float outside the range
    of [int] to the implementation; the embedding keeps the mathematical
    ceiling. *)
Definition intCeil (x : Q) : Z := Qceiling x.

(** [math.Min] on float32 values widened to float64. *)
Definition mathMin (x y : Q) : Q := Qmin x y.

(** The sum of [f] over a list. *)
Definition sumZ {A} (f : A -> Z) (l : list A) : Z :=
  foldr (fun x n => f x + n) 0 l.

(** ** Package core: data *)

Module core.

(** Modelled from the spec: [*config.ServerLoadSpec], with the fields that
    [CreateAllocation] and [AdjustNumReplicas] read. *)
Record ServerLoadSpec : Type := mkLoad {
  ArrivalRate : Q;
  AvgLength : Z
}.

(** Modelled from the spec: [config.AllocationData] (package [config] is not
    among the sources): the six fields that [allocation.go] reads and writes,
    and the load data that an allocation carries besides, which
    [allocation.go] neither reads nor writes. *)
Record AllocationData : Type := mkAllocationData {
  data_Accelerator : string;
  data_NumReplicas : Z;
  data_MaxBatch : Z;
  data_Cost : Q;
  data_ITLAverage : Q;
  data_WaitAverage : Q;
  data_Load : ServerLoadSpec
}.

(** Go's zero value of the load data. *)
Definition zeroLoad : ServerLoadSpec := mkLoad 0 0.

(** [type Allocation struct]. The getters [Accelerator()], [NumReplicas()],
    [Cost()], [Value()] of the source are the projections. *)
Record Allocation : Type := mkAllocation {
  accelerator : string;
  numReplicas : Z;
  batchSize : Z;
  cost : Q;
  value : Q;
  servTime : Q;
  waitTime : Q;
  rho : Q;
  maxArrvRatePerReplica : Q
}.

Definition SetNumReplicas (n : Z) (a : Allocation) : Allocation :=
  mkAllocation (accelerator a) n (batchSize a) (cost a) (value a)
    (servTime a) (waitTime a) (rho a) (maxArrvRatePerReplica a).

Definition SetCost (c : Q) (a : Allocation) : Allocation :=
  mkAllocation (accelerator a) (numReplicas a) (batchSize a) c (value a)
    (servTime a) (waitTime a) (rho a) (maxArrvRatePerReplica a).

Definition SetValue (v : Q) (a : Allocation) : Allocation :=
  mkAllocation (accelerator a) (numReplicas a) (batchSize a) (cost a) v
    (servTime a) (waitTime a) (rho a) (maxArrvRatePerReplica a).

(** [func (a *Allocation) AllocationData() *config.AllocationData]: the
    composite literal names six fields and leaves the load data at Go's zero
    value. *)
Definition AllocationData_of (a : Allocation) : AllocationData :=
  {| data_Accelerator := accelerator a;
     data_NumReplicas := numReplicas a;
     data_MaxBatch := batchSize a;
     data_Cost := cost a;
     data_ITLAverage := servTime a;
     data_WaitAverage := waitTime a;
     data_Load := zeroLoad |}.

(** [func AllocationFromData]: the fields that the composite literal leaves
    out take Go's zero value. *)
Definition AllocationFromData (data : AllocationData) : Allocation :=
  {| accelerator := data_Accelerator data;
     numReplicas := data_NumReplicas data;
     batchSize := data_MaxBatch data;
     cost := data_Cost data;
     value := 0%Q;
     servTime := data_ITLAverage data;
     waitTime := data_WaitAverage data;
     rho := 0%Q;
     maxArrvRatePerReplica := 0%Q |}.

(** The entities of package [core] whose source files are not at hand
    (accelerator, model, service class, server and the registries) follow.
    Each record keeps what [allocation.go] and the solver read through the
    accessors named in its comment. *)

(** Modelled from the spec: [*Accelerator], read through [Name()], [Type()],
    [Cost()] and [Spec().Multiplicity]. *)
Record Accelerator : Type := mkAccelerator {
  acc_Name : string;
  acc_Type : string;
  acc_Cost : Q;
  acc_Multiplicity : Z
}.

(** Modelled from the spec: [*config.ModelAcceleratorPerfData]. *)
Record ModelAcceleratorPerfData : Type := mkPerf {
  MaxBatchSize : Z;
  AtTokens : Z;
  Alpha : Q;
  Beta : Q
}.

(** Modelled from the spec: [*Model], read through [Name()],
    [PerfData(gName)] (nil when absent) and [NumInstances(gName)], the units
    of an accelerator that one replica of the model takes; the function is
    left open. *)
Record Model : Type := mkModel {
  model_name : string;
  PerfData : string -> option ModelAcceleratorPerfData;
  NumInstances : string -> Z
}.

(** Modelled from the spec: [*Target], with the fields that [allocation.go]
    reads. *)
Record Target : Type := mkTarget {
  ITL : Q;
  TTW : Q;
  TPS : Q
}.

(** Modelled from the spec: [*ServiceClass], read through
    [ModelTarget(modelName)] (nil when absent). *)
Record ServiceClass : Type := mkServiceClass {
  ModelTarget : string -> option Target
}.

(** Modelled from the spec: [*Server], read through [Load()] (nil when
    absent), [ModelName()], [ServiceClassName()], [Priority()],
    [AllAllocations()] (the candidates, in the order in which the solver
    copies them) and the fields [name], [minNumReplicas], [maxBatchSize]. The
    allocation slot written by [SetAllocation] and [RemoveAllocation] lives
    in the store of the solver below. *)
Record Server : Type := mkServer {
  server_name : string;
  ModelName : string;
  ServiceClassName : string;
  Priority : Z;
  minNumReplicas : Z;
  maxBatchSize : Z;
  Load : option ServerLoadSpec;
  AllAllocations : list Allocation
}.

(** Modelled from the spec: the registries behind [GetAccelerators],
    [GetAccelerator], [GetServers], [GetServer], [GetModel],
    [GetServiceClass] and [GetCapacities]. The two that the sources range
    over are association lists, in the order in which that run visits
    them. *)
Record System : Type := mkSystem {
  GetAccelerators : list (string * Accelerator);
  GetServers : list (string * Server);
  GetModel : string -> option Model;
  GetServiceClass : string -> option ServiceClass;
  GetCapacities : gmap string Z
}.

Fixpoint assoc {A} (l : list (string * A)) (k : string) : option A :=
  match l with
  | [] => None
  | (k', v) :: l' => if String.eqb k k' then Some v else assoc l' k
  end.

Definition GetAccelerator (sys : System) (gName : string) : option Accelerator :=
  assoc (GetAccelerators sys) gName.

Definition GetServer (sys : System) (serverName : string) : option Server :=
  assoc (GetServers sys) serverName.

Section TransitionPenalty.

(** [config.AccelPenaltyFactor]; package [config] is not among the sources, so
    the constant is a parameter. *)
Variable AccelPenaltyFactor : Q.

(** [func (a *Allocation) TransitionPenalty(b *Allocation) float32]. *)
Definition TransitionPenalty (a b : Allocation) : Q :=
  if String.eqb (accelerator a) (accelerator b) then
    if Z.eqb (numReplicas a) (numReplicas b) then 0
    else cost b - cost a
  else AccelPenaltyFactor * (cost a + cost b) + (cost b - cost a).

End TransitionPenalty.

(** *** The feasibility evaluator *)

(** The error values that [AdjustNumReplicas] builds with [fmt.Errorf], named
    by their message. *)
Inductive go_error : Set :=
| ErrInvalidCurrent   (* "invalid current numReplicas (%d) or batchSize (%d)" *)
| ErrMissingLoad      (* "missing server load spec for server %s" *)
| ErrMissingPerf.     (* "missing performance data for model %s on accelerator %s" *)

(** The error kinds of the specification. *)
Inductive error_kind : Set :=
| InvalidAllocation
| MissingData.

Definition kind_of (e : go_error) : error_kind :=
  match e with
  | ErrInvalidCurrent => InvalidAllocation
  | ErrMissingLoad | ErrMissingPerf => MissingData
  end.

(** What a solved queueing model reports: [IsValid()], [GetRho()],
    [GetAvgServTime()], [GetAvgWaitTime()]. *)
Record QueueStats : Type := mkStats {
  IsValid : bool;
  GetRho : Q;
  GetAvgServTime : Q;
  GetAvgWaitTime : Q
}.

(** The package-level variable [queueModel]: the arguments it was built
    from. *)
Record MM1ModelStateDependent : Type := NewMM1ModelStateDependent {
  qm_maxQueue : Z;
  qm_servRate : list Q
}.

Section Evaluator.

(** Constants of package [config], which is not among the sources. *)
Variable MaxQueueToBatchRatio : Z.
Variable Delta : Q.
Variable StabilitySafetyFraction : Q.
Variable SLOMargin : Q.

(** The queue-analysis library, an external dependency: [Solve(lambda, 1)] on
    a model followed by the getters, and [utils.BinarySearch], which returns
    the rate found, an indicator (negative when the target is below the
    range) and whether it reports an error. *)
Variable Solve : MM1ModelStateDependent -> Q -> QueueStats.
Variable BinarySearch : Q -> Q -> Q -> (Q -> option Q) -> Q * Z * bool.

Variable sys : System.

(** [func EvalWaitingTime(x float32) (float32, error)]; [None] is the error. *)
Definition EvalWaitingTime (queueModel : MM1ModelStateDependent) (x : Q) : option Q :=
  let st := Solve queueModel x in
  if IsValid st then Some (GetAvgWaitTime st) else None.

(** [func EvalServTime(x float32) (float32, error)]. *)
Definition EvalServTime (queueModel : MM1ModelStateDependent) (x : Q) : option Q :=
  let st := Solve queueModel x in
  if IsValid st then Some (GetAvgServTime st) else None.

(** [func zeroLoadAllocation]. *)
Definition zeroLoadAllocation (server : Server) (model : Model) (acc : Accelerator)
    (perf : ModelAcceleratorPerfData) : Allocation :=
  let maxBatchSize' :=
    if maxBatchSize server >? 0 then maxBatchSize server else MaxBatchSize perf in
  let numReplicas' := minNumReplicas server in
  let gName := acc_Name acc in
  let totalNumInstances := GoInt.mul (NumInstances model gName) numReplicas' in
  let cost' := (acc_Cost acc * float32 totalNumInstances)%Q in
  let servTime' := (Alpha perf + Beta perf)%Q in
  let minServTime := (Alpha perf + Beta perf * float32 maxBatchSize')%Q in
  let maxArrvRatePerReplica' := (float32 maxBatchSize' / minServTime)%Q in
  SetValue cost'
    {| accelerator := gName; numReplicas := numReplicas'; batchSize := maxBatchSize';
       cost := cost'; value := 0; servTime := servTime'; waitTime := 0; rho := 0;
       maxArrvRatePerReplica := maxArrvRatePerReplica' |}.

(** The loop filling [servRate]: entry [n-1] is
    [float32(n) / ((alpha + beta*float32(n)) * float32(K))] for n = 1..N. *)
Definition servRates (alpha beta : Q) (K N : Z) : list Q :=
  (fun n => float32 n / ((alpha + beta * float32 n) * float32 K))%Q <$> seqZ 1 N.

(** [servRate[i]]; the slices indexed this way have N >= 1 entries and are
    read at 0 and N-1 only. *)
Definition at_index (servRate : list Q) (i : Z) : Q :=
  default 0%Q (servRate !! Z.to_nat i).

(** The effective batch size N of the positive-load branch. *)
Definition batchN (server : Server) (perf : ModelAcceleratorPerfData) (K : Z) : Z :=
  if maxBatchSize server >? 0 then maxBatchSize server
  else Z.max (GoInt.quot (GoInt.mul (MaxBatchSize perf) (AtTokens perf)) K) 1.

(** The three per-replica rate ceilings of [CreateAllocation]; [None] where
    the source returns nil. *)
Definition lambdaStarService (queueModel : MM1ModelStateDependent)
    (lambdaMin lambdaMax servTimeLimit : Q) (target : Target) : option Q :=
  if Qgtb (ITL target) 0 then
    let '(lambda, ind, err) :=
      BinarySearch lambdaMin lambdaMax servTimeLimit (EvalServTime queueModel) in
    if err then None
    else if ind <? 0 then None
    else Some lambda
  else Some lambdaMax.

Definition lambdaStarWait (queueModel : MM1ModelStateDependent)
    (lambdaMin lambdaMax waitTimeLimit : Q) (target : Target) : option Q :=
  if Qgtb (TTW target) 0 then
    let '(lambda, ind, err) :=
      BinarySearch lambdaMin lambdaMax waitTimeLimit (EvalWaitingTime queueModel) in
    if err then None
    else if ind <? 0 then None
    else Some lambda
  else Some lambdaMax.

Definition lambdaStarThroughput (lambdaMax : Q) (target : Target) : Q :=
  if Qgtb (TPS target) 0 then (lambdaMax * (1 - StabilitySafetyFraction))%Q
  else lambdaMax.

(** The total demand used to size the replicas (lines 150-155). *)
Definition totalLambda (target : Target) (load : ServerLoadSpec) (K : Z) : Q :=
  if Qeqb (TPS target) 0 then (ArrivalRate load / 60 / 1000)%Q
  else (TPS target / (1000 * float32 K))%Q.

(** The total demand in the words of the specification: TPS / (1000 K) if
    TPS > 0, otherwise arrivalRate / 60 / 1000. *)
Definition totalLambda_spec (target : Target) (load : ServerLoadSpec) (K : Z) : Q :=
  if Qgtb (TPS target) 0 then (TPS target / (1000 * float32 K))%Q
  else (ArrivalRate load / 60 / 1000)%Q.

(** The positive-load branch of [CreateAllocation], from
    [K := load.AvgLength] to the end of the function. *)
Definition positiveLoadAllocation (gName : string) (server : Server)
    (load : ServerLoadSpec) (model : Model) (acc : Accelerator)
    (perf : ModelAcceleratorPerfData) (target : Target) : option Allocation :=
  let K := AvgLength load in
  let N := batchN server perf K in
  let maxQueue := GoInt.mul N MaxQueueToBatchRatio in
  let servTimeLimit := (float32 K * ITL target)%Q in
  let waitTimeLimit := (TTW target / SLOMargin)%Q in
  let servRate := servRates (Alpha perf) (Beta perf) K N in
  let queueModel := NewMM1ModelStateDependent maxQueue servRate in
  let lambdaMin := (at_index servRate 0 * Delta)%Q in
  let lambdaMax := (at_index servRate (N - 1) * (1 - Delta))%Q in
  lsService ← lambdaStarService queueModel lambdaMin lambdaMax servTimeLimit target;
  lsWait ← lambdaStarWait queueModel lambdaMin lambdaMax waitTimeLimit target;
  let lsThroughput := lambdaStarThroughput lambdaMax target in
  let lambdaStar := mathMin (mathMin lsService lsWait) lsThroughput in
  let totalLambda' := totalLambda target load K in
  let numReplicas0 := intCeil (totalLambda' / lambdaStar) in
  let numReplicas' := Z.max numReplicas0 (minNumReplicas server) in
  let totalNumInstances := GoInt.mul (NumInstances model gName) numReplicas' in
  let cost' := (acc_Cost acc * float32 totalNumInstances)%Q in
  let lambda := (totalLambda' / float32 numReplicas')%Q in
  let st := Solve queueModel lambda in
  let rho' := GetRho st in
  let servTime' := (GetAvgServTime st / float32 K)%Q in
  let wait := GetAvgWaitTime st in
  Some (SetValue cost'
    {| accelerator := gName; numReplicas := numReplicas'; batchSize := N;
       cost := cost'; value := 0; servTime := servTime'; waitTime := wait; rho := rho';
       maxArrvRatePerReplica := lambdaStar |}).

(** [func CreateAllocation(serverName string, gName string) *Allocation];
    [None] is nil. *)
Definition CreateAllocation (serverName gName : string) : option Allocation :=
  acc ← GetAccelerator sys gName;
  server ← GetServer sys serverName;
  load ← Load server;
  if Qltb (ArrivalRate load) 0 || (AvgLength load <? 0) then None else
  let modelName := ModelName server in
  model ← GetModel sys modelName;
  perf ← PerfData model gName;
  svc ← GetServiceClass sys (ServiceClassName server);
  target ← ModelTarget svc modelName;
  if Qeqb (ArrivalRate load) 0 || (AvgLength load =? 0) then
    Some (zeroLoadAllocation server model acc perf)
  else
    positiveLoadAllocation gName server load model acc perf target.

(** [func (a *Allocation) AdjustNumReplicas(numReplicas int, server *Server,
    model *Model) error]. The receiver is updated in place; the embedding
    returns the updated allocation next to a nil error. *)
Definition AdjustNumReplicas (a : Allocation) (numReplicas' : Z) (server : Server)
    (model : Model) : result (go_error + Allocation) :=
  if (numReplicas a <? 1) || (batchSize a <? 1) then Ret (inl ErrInvalidCurrent) else
  match Load server with
  | None => Ret (inl ErrMissingLoad)
  | Some load =>
    let K := AvgLength load in
    let totalLambda0 := (ArrivalRate load / 60 / 1000)%Q in
    let target : option Target :=
      match GetServiceClass sys (ServiceClassName server) with
      | Some svClass => ModelTarget svClass (model_name model)
      | None => None
      end in
    let totalLambda' :=
      match target with
      | Some tg =>
          if Qgtb (TPS tg) 0 && (K >? 0) then (TPS tg / (1000 * float32 K))%Q
          else totalLambda0
      | None => totalLambda0
      end in
    match PerfData model (accelerator a) with
    | None => Ret (inl ErrMissingPerf)
    | Some perf =>
      let alpha := Alpha perf in
      let beta := Beta perf in
      let N := batchSize a in
      let maxQueue := GoInt.mul N MaxQueueToBatchRatio in
      let servRate := servRates alpha beta K N in
      let queueModel := NewMM1ModelStateDependent maxQueue servRate in
      let lambda := (totalLambda' / float32 numReplicas')%Q in
      let st := Solve queueModel lambda in
      let factor := (float32 numReplicas' / float32 (numReplicas a))%Q in
      let lambdaMin := (at_index servRate 0 * Delta)%Q in
      let lambdaMax := (at_index servRate (N - 1) * (1 - Delta))%Q in
      (* line 368: the first use of [target] outside its nil check *)
      try! tg := deref target in
      let servTimeLimit := (float32 K * ITL tg)%Q in
      let waitTimeLimit := (TTW tg / SLOMargin)%Q in
      let lsService :=
        if Qgtb (ITL tg) 0 then
          let '(lambda', _, err) :=
            BinarySearch lambdaMin lambdaMax servTimeLimit (EvalServTime queueModel) in
          if err then lambdaMax else lambda'
        else lambdaMax in
      let lsWait :=
        if Qgtb (TTW tg) 0 then
          let '(lambda', _, err) :=
            BinarySearch lambdaMin lambdaMax waitTimeLimit (EvalWaitingTime queueModel) in
          if err then lambdaMax else lambda'
        else lambdaMax in
      let lsThroughput := lambdaStarThroughput lambdaMax tg in
      let lambdaStar := mathMin (mathMin lsService lsWait) lsThroughput in
      Ret (inr {| accelerator := accelerator a;
                  numReplicas := numReplicas';
                  batchSize := batchSize a;
                  cost := (cost a * factor)%Q;
                  value := (value a * factor)%Q;
                  servTime := (GetAvgServTime st / float32 K)%Q;
                  waitTime := GetAvgWaitTime st;
                  rho := GetRho st;
                  maxArrvRatePerReplica := lambdaStar |})
    end
  end.

(** [func (a *Allocation) Scale(serverName string) (alloc *Allocation, inc int)].
    Line 421 reads [alloc.numReplicas] without a nil check. *)
Definition Scale (a : Allocation) (serverName : string) : result (option Allocation * Z) :=
  match GetServer sys serverName with
  | None => Ret (None, 0)
  | Some server =>
    match Load server with
    | None => Ret (None, 0)
    | Some load =>
      let gName := accelerator a in
      match GetAccelerator sys gName with
      | None => Ret (None, 0)
      | Some acc =>
        let alloc := CreateAllocation serverName gName in
        try! alloc' := deref alloc in
        let inc := GoInt.sub (numReplicas alloc') (numReplicas a) in
        Ret (alloc, inc)
      end
    end
  end.

(** One iteration of the loop of [ReAllocate] over the accelerator names. *)
Definition reAllocateStep (serverName : string) (st : Q * option Allocation)
    (gName : string) : Q * option Allocation :=
  let '(minVal, minAlloc) := st in
  match CreateAllocation serverName gName with
  | Some alloc =>
      if Qeqb minVal 0 || Qltb (value alloc) minVal then (value alloc, Some alloc)
      else (minVal, minAlloc)
  | None => (minVal, minAlloc)
  end.

(** [func (a *Allocation) ReAllocate(serverName string)], which returns the
    allocation found (or nil) and the name of its accelerator. *)
Definition ReAllocate (a : Allocation) (serverName : string) : option Allocation * string :=
  let '(_, minAlloc) :=
    fold_left (reAllocateStep serverName) (fst <$> GetAccelerators sys) (0%Q, None) in
  match minAlloc with
  | None => (None, EmptyString)
  | Some m => (Some m, accelerator m)
  end.

End Evaluator.

(** *** The other operations of [allocation.go] *)

(** [func (a *Allocation) SetMaxBatchSize(batchSize int)]. *)
Definition SetMaxBatchSize (n : Z) (a : Allocation) : Allocation :=
  mkAllocation (accelerator a) (numReplicas a) n (cost a) (value a)
    (servTime a) (waitTime a) (rho a) (maxArrvRatePerReplica a).

(** [func (a *Allocation) MaxRPM() float32]. *)
Definition MaxRPM (a : Allocation) : Q := (maxArrvRatePerReplica a * 1000 * 60)%Q.

(** [func (a *Allocation) Saturated(totalRate float32) bool]. *)
Definition Saturated (a : Allocation) (totalRate : Q) : bool :=
  Qgtb totalRate (float32 (numReplicas a) * MaxRPM a).

(** [func (a *Allocation) Clone() *Allocation]. *)
Definition Clone (a : Allocation) : Allocation :=
  {| accelerator := accelerator a;
     numReplicas := numReplicas a;
     batchSize := batchSize a;
     cost := cost a;
     value := value a;
     servTime := servTime a;
     waitTime := waitTime a;
     rho := rho a;
     maxArrvRatePerReplica := maxArrvRatePerReplica a |}.

(** [type AllocationDiff struct]. *)
Record AllocationDiff : Type := mkAllocationDiff {
  oldAccelerator : string;
  newAccelerator : string;
  oldNumReplicas : Z;
  newNumReplicas : Z;
  costDiff : Q
}.

(** [func CreateAllocationDiff(a *Allocation, b *Allocation) *AllocationDiff];
    a nil allocation is [None], and so is the nil result. *)
Definition CreateAllocationDiff (a b : option Allocation) : option AllocationDiff :=
  match a, b with
  | None, None => None
  | _, _ =>
    let oldAccelerator' := from_option accelerator "none"%string a in
    let oldNumReplicas' := from_option numReplicas 0 a in
    let oldCost := from_option cost 0%Q a in
    let newAccelerator' := from_option accelerator "none"%string b in
    let newNumReplicas' := from_option numReplicas 0 b in
    let newCost := from_option cost 0%Q b in
    Some {| oldAccelerator := oldAccelerator';
            newAccelerator := newAccelerator';
            oldNumReplicas := oldNumReplicas';
            newNumReplicas := newNumReplicas';
            costDiff := (newCost - oldCost)%Q |}
  end.

Section EvaluatorGGm.

(** Constants of package [config], and the registries. *)
Variable StabilitySafetyFraction : Q.
Variable SLOMargin : Q.
Variable sys : System.

(** The fields [ArrivalCOV] and [ServiceCOV] of [config.ServerLoadSpec], which
    only [CreateAllocationUsingGGm] reads. *)
Variable ArrivalCOV : ServerLoadSpec -> Q.
Variable ServiceCOV : ServerLoadSpec -> Q.

(** The positive-load branch of [CreateAllocationUsingGGm], from
    [K := load.AvgLength] to the end of the function. The composite literal
    leaves [maxArrvRatePerReplica] at its zero value. *)
Definition positiveLoadAllocationGGm (gName : string) (server : Server)
    (load : ServerLoadSpec) (model : Model) (acc : Accelerator)
    (perf : ModelAcceleratorPerfData) (target : Target) : option Allocation :=
  let K := AvgLength load in
  let N := batchN server perf K in
  let servTime' := (Alpha perf + Beta perf * float32 N)%Q in
  if Qgtb (ITL target) 0 && Qgtb servTime' (ITL target) then None else
  let gamma :=
    ((ArrivalCOV load * ArrivalCOV load + ServiceCOV load * ServiceCOV load) / 2)%Q in
  let numReplicas1 :=
    if Qgtb (ITL target) 0 && Qgtb (TTW target) 0 then
      let waitTimeLimit := (TTW target / SLOMargin)%Q in
      let xStar := (float32 N * waitTimeLimit / (float32 K * servTime' * gamma))%Q in
      let rhoStar := (xStar / (1 + xStar))%Q in
      let lambdaStar := (rhoStar / (float32 K * servTime'))%Q in
      intCeil (ArrivalRate load / (lambdaStar * 60 * 1000))
    else 0 in
  let numReplicas2 :=
    if Qgtb (TPS target) 0 then
      let lambdaMax := (float32 N / (servTime' * float32 K))%Q in
      let lambdaStarThroughput' := (lambdaMax * (1 - StabilitySafetyFraction))%Q in
      let throughputTarget := (TPS target / (1000 * float32 K))%Q in
      let n := intCeil (throughputTarget / lambdaStarThroughput') in
      Z.max numReplicas1 n
    else numReplicas1 in
  if numReplicas2 =? 0 then None else
  let totalNumInstances := GoInt.mul (NumInstances model gName) numReplicas2 in
  let cost' := (acc_Cost acc * float32 totalNumInstances)%Q in
  let rho' :=
    (ArrivalRate load * float32 K * servTime' / (float32 numReplicas2 * 60 * 1000))%Q in
  let x := (rho' / (1 - rho'))%Q in
  let wait := (float32 K * servTime' * gamma * x / float32 N)%Q in
  Some (SetValue cost'
    {| accelerator := gName; numReplicas := numReplicas2; batchSize := N;
       cost := cost'; value := 0; servTime := servTime'; waitTime := wait; rho := rho';
       maxArrvRatePerReplica := 0 |}).

(** [func CreateAllocationUsingGGm(serverName string, gName string) *Allocation];
    [None] is nil. *)
Definition CreateAllocationUsingGGm (serverName gName : string) : option Allocation :=
  acc ← GetAccelerator sys gName;
  server ← GetServer sys serverName;
  load ← Load server;
  let modelName := ModelName server in
  model ← GetModel sys modelName;
  perf ← PerfData model gName;
  svc ← GetServiceClass sys (ServiceClassName server);
  target ← ModelTarget svc modelName;
  if Qeqb (ArrivalRate load) 0 || (AvgLength load =? 0) then
    Some (zeroLoadAllocation server model acc perf)
  else
    positiveLoadAllocationGGm gName server load model acc perf target.

End EvaluatorGGm.

End core.

(** ** Package solver: the greedy allocator *)

Module solver.
Import core.

(** Modelled from the spec: [config.SaturatedAllocationPolicyEnum]. *)
Inductive SaturatedAllocationPolicy : Set :=
| PolicyNone
| PriorityExhaustive
| PriorityRoundRobin
| RoundRobin.

(** [type serverEntry struct]. *)
Record serverEntry : Type := mkEntry {
  serverName : string;
  priority : Z;
  curIndex : nat;
  allocations : list Allocation;
  delta : Q
}.

(** What a solve mutates: the map [available], and the allocation slot of
    every server, keyed by the name under which the server is registered
    ([SetAllocation] fills the slot, [RemoveAllocation] empties it). *)
Record store : Type := mkStore {
  available : gmap string Z;
  allocation : gmap string Allocation
}.

(** [available[t]]: reading a Go map gives the zero value for an absent key. *)
Definition avail (st : store) (t : string) : Z := default 0 (available st !! t).

(** [available[t] -= count]. *)
Definition deduct (t : string) (count : Z) (st : store) : store :=
  mkStore (<[t := GoInt.sub (avail st t) count]> (available st)) (allocation st).

(** Modelled from the spec: [server.SetAllocation(alloc)] ([server.go] is not
    among the sources) puts the allocation into the slot of the server. *)
Definition SetAllocation (serverName : string) (alloc : Allocation) (st : store) : store :=
  mkStore (available st) (<[serverName := alloc]> (allocation st)).

(** Modelled from the spec: [server.RemoveAllocation()] leaves the server
    without an allocation. *)
Definition RemoveAllocation (serverName : string) (st : store) : store :=
  mkStore (available st) (delete serverName (allocation st)).

(** [e.allocations[i].Value()], used where the source has just compared [i]
    with the length of the slice. *)
Definition valueAt (l : list Allocation) (i : nat) : Q :=
  from_option value 0%Q (l !! i).

(** [orderFunc]: priorities first, then larger delta, then larger current
    value. *)
Definition orderFunc (a b : serverEntry) : comparison :=
  if priority a =? priority b then
    if Qeqb (delta a) (delta b) then
      cmpCompareQ (valueAt (allocations b) (curIndex b)) (valueAt (allocations a) (curIndex a))
    else cmpCompareQ (delta b) (delta a)
  else cmpCompareZ (priority a) (priority b).

(** The loop of [slices.BinarySearchFunc] (Go standard library) on the
    interval [i, j). *)
Fixpoint binarySearchLoop {E T} (fuel : nat) (x : list E) (target : T)
    (cmp : E -> T -> comparison) (i j : nat) : nat :=
  match fuel with
  | O => i
  | S fuel' =>
    if (i <? j)%nat then
      let h := ((i + j) / 2)%nat in
      match x !! h with
      | Some xh =>
        match cmp xh target with
        | Lt => binarySearchLoop fuel' x target cmp (h + 1)%nat j
        | _ => binarySearchLoop fuel' x target cmp i h
        end
      | None => i
      end
    else i
  end.

Definition BinarySearchFunc {E T} (x : list E) (target : T)
    (cmp : E -> T -> comparison) : nat :=
  binarySearchLoop (S (length x)) x target cmp 0 (length x).

(** [slices.Insert(s, i, v)] for [i <= len(s)]. *)
Definition Insert {E} (s : list E) (i : nat) (v : E) : list E :=
  take i s ++ v :: drop i s.

(** [unitsPerReplica := model.NumInstances(gName) * acc.Spec().Multiplicity]
    and [count := alloc.NumReplicas() * unitsPerReplica]. *)
Definition unitsPerReplicaOf (mdl : Model) (acc : Accelerator) (gName : string) : Z :=
  GoInt.mul (NumInstances mdl gName) (acc_Multiplicity acc).

Definition unitCount (mdl : Model) (acc : Accelerator) (alloc : Allocation) : Z :=
  GoInt.mul (numReplicas alloc) (unitsPerReplicaOf mdl acc (accelerator alloc)).

Definition setCurIndexDelta (e : serverEntry) (i : nat) (d : Q) : serverEntry :=
  mkEntry (serverName e) (priority e) i (allocations e) d.

(** The measure that bounds the main loop: every round either removes an
    entry or advances the current index of one. *)
Definition entryCredit (e : serverEntry) : nat :=
  S (length (allocations e) - curIndex e).

Definition credit (entries : list serverEntry) : nat :=
  foldr (fun e n => (entryCredit e + n)%nat) O entries.

Definition mainFuel (entries : list serverEntry) : nat := S (credit entries).

(** The units left over all types, the negative counts taken as 0. It
    bounds the number of rounds of the round-robin loop: every round removes
    a ticket or deducts at least one unit. *)
Definition sumAvailable (m : gmap string Z) : nat :=
  Z.to_nat (sumZ (fun p : string * Z => Z.max 0 p.2) (map_to_list m)).

(** [type serverAllocationTicket struct]. *)
Record serverAllocationTicket : Type := mkTicket {
  entry : serverEntry;
  active : bool;
  server : Server;
  model : Model;
  accType : string;
  unitsPerReplica : Z;
  ticket_numReplicas : Z;
  finalAlloc : option Allocation
}.

(** The state of [processUnallocatedServerGroup]. A ticket is one object
    reachable from both maps under the same key; it is written only through
    [tickets], at activation (before it enters [allocatedTickets]) and at a
    grant (where it is stored into [allocatedTickets] at once), so the two
    entries always hold the same ticket. *)
Record rrState : Type := mkRR {
  tickets : gmap string serverAllocationTicket;
  allocatedTickets : gmap string serverAllocationTicket;
  rr_store : store
}.

Section Solver.

(** [slices.SortFunc] (Go standard library): not stable, so the order of
    equal elements is left open. *)
Variable SortFunc : forall E : Type, (E -> E -> comparison) -> list E -> list E.

Variable sys : System.

(** The body of the loop over [core.GetServers()], after
    [server.RemoveAllocation()]: the entry of a server, if it has
    candidates. *)
Definition newEntry (name : string) (srv : Server) : option serverEntry :=
  let allAllocs := AllAllocations srv in
  if (length allAllocs =? 0)%nat then None else
  let sorted := SortFunc _ (fun a b => cmpCompareQ (value a) (value b)) allAllocs in
  let d :=
    if (1 <? length sorted)%nat then (valueAt sorted 1 - valueAt sorted 0)%Q
    else MaxFloat32 in
  Some (mkEntry name (Priority srv) 0 sorted d).

Fixpoint buildEntries (servers : list (string * Server)) (entries : list serverEntry)
    (st : store) : list serverEntry * store :=
  match servers with
  | [] => (entries, st)
  | (name, srv) :: servers' =>
    let st' := RemoveAllocation name st in
    match newEntry name srv with
    | None => buildEntries servers' entries st'
    | Some e => buildEntries servers' (entries ++ [e]) st'
    end
  end.

(** The loop [for len(entries) > 0] of [SolveGreedy]. *)
Fixpoint greedyLoop (fuel : nat) (entries unallocatedServers : list serverEntry)
    (st : store) : result (list serverEntry * store) :=
  match fuel with
  | O => OutOfFuel
  | S fuel' =>
    match entries with
    | [] => Ret (unallocatedServers, st)
    | top :: entries' =>
      if (length (allocations top) =? 0)%nat then
        greedyLoop fuel' entries' unallocatedServers st
      else
      match GetServer sys (serverName top) with
      | None => greedyLoop fuel' entries' unallocatedServers st
      | Some srv =>
      match GetModel sys (ModelName srv) with
      | None => greedyLoop fuel' entries' unallocatedServers st
      | Some mdl =>
      match allocations top !! curIndex top with
      | None => Panic IndexOutOfRange
      | Some alloc =>
        let gName := accelerator alloc in
        (* [acc.Type()] reads through the pointer *)
        try! acc := deref (GetAccelerator sys gName) in
        let tName := acc_Type acc in
        let count := unitCount mdl acc alloc in
        if avail st tName >=? count then
          greedyLoop fuel' entries' unallocatedServers
            (SetAllocation (serverName top) alloc (deduct tName count st))
        else
          let i := S (curIndex top) in
          if (i + 1 <? length (allocations top))%nat then
            let top' := setCurIndexDelta top i
              (valueAt (allocations top) (i + 1) - valueAt (allocations top) i)%Q in
            let k := BinarySearchFunc entries' top' orderFunc in
            greedyLoop fuel' (Insert entries' k top') unallocatedServers st
          else if (i =? length (allocations top))%nat then
            greedyLoop fuel' entries'
              (unallocatedServers ++ [setCurIndexDelta top i (delta top)]) st
          else
            let top' := setCurIndexDelta top i MaxFloat32 in
            let k := BinarySearchFunc entries' top' orderFunc in
            greedyLoop fuel' (Insert entries' k top') unallocatedServers st
      end end end
    end
  end.

(** The loop over [entry.allocations] of [processUnallocatedServers], which
    ends at the first candidate that gets replicas. *)
Fixpoint exhaustEntry (e : serverEntry) (allocs : list Allocation) (st : store)
    : result store :=
  match allocs with
  | [] => Ret st
  | alloc :: allocs' =>
    let accName := accelerator alloc in
    (* [server.ModelName()] is called before the nil check on [server] *)
    try! srv := deref (GetServer sys (serverName e)) in
    match GetAccelerator sys accName, GetModel sys (ModelName srv) with
    | Some acc, Some mdl =>
      let upr := unitsPerReplicaOf mdl acc accName in
      if upr >? 0 then
        let maxReplicas0 := GoInt.quot (avail st (acc_Type acc)) upr in
        let maxReplicas := Z.min maxReplicas0 (numReplicas alloc) in
        if maxReplicas >? 0 then
          let curNumReplicas := numReplicas alloc in
          let factor := (float32 maxReplicas / float32 curNumReplicas)%Q in
          let alloc' :=
            SetNumReplicas maxReplicas
              (SetValue (value alloc * factor)%Q
                 (SetCost (cost alloc * factor)%Q alloc)) in
          let count := GoInt.mul maxReplicas upr in
          Ret (deduct (acc_Type acc) count (SetAllocation (serverName e) alloc' st))
        else exhaustEntry e allocs' st
      else exhaustEntry e allocs' st
    | _, _ => exhaustEntry e allocs' st
    end
  end.

(** [func processUnallocatedServers]. *)
Fixpoint processUnallocatedServers (serverEntries : list serverEntry) (st : store)
    : result store :=
  match serverEntries with
  | [] => Ret st
  | e :: rest =>
    try! st' := exhaustEntry e (allocations e) st in
    processUnallocatedServers rest st'
  end.

(** The first loop of [processUnallocatedServerGroup]: one ticket per valid
    member. *)
Fixpoint createTickets (serverEntries : list serverEntry)
    (tks : gmap string serverAllocationTicket)
    : result (gmap string serverAllocationTicket) :=
  match serverEntries with
  | [] => Ret tks
  | e :: rest =>
    (* [server.ModelName()] is called before the nil check on [server] *)
    try! srv := deref (GetServer sys (serverName e)) in
    match GetModel sys (ModelName srv) with
    | None => createTickets rest tks
    | Some mdl =>
      createTickets rest
        (<[serverName e := mkTicket e false srv mdl EmptyString 0 0 None]> tks)
    end
  end.

(** The scan of a not yet active ticket over the candidates of its entry:
    the ticket after the first candidate that fits, if any. *)
Fixpoint activate (ticket : serverAllocationTicket) (allocs : list Allocation)
    (st : store) : serverAllocationTicket :=
  match allocs with
  | [] => ticket
  | alloc :: allocs' =>
    let accName := accelerator alloc in
    match GetAccelerator sys accName with
    | Some acc =>
      let upr := unitsPerReplicaOf (model ticket) acc accName in
      if (upr >? 0) && (avail st (acc_Type acc) >=? upr) then
        mkTicket (entry ticket) true (server ticket) (model ticket)
          (acc_Type acc) upr (ticket_numReplicas ticket) (Some alloc)
      else activate ticket allocs' st
    | None => activate ticket allocs' st
    end
  end.

(** The body of the inner loop of the round-robin: the visit of one member. *)
Definition visit (e : serverEntry) (rr : rrState) : result rrState :=
  let name := serverName e in
  match tickets rr !! name with
  | None => Ret rr
  | Some ticket0 =>
    let ticket :=
      if active ticket0 then ticket0 else activate ticket0 (allocations e) (rr_store rr) in
    if negb (active ticket) then
      Ret (mkRR (delete name (tickets rr)) (allocatedTickets rr) (rr_store rr))
    else if unitsPerReplica ticket =? 0 then Panic DivideByZero
    else
      let replicasAvailable :=
        GoInt.quot (avail (rr_store rr) (accType ticket)) (unitsPerReplica ticket) in
      try! final := deref (finalAlloc ticket) in
      let replicasAllocatable := Z.min replicasAvailable (numReplicas final) in
      if replicasAllocatable >? 0 then
        let ticket' :=
          mkTicket (entry ticket) (active ticket) (server ticket) (model ticket)
            (accType ticket) (unitsPerReplica ticket)
            (GoInt.add (ticket_numReplicas ticket) 1) (finalAlloc ticket) in
        Ret (mkRR (<[name := ticket']> (tickets rr))
                  (<[name := ticket']> (allocatedTickets rr))
                  (deduct (accType ticket) (unitsPerReplica ticket) (rr_store rr)))
      else
        Ret (mkRR (delete name (tickets rr)) (allocatedTickets rr) (rr_store rr))
  end.

(** One round over the members, in input order. *)
Fixpoint round (serverEntries : list serverEntry) (rr : rrState) : result rrState :=
  match serverEntries with
  | [] => Ret rr
  | e :: rest =>
    try! rr' := visit e rr in
    round rest rr'
  end.

(** The loop [for len(tickets) > 0]. *)
Fixpoint roundRobin (fuel : nat) (serverEntries : list serverEntry) (rr : rrState)
    : result rrState :=
  match fuel with
  | O => OutOfFuel
  | S fuel' =>
    if (size (tickets rr) =? 0)%nat then Ret rr
    else
      try! rr' := round serverEntries rr in
      roundRobin fuel' serverEntries rr'
  end.

(** The body of the last loop: the update of one allocated member. *)
Definition commitTicket (name : string) (ticket : serverAllocationTicket) (st : store)
    : result store :=
  try! alloc := deref (finalAlloc ticket) in
  let numReplicas' := ticket_numReplicas ticket in
  let curNumReplicas := numReplicas alloc in
  let factor := (float32 numReplicas' / float32 curNumReplicas)%Q in
  let alloc' :=
    SetNumReplicas numReplicas'
      (SetValue (value alloc * factor)%Q (SetCost (cost alloc * factor)%Q alloc)) in
  Ret (SetAllocation name alloc' st).

Fixpoint commitTickets (l : list (string * serverAllocationTicket)) (st : store)
    : result store :=
  match l with
  | [] => Ret st
  | (name, ticket) :: l' =>
    try! st' := commitTicket name ticket st in
    commitTickets l' st'
  end.

Definition roundRobinFuel (tks : gmap string serverAllocationTicket) (st : store) : nat :=
  S (size tks + sumAvailable (available st)).

(** [func processUnallocatedServerGroup]. *)
Definition processUnallocatedServerGroup (serverEntries : list serverEntry) (st : store)
    : result store :=
  try! tks := createTickets serverEntries ∅ in
  try! rr := roundRobin (roundRobinFuel tks st) serverEntries (mkRR tks ∅ st) in
  commitTickets (map_to_list (allocatedTickets rr)) (rr_store rr).

(** The members that follow the head of a group and share its priority, and
    the rest. *)
Fixpoint splitGroup (groupPriority : Z) (l : list serverEntry)
    : list serverEntry * list serverEntry :=
  match l with
  | [] => ([], [])
  | e :: l' =>
    if priority e =? groupPriority then
      let '(g, rest) := splitGroup groupPriority l' in (e :: g, rest)
    else ([], l)
  end.

(** The loop of [processGroupsOfUnallocatedServers]. *)
Fixpoint groupsLoop (fuel : nat) (serverEntries : list serverEntry) (st : store)
    : result store :=
  match fuel with
  | O => OutOfFuel
  | S fuel' =>
    match serverEntries with
    | [] => Ret st
    | e :: l =>
      let '(g, rest) := splitGroup (priority e) l in
      try! st' := processUnallocatedServerGroup (e :: g) st in
      groupsLoop fuel' rest st'
    end
  end.

(** [func processGroupsOfUnallocatedServers]. *)
Definition processGroupsOfUnallocatedServers (serverEntries : list serverEntry)
    (st : store) : result store :=
  groupsLoop (S (length serverEntries)) serverEntries st.

(** [SolveGreedy] up to the end of the main loop: the servers left
    unallocated and the store. [previous] holds the allocation slots as the
    solve finds them. *)
Definition mainPass (previous : gmap string Allocation)
    : result (list serverEntry * store) :=
  let st0 := mkStore (GetCapacities sys) previous in
  let '(entries, st1) := buildEntries (GetServers sys) [] st0 in
  let sorted := SortFunc _ orderFunc entries in
  greedyLoop (mainFuel sorted) sorted [] st1.

(** [func (s *Solver) SolveGreedy()]. *)
Definition SolveGreedy (policy : SaturatedAllocationPolicy)
    (previous : gmap string Allocation) : result store :=
  try! r := mainPass previous in
  let '(unallocatedServers, st) := r in
  match policy with
  | PriorityExhaustive => processUnallocatedServers unallocatedServers st
  | PriorityRoundRobin => processGroupsOfUnallocatedServers unallocatedServers st
  | RoundRobin => processUnallocatedServerGroup unallocatedServers st
  | PolicyNone => Ret st
  end.

End Solver.

End solver.

(** * Vocabulary of the properties *)

Module props.
Import core solver.

(** [capacity[t]], the count of type t that a solve starts from. *)
Definition capacity (sys : System) (t : string) : Z :=
  default 0 (GetCapacities sys !! t).

(** The units of accelerator type t that the allocation in the slot of the
    server [name] occupies: its replica count times the units per replica,
    computed as the solver computes them. *)
Definition allocUnits (sys : System) (t : string) (slot : string * Allocation) : Z :=
  let '(name, a) := slot in
  match GetServer sys name with
  | Some srv =>
    match GetModel sys (ModelName srv), GetAccelerator sys (accelerator a) with
    | Some mdl, Some acc =>
        if decide (acc_Type acc = t) then unitCount mdl acc a else 0
    | _, _ => 0
    end
  | None => 0
  end.

(** The sum of the allocated units of type t over all servers. *)
Definition allocatedUnits (sys : System) (st : store) (t : string) : Z :=
  sumZ (allocUnits sys t) (map_to_list (allocation st)).

(** The registry of servers is a map: no name occurs twice. *)
Definition serversDistinct (sys : System) : Prop :=
  NoDup (fst <$> GetServers sys).

(** Capacities are counts that fit an [int]. *)
Definition capacitiesValid (sys : System) : Prop :=
  forall t c, GetCapacities sys !! t = Some c -> 0 <= c <= GoInt.MaxInt.

(** No candidate of a server asks for a negative number of units. *)
Definition countsValid (sys : System) : Prop :=
  forall name srv mdl acc a,
    GetServer sys name = Some srv ->
    GetModel sys (ModelName srv) = Some mdl ->
    a ∈ AllAllocations srv ->
    GetAccelerator sys (accelerator a) = Some acc ->
    0 <= unitCount mdl acc a.

(** What [slices.SortFunc] is relied on for: it rearranges its argument. *)
Definition sortPermutes
    (SortFunc : forall E : Type, (E -> E -> comparison) -> list E -> list E) : Prop :=
  forall E cmp l, Permutation (SortFunc E cmp l) l.

(** The entry belongs to a registered server and its candidates are among
    those of the server. *)
Definition entryOf (sys : System) (e : serverEntry) : Prop :=
  exists srv, GetServer sys (serverName e) = Some srv /\
    forall a, a ∈ allocations e -> a ∈ AllAllocations srv.

(** The state of the main loop: the entries still to serve, the servers given
    up on, and the store. Servers in either list are distinct, registered and
    have an empty slot; a filled slot of a registered server holds one of its
    own candidates. *)
Record slotInv (sys : System) (es un : list serverEntry) (st : store) : Prop := {
  inv_names : NoDup (serverName <$> (es ++ un));
  inv_entries : forall e, e ∈ es ++ un ->
    allocation st !! serverName e = None /\ entryOf sys e;
  inv_slots : forall name a srv,
    allocation st !! name = Some a -> GetServer sys name = Some srv ->
    a ∈ AllAllocations srv
}.

(** No count of [available] is negative, and allocated and available units
    add up to the capacity. *)
Record unitInv (sys : System) (st : store) : Prop := {
  inv_available : forall t, 0 <= avail st t <= GoInt.MaxInt;
  inv_allocated : forall t, 0 <= allocatedUnits sys st t;
  inv_units : forall t, allocatedUnits sys st t + avail st t = capacity sys t
}.

(** The units of type t that a ticket of the round-robin has taken from
    [available] so far. *)
Definition ticketUnits (t : string) (slot : string * serverAllocationTicket) : Z :=
  if decide (accType slot.2 = t) then ticket_numReplicas slot.2 * unitsPerReplica slot.2
  else 0.

Definition pendingUnits (rr : rrState) (t : string) : Z :=
  sumZ (ticketUnits t) (map_to_list (allocatedTickets rr)).

(** A ticket that has been activated for the server [name]: its candidate is
    on a registered accelerator, and its type and units per replica are
    those of that accelerator and of the model of the server. *)
Definition ticketActive (sys : System) (name : string) (tk : serverAllocationTicket)
    : Prop :=
  exists srv acc alloc,
    GetServer sys name = Some srv /\
    GetModel sys (ModelName srv) = Some (model tk) /\
    finalAlloc tk = Some alloc /\
    GetAccelerator sys (accelerator alloc) = Some acc /\
    accType tk = acc_Type acc /\
    unitsPerReplica tk = unitsPerReplicaOf (model tk) acc (accelerator alloc) /\
    (0 < unitsPerReplica tk) /\
    (0 <= ticket_numReplicas tk).

(** The state of the round-robin between two visits. *)
Record rrInv (sys : System) (rr : rrState) : Prop := {
  rr_available : forall t, 0 <= avail (rr_store rr) t <= GoInt.MaxInt;
  rr_allocated : forall t, 0 <= allocatedUnits sys (rr_store rr) t;
  rr_units : forall t,
    allocatedUnits sys (rr_store rr) t + pendingUnits rr t + avail (rr_store rr) t
      = capacity sys t;
  rr_granted : forall name tk,
    allocatedTickets rr !! name = Some tk ->
    ticketActive sys name tk /\ allocation (rr_store rr) !! name = None;
  rr_tickets : forall name tk,
    tickets rr !! name = Some tk ->
    allocation (rr_store rr) !! name = None /\
    (exists srv, GetServer sys name = Some srv /\
       GetModel sys (ModelName srv) = Some (model tk)) /\
    if active tk then allocatedTickets rr !! name = Some tk
    else allocatedTickets rr !! name = None /\ ticket_numReplicas tk = 0
}.

(** The store with the slots [m0] behind its own. *)
Definition behind (m0 : gmap string Allocation) (st : store) : store :=
  mkStore (available st) (allocation st ∪ m0).

Definition onStore (f : store -> store) (r : result (list serverEntry * store))
    : result (list serverEntry * store) :=
  match r with
  | Ret (un, st) => Ret (un, f st)
  | Panic p => Panic p
  | OutOfFuel => OutOfFuel
  end.

(** Every candidate of a registered server is on a registered accelerator
    (as [CreateAllocation] guarantees for what it returns). *)
Definition acceleratorsKnown (sys : System) : Prop :=
  forall name srv a,
    GetServer sys name = Some srv -> a ∈ AllAllocations srv ->
    is_Some (GetAccelerator sys (accelerator a)).

(** An entry of the main loop has a current candidate, and its candidates
    are on registered accelerators. *)
Definition entryReady (sys : System) (e : serverEntry) : Prop :=
  (curIndex e < length (allocations e))%nat /\
  forall a, a ∈ allocations e -> is_Some (GetAccelerator sys (accelerator a)).

(** What a round of the round-robin loop decreases. *)
Definition potential (rr : rrState) : nat :=
  (size (tickets rr) + sumAvailable (available (rr_store rr)))%nat.

(** The candidate [c] of the member asks for more units of its type than are
    available: the test [available[tName] >= count] of the main loop fails
    for it. *)
Definition refusedAt (sys : System) (st : store) (e : serverEntry) (c : Allocation)
    : Prop :=
  forall srv mdl acc,
    GetServer sys (serverName e) = Some srv ->
    GetModel sys (ModelName srv) = Some mdl ->
    GetAccelerator sys (accelerator c) = Some acc ->
    avail st (acc_Type acc) < unitCount mdl acc c.

(** Every candidate of the member is refused: why the main loop put the
    server on the unallocated list. *)
Definition refused (sys : System) (st : store) (e : serverEntry) : Prop :=
  forall c, c ∈ allocations e -> refusedAt sys st e c.

(** The state in which [SolveGreedy] hands unallocated servers to a
    saturation procedure: the units are in balance, the members are distinct
    registered servers with empty slots, and every candidate of every member
    is refused. *)
Record saturated (sys : System) (es : list serverEntry) (st : store) : Prop := {
  sat_units : unitInv sys st;
  sat_names : NoDup (serverName <$> es);
  sat_servers : forall e, e ∈ es -> is_Some (GetServer sys (serverName e));
  sat_slots : forall e, e ∈ es -> allocation st !! serverName e = None;
  sat_refused : forall e, e ∈ es -> refused sys st e
}.

(** The replicas that a ticket holds, together with those that [available]
    could still give it, stay below the replica count of its candidate. *)
Definition ticketBelow (es : list serverEntry) (st : store) (name : string)
    (tk : serverAllocationTicket) : Prop :=
  exists e final,
    e ∈ es /\ serverName e = name /\
    finalAlloc tk = Some final /\ final ∈ allocations e /\
    ticket_numReplicas tk * unitsPerReplica tk + avail st (accType tk)
      < numReplicas final * unitsPerReplica tk.

Record rrBound (sys : System) (es : list serverEntry) (rr : rrState) : Prop := {
  rb_refused : forall e, e ∈ es -> refused sys (rr_store rr) e;
  rb_below : forall name tk,
    allocatedTickets rr !! name = Some tk -> ticketBelow es (rr_store rr) name tk
}.

(** The states that the round-robin over the members [es] can be in after
    any number of visits, whatever the order of the visits, when it starts
    in [rr0]. *)
Inductive rrReach (sys : System) (es : list serverEntry) (rr0 : rrState)
    : rrState -> Prop :=
| rrReach_start : rrReach sys es rr0 rr0
| rrReach_visit (rr rr' : rrState) (e : serverEntry) :
    rrReach sys es rr0 rr -> e ∈ es -> visit sys e rr = Ret rr' ->
    rrReach sys es rr0 rr'.

(** The state of the loop of [ReAllocate] after the accelerators [seen],
    where [create] is [CreateAllocation] for the server: without a recorded
    minimum, [minVal] is 0 and no accelerator seen was feasible; with one, it
    is recorded with its value, it is what [create] gives for an accelerator
    seen, and it has least value among the feasible ones seen provided none
    of them has value zero. *)
Definition reAllocateInv (create : string -> option Allocation) (seen : list string)
    (st : Q * option Allocation) : Prop :=
  match st.2 with
  | None => (st.1 == 0)%Q /\ forall g, g ∈ seen -> create g = None
  | Some m =>
      st.1 = value m /\
      (exists g, g ∈ seen /\ create g = Some m) /\
      ((forall g al, g ∈ seen -> create g = Some al -> ~ (value al == 0)%Q) ->
       forall g al, g ∈ seen -> create g = Some al -> (value m <= value al)%Q)
  end.

(** The candidate [c] cut down to [k] replicas, as both saturation procedures
    do it: the replica count is set to [k] and cost and value are multiplied
    by [float32(k) / float32(c.NumReplicas())]; the other fields stay. *)
Definition scaledTo (c : Allocation) (k : Z) : Allocation :=
  SetNumReplicas k
    (SetValue (value c * (float32 k / float32 (numReplicas c)))%Q
       (SetCost (cost c * (float32 k / float32 (numReplicas c)))%Q c)).

(** One replica of the candidate [c] of the member fits into what is
    available: the server, its model and the accelerator are registered, a
    replica takes a positive number of units, no more than are available of
    the type, and the candidate asks for at least one replica. *)
Definition fitsOne (sys : System) (st : store) (e : serverEntry) (c : Allocation)
    : Prop :=
  exists srv mdl acc,
    GetServer sys (serverName e) = Some srv /\
    GetModel sys (ModelName srv) = Some mdl /\
    GetAccelerator sys (accelerator c) = Some acc /\
    0 < unitsPerReplicaOf mdl acc (accelerator c) <= avail st (acc_Type acc) /\
    0 < numReplicas c.

(** The allocation [a] is a candidate of the member cut down to as many
    replicas as fit: all that the candidate asks for, or so many that less
    than one further replica is available. *)
Definition exhausted (sys : System) (st : store) (e : serverEntry) (a : Allocation)
    : Prop :=
  exists c srv mdl acc,
    c ∈ allocations e /\
    GetServer sys (serverName e) = Some srv /\
    GetModel sys (ModelName srv) = Some mdl /\
    GetAccelerator sys (accelerator c) = Some acc /\
    a = scaledTo c (numReplicas a) /\
    0 < numReplicas a <= numReplicas c /\
    (numReplicas a = numReplicas c \/
     avail st (acc_Type acc) < unitsPerReplicaOf mdl acc (accelerator c)).

(** The allocation [a] is a candidate of the member cut down to at least one
    replica, and less than one further replica of it is available. *)
Definition drained (sys : System) (st : store) (e : serverEntry) (a : Allocation)
    : Prop :=
  exists c srv mdl acc,
    c ∈ allocations e /\
    GetServer sys (serverName e) = Some srv /\
    GetModel sys (ModelName srv) = Some mdl /\
    GetAccelerator sys (accelerator c) = Some acc /\
    a = scaledTo c (numReplicas a) /\
    1 <= numReplicas a /\ 0 < numReplicas c /\
    0 < unitsPerReplicaOf mdl acc (accelerator c) /\
    avail st (acc_Type acc) < unitsPerReplicaOf mdl acc (accelerator c).

(** What the round-robin over the members [es] has settled: a ticket that
    was granted replicas holds at least one, of a candidate of its member
    that asks for at least one; once it is out of the rotation, less than one
    further replica of its type is available; and a member that is out of
    the rotation without replicas has, if all its candidates ask for at
    least one replica, no candidate of which one replica fits. *)
Record rrDone (sys : System) (es : list serverEntry) (rr : rrState) : Prop := {
  rd_granted : forall name tk,
    allocatedTickets rr !! name = Some tk ->
    1 <= ticket_numReplicas tk /\
    exists e final,
      e ∈ es /\ serverName e = name /\
      finalAlloc tk = Some final /\ final ∈ allocations e /\ 0 < numReplicas final;
  rd_out : forall name tk,
    allocatedTickets rr !! name = Some tk -> tickets rr !! name = None ->
    avail (rr_store rr) (accType tk) < unitsPerReplica tk;
  rd_idle : forall e,
    e ∈ es ->
    tickets rr !! serverName e = None ->
    allocatedTickets rr !! serverName e = None ->
    (forall c, c ∈ allocations e -> 0 < numReplicas c) ->
    forall c, c ∈ allocations e -> ~ fitsOne sys (rr_store rr) e c
}.

End props.

(** * Concrete inputs

    The systems, allocations and library instances at which the theorems
    below are evaluated. *)

Module examples.
Import core solver.
Local Open Scope string_scope.

(** Values of the constants of package [config] as the specification quotes
    them. *)
Definition MaxQueueToBatchRatio : Z := 4.
Definition Delta : Q := 1 # 1000.
Definition StabilitySafetyFraction : Q := 1 # 10.
Definition SLOMargin : Q := 12 # 10.
Definition AccelPenaltyFactor : Q := 1 # 10.

(** An insertion sort, one of the orders that [slices.SortFunc] may
    produce. *)
Fixpoint insertSorted {E} (cmp : E -> E -> comparison) (x : E) (l : list E) : list E :=
  match l with
  | [] => [x]
  | y :: l' =>
    match cmp x y with
    | Gt => y :: insertSorted cmp x l'
    | _ => x :: l
    end
  end.

Definition insertionSort (E : Type) (cmp : E -> E -> comparison) (l : list E) : list E :=
  foldr (insertSorted cmp) [] l.

(** An instance of the queue-analysis interface for running the evaluator: a
    model that is always valid and reports no delay, and a search that
    returns the upper end of the range. *)
Definition Solve (queueModel : MM1ModelStateDependent) (lambda : Q) : QueueStats :=
  mkStats true 0 0 0.

Definition BinarySearch (lo hi target : Q) (eval : Q -> option Q) : Q * Z * bool :=
  (hi, 0, false).

Definition onKey {A} (key : string) (v : A) (k : string) : option A :=
  if String.eqb k key then Some v else None.

Definition A100 : Accelerator := mkAccelerator "A100" "A100" 40 1.

Definition perfA100 : ModelAcceleratorPerfData := mkPerf 32 512 (2058 # 100) (41 # 100).

Definition granite : Model := mkModel "granite_13b" (onKey "A100" perfA100) (fun _ => 1).

(** A model without performance data for any accelerator. *)
Definition graniteNoPerf : Model := mkModel "granite_13b" (fun _ => None) (fun _ => 1).

Definition premium : ServiceClass :=
  mkServiceClass (onKey "granite_13b" (mkTarget 40 1000 0)).

Definition premiumServer (ld : option ServerLoadSpec) (minReplicas : Z) : Server :=
  mkServer "Premium-g13b" "granite_13b" "Premium" 1 minReplicas 0 ld [].

Definition someLoad : ServerLoadSpec := mkLoad 60 512.

(** One server with a load, one known accelerator, no performance data of the
    model on it. *)
Definition sysNoPerf : System :=
  mkSystem [("A100", A100)] [("Premium-g13b", premiumServer (Some someLoad) 1)]
    (onKey "granite_13b" graniteNoPerf) (onKey "Premium" premium) {["A100" := 8]}.

(** The same server and model with performance data, but the service class of
    the server is not registered. *)
Definition sysNoClass : System :=
  mkSystem [("A100", A100)] [("Premium-g13b", premiumServer (Some someLoad) 1)]
    (onKey "granite_13b" granite) (fun _ => None) {["A100" := 8]}.

Definition oneReplica : Allocation := mkAllocation "A100" 1 32 40 40 30 0 (1 # 2) (1 # 100).

(** Two accelerators, one of them free of charge, and a server without
    traffic. *)
Definition freeAcc : Accelerator := mkAccelerator "free" "free" 0 1.

Definition perfBoth (g : string) : option ModelAcceleratorPerfData :=
  if String.eqb g "free" || String.eqb g "A100" then Some perfA100 else None.

Definition sysFree : System :=
  mkSystem [("free", freeAcc); ("A100", A100)]
    [("Premium-g13b", premiumServer (Some (mkLoad 0 512)) 1)]
    (onKey "granite_13b" (mkModel "granite_13b" perfBoth (fun _ => 1)))
    (onKey "Premium" premium) {["A100" := 8; "free" := 8]}.

(** A target with a negative throughput figure and no latency targets; one
    request per millisecond arrives. *)
Definition unitPerf : ModelAcceleratorPerfData := mkPerf 1 1 1 1.

Definition sysNegTPS : System :=
  mkSystem [("A100", A100)]
    [("Premium-g13b", premiumServer (Some (mkLoad 60000 1)) 1)]
    (onKey "granite_13b" (mkModel "granite_13b" (onKey "A100" unitPerf) (fun _ => 1)))
    (onKey "Premium" (mkServiceClass (onKey "granite_13b" (mkTarget 0 0 (-1000)))))
    {["A100" := 8]}.

(** Two allocations on the same accelerator, the second cheaper. *)
Definition twoReplicas : Allocation := mkAllocation "A100" 2 32 80 80 30 0 (1 # 2) (1 # 100).

(** A server that must keep two replicas and has no traffic, so that its one
    candidate (the zero-load allocation on A100) has two replicas; only one
    unit of A100 is available. *)
Definition twoMin : Allocation :=
  mkAllocation "A100" 2 32 80 80 (2099 # 100) 0 0 (3200 # 3370).

Definition sysTwoMin : System :=
  mkSystem [("A100", A100)]
    [("Premium-g13b",
      mkServer "Premium-g13b" "granite_13b" "Premium" 1 2 0 (Some (mkLoad 0 512)) [twoMin])]
    (onKey "granite_13b" granite) (onKey "Premium" premium) {["A100" := 1]}.

(** A group of one unallocated server whose candidate asks for one replica of
    one unit, handed to the round-robin with three units available. *)
Definition sysOne : System :=
  mkSystem [("A100", A100)]
    [("Premium-g13b", premiumServer (Some someLoad) 1)]
    (onKey "granite_13b" granite) (onKey "Premium" premium) {["A100" := 3]}.

Definition entryOne : serverEntry := mkEntry "Premium-g13b" 1 1 [oneReplica] MaxFloat32.

Definition threeUnits : store := mkStore {["A100" := 3]} ∅.

(** The server of [sysOne] with its candidate on record, and eight units. *)
Definition sysFits : System :=
  mkSystem [("A100", A100)]
    [("Premium-g13b",
      mkServer "Premium-g13b" "granite_13b" "Premium" 1 1 0 (Some someLoad) [oneReplica])]
    (onKey "granite_13b" granite) (onKey "Premium" premium) {["A100" := 8]}.

(** Two accelerators at different prices, with the same performance data for
    the model, and a server with traffic. *)
Definition H100 : Accelerator := mkAccelerator "H100" "H100" 100 1.

Definition perfTwo (g : string) : option ModelAcceleratorPerfData :=
  if String.eqb g "H100" || String.eqb g "A100" then Some perfA100 else None.

Definition sysTwoAcc : System :=
  mkSystem [("H100", H100); ("A100", A100)]
    [("Premium-g13b", premiumServer (Some someLoad) 1)]
    (onKey "granite_13b" (mkModel "granite_13b" perfTwo (fun _ => 1)))
    (onKey "Premium" premium) {["A100" := 8; "H100" := 8]}.

(** Two servers of different priorities, each with the one candidate of two
    replicas of one unit, and [units] units of A100. *)
Definition pairServer (name : string) (prio : Z) : Server :=
  mkServer name "granite_13b" "Premium" prio 2 0 (Some (mkLoad 0 512)) [twoMin].

Definition sysPair (units : Z) : System :=
  mkSystem [("A100", A100)]
    [("Premium-g13b", pairServer "Premium-g13b" 1);
     ("Bronze-g13b", pairServer "Bronze-g13b" 2)]
    (onKey "granite_13b" granite) (onKey "Premium" premium) {["A100" := units]}.

End examples.

(** * Theorems *)

Section AllocationFacts.
Import core.

(** C10: the round trip through [AllocationData] keeps accelerator,
    numReplicas, batchSize, cost, servTime (carried as ITLAverage) and
    waitTime of an allocation, and leaves value, rho and
    maxArrvRatePerReplica at zero. *)
Theorem AllocationFromData_AllocationData (a : Allocation) :
  let a' := AllocationFromData (AllocationData_of a) in
  (accelerator a' = accelerator a /\
   numReplicas a' = numReplicas a /\
   batchSize a' = batchSize a /\
   cost a' = cost a /\
   servTime a' = servTime a /\
   waitTime a' = waitTime a) /\
  data_ITLAverage (AllocationData_of a) = servTime a /\
  (value a' = 0%Q /\ rho a' = 0%Q /\ maxArrvRatePerReplica a' = 0%Q).
Proof. cbn. repeat split. Qed.

(** The penalty as the code computes it, case by case. *)
Lemma TransitionPenalty_cases (F : Q) (a b : Allocation) :
  (accelerator a = accelerator b -> numReplicas a = numReplicas b ->
     TransitionPenalty F a b = 0%Q) /\
  (accelerator a = accelerator b -> numReplicas a <> numReplicas b ->
     TransitionPenalty F a b = (cost b - cost a)%Q) /\
  (accelerator a <> accelerator b ->
     TransitionPenalty F a b = (F * (cost a + cost b) + (cost b - cost a))%Q).
Proof.
  unfold TransitionPenalty. repeat split.
  - intros -> ->. now rewrite String.eqb_refl, Z.eqb_refl.
  - intros -> Hn. rewrite String.eqb_refl.
    now destruct (Z.eqb_spec (numReplicas a) (numReplicas b)).
  - intros Hg. now destruct (String.eqb_spec (accelerator a) (accelerator b)).
Qed.

(** C7 (as amended): on one accelerator the penalty is 0 when the replica
    counts agree and the signed difference b.cost - a.cost when they differ;
    across accelerators it is AccelPenaltyFactor * (a.cost + b.cost) +
    (b.cost - a.cost). So the two directions add up to 0 on one accelerator
    and to 2 * AccelPenaltyFactor * (a.cost + b.cost) across accelerators. *)
Theorem TransitionPenalty_signed (F : Q) (a b : Allocation) :
  TransitionPenalty F a b =
    (if decide (accelerator a = accelerator b) then
       if decide (numReplicas a = numReplicas b) then 0 else cost b - cost a
     else F * (cost a + cost b) + (cost b - cost a))%Q /\
  (TransitionPenalty F a b + TransitionPenalty F b a ==
     if decide (accelerator a = accelerator b) then 0
     else 2 * F * (cost a + cost b))%Q.
Proof.
  destruct (TransitionPenalty_cases F a b) as (Hab0 & Hab1 & Hab2).
  destruct (TransitionPenalty_cases F b a) as (Hba0 & Hba1 & Hba2).
  destruct (decide (accelerator a = accelerator b)) as [Hg|Hg].
  - destruct (decide (numReplicas a = numReplicas b)) as [Hn|Hn].
    + rewrite Hab0, Hba0 by congruence. split; reflexivity.
    + rewrite Hab1, Hba1 by congruence. split; [reflexivity|ring].
  - rewrite Hab2, Hba2 by congruence. split; [reflexivity|ring].
Qed.

(** C7, the claim as stated fails: from two replicas at cost 80 to one
    replica at cost 40 on the same accelerator the penalty is -40, not the
    absolute value 40. *)
Lemma TransitionPenalty_not_absolute :
  accelerator examples.twoReplicas = accelerator examples.oneReplica /\
  (TransitionPenalty examples.AccelPenaltyFactor examples.twoReplicas examples.oneReplica
     == -40)%Q /\
  ~ (TransitionPenalty examples.AccelPenaltyFactor examples.twoReplicas examples.oneReplica
     == Qabs (cost examples.oneReplica - cost examples.twoReplicas))%Q.
Proof.
  split; [reflexivity|]. split; [reflexivity|].
  intros H. vm_compute in H. discriminate H.
Qed.

End AllocationFacts.

Section EvaluatorFacts.
Import core.

Variable MaxQueueToBatchRatio : Z.
Variables Delta StabilitySafetyFraction SLOMargin : Q.
Variable Solve : MM1ModelStateDependent -> Q -> QueueStats.
Variable BinarySearch : Q -> Q -> Q -> (Q -> option Q) -> Q * Z * bool.
Variable sys : System.


(** What a successful evaluation says about the registries. *)
Lemma CreateAllocation_Some_inv (serverName gName : string) (a' : Allocation) :
  (core.CreateAllocation MaxQueueToBatchRatio Delta StabilitySafetyFraction SLOMargin Solve BinarySearch sys) serverName gName = Some a' ->
  exists acc srv ld mdl perf svc target,
    GetAccelerator sys gName = Some acc /\
    GetServer sys serverName = Some srv /\
    Load srv = Some ld /\
    Qltb (ArrivalRate ld) 0 || (AvgLength ld <? 0) = false /\
    GetModel sys (ModelName srv) = Some mdl /\
    PerfData mdl gName = Some perf /\
    GetServiceClass sys (ServiceClassName srv) = Some svc /\
    ModelTarget svc (ModelName srv) = Some target /\
    (if Qeqb (ArrivalRate ld) 0 || (AvgLength ld =? 0)
     then Some (zeroLoadAllocation srv mdl acc perf)
     else positiveLoadAllocation MaxQueueToBatchRatio Delta
            StabilitySafetyFraction SLOMargin Solve BinarySearch
            gName srv ld mdl acc perf target) = Some a'.
Proof.
  unfold core.CreateAllocation. intros H.
  destruct (GetAccelerator sys gName) as [acc|] eqn:Eg; [|discriminate H].
  destruct (GetServer sys serverName) as [srv|] eqn:Es; [|discriminate H].
  cbn [mbind option_bind] in H.
  destruct (Load srv) as [ld|] eqn:El; [|discriminate H].
  cbn [mbind option_bind] in H.
  destruct (Qltb (ArrivalRate ld) 0 || (AvgLength ld <? 0)) eqn:En; [discriminate H|].
  destruct (GetModel sys (ModelName srv)) as [mdl|] eqn:Em; [|discriminate H].
  cbn [mbind option_bind] in H.
  destruct (PerfData mdl gName) as [perf|] eqn:Ep; [|discriminate H].
  destruct (GetServiceClass sys (ServiceClassName srv)) as [svc|] eqn:Ec; [|discriminate H].
  cbn [mbind option_bind] in H.
  destruct (ModelTarget svc (ModelName srv)) as [target|] eqn:Et; [|discriminate H].
  cbn [mbind option_bind] in H.
  exists acc, srv, ld, mdl, perf, svc, target. repeat split; auto.
Qed.

(** When the evaluator succeeds, [(core.Scale MaxQueueToBatchRatio Delta StabilitySafetyFraction SLOMargin Solve BinarySearch sys)] returns its allocation and the
    difference of the replica counts. *)
Lemma Scale_feasible (a a' : Allocation) (serverName : string) :
  (core.CreateAllocation MaxQueueToBatchRatio Delta StabilitySafetyFraction SLOMargin Solve BinarySearch sys) serverName (accelerator a) = Some a' ->
  (core.Scale MaxQueueToBatchRatio Delta StabilitySafetyFraction SLOMargin Solve BinarySearch sys) a serverName = Ret (Some a', GoInt.sub (numReplicas a') (numReplicas a)).
Proof.
  intros Hc. unfold core.Scale.
  destruct (CreateAllocation_Some_inv _ _ _ Hc)
    as (acc & srv & ld & _ & _ & _ & _ & Hg & Hs & Hl & _).
  rewrite Hs, Hl, Hg, Hc. reflexivity.
Qed.

(** C3: for a registered server with a load and an allocation on a known
    accelerator, [(core.Scale MaxQueueToBatchRatio Delta StabilitySafetyFraction SLOMargin Solve BinarySearch sys)] does not return (nil, 0) when [(core.CreateAllocation MaxQueueToBatchRatio Delta StabilitySafetyFraction SLOMargin Solve BinarySearch sys)]
    returns nil: it reads [alloc.numReplicas] through the nil pointer and
    panics. *)
Theorem Scale_infeasible_panics (a : Allocation) (serverName : string)
    (srv : Server) (ld : ServerLoadSpec) (acc : Accelerator) :
  GetServer sys serverName = Some srv ->
  Load srv = Some ld ->
  GetAccelerator sys (accelerator a) = Some acc ->
  (core.CreateAllocation MaxQueueToBatchRatio Delta StabilitySafetyFraction SLOMargin Solve BinarySearch sys) serverName (accelerator a) = None ->
  (core.Scale MaxQueueToBatchRatio Delta StabilitySafetyFraction SLOMargin Solve BinarySearch sys) a serverName = Panic NilDereference.
Proof.
  intros Hs Hl Hg Hc. unfold core.Scale. rewrite Hs, Hl, Hg, Hc. reflexivity.
Qed.

(** The two error returns of [(core.AdjustNumReplicas MaxQueueToBatchRatio Delta StabilitySafetyFraction SLOMargin Solve BinarySearch sys)], in the order in which the
    code tests for them. *)
Lemma AdjustNumReplicas_invalid (a : Allocation) (n : Z) (srv : Server) (mdl : Model) :
  (core.AdjustNumReplicas MaxQueueToBatchRatio Delta StabilitySafetyFraction SLOMargin Solve BinarySearch sys) a n srv mdl = Ret (inl ErrInvalidCurrent) <->
  (numReplicas a < 1 \/ batchSize a < 1).
Proof.
  unfold core.AdjustNumReplicas.
  destruct (Z.ltb_spec (numReplicas a) 1) as [H1|H1];
    destruct (Z.ltb_spec (batchSize a) 1) as [H2|H2]; cbn [orb];
    try (split; [intros _|reflexivity]; lia).
  split; [|lia]. intros H.
  destruct (Load srv); [|discriminate H].
  destruct (PerfData mdl (accelerator a)); [|discriminate H].
  match type of H with context [deref ?t] => destruct t end; cbn in H; discriminate H.
Qed.

Lemma AdjustNumReplicas_missing (a : Allocation) (n : Z) (srv : Server) (mdl : Model) :
  (exists e, (core.AdjustNumReplicas MaxQueueToBatchRatio Delta StabilitySafetyFraction SLOMargin Solve BinarySearch sys) a n srv mdl = Ret (inl e) /\ kind_of e = MissingData) <->
  (1 <= numReplicas a /\ 1 <= batchSize a /\
   (Load srv = None \/ PerfData mdl (accelerator a) = None)).
Proof.
  unfold core.AdjustNumReplicas.
  destruct (Z.ltb_spec (numReplicas a) 1) as [H1|H1];
    destruct (Z.ltb_spec (batchSize a) 1) as [H2|H2]; cbn [orb];
    try (split; [intros (e & [= <-] & He); discriminate He|intros; lia]).
  destruct (Load srv) as [ld|].
  - destruct (PerfData mdl (accelerator a)) as [perf|].
    + split.
      * intros (e & He & _).
        match type of He with context [deref ?t] => destruct t end; cbn in He;
          discriminate He.
      * intros (_ & _ & [H|H]); discriminate H.
    + split; [auto|]. intros _. exists ErrMissingPerf. split; reflexivity.
  - split; [auto|]. intros _. exists ErrMissingLoad. split; reflexivity.
Qed.

(** C8: with a valid allocation, a load and performance data, but no target
    for the model (the service class is not registered, or it has no target
    for the model), [(core.AdjustNumReplicas MaxQueueToBatchRatio Delta StabilitySafetyFraction SLOMargin Solve BinarySearch sys)] does not return: line 368 reads
    [target.ITL] through the nil pointer. *)
Theorem AdjustNumReplicas_nil_target_panics (a : Allocation) (n : Z) (srv : Server)
    (mdl : Model) (ld : ServerLoadSpec) (perf : ModelAcceleratorPerfData) :
  1 <= numReplicas a ->
  1 <= batchSize a ->
  Load srv = Some ld ->
  PerfData mdl (accelerator a) = Some perf ->
  match GetServiceClass sys (ServiceClassName srv) with
  | Some svClass => ModelTarget svClass (model_name mdl) = None
  | None => True
  end ->
  (core.AdjustNumReplicas MaxQueueToBatchRatio Delta StabilitySafetyFraction SLOMargin Solve BinarySearch sys) a n srv mdl = Panic NilDereference.
Proof.
  intros H1 H2 Hl Hp Ht. unfold core.AdjustNumReplicas.
  destruct (Z.ltb_spec (numReplicas a) 1); [lia|].
  destruct (Z.ltb_spec (batchSize a) 1); [lia|]. cbn [orb].
  rewrite Hl, Hp.
  destruct (GetServiceClass sys (ServiceClassName srv)) as [svClass|].
  - rewrite Ht. reflexivity.
  - reflexivity.
Qed.

(** The replica count of the positive-load branch as the code computes it:
    the ceiling of the demand over the smallest of the three rate ceilings,
    raised to the minimum of the server. *)
Lemma positiveLoadAllocation_numReplicas (gName : string) (srv : Server)
    (ld : ServerLoadSpec) (mdl : Model) (acc : Accelerator)
    (perf : ModelAcceleratorPerfData) (target : Target) (a : Allocation) :
  positiveLoadAllocation MaxQueueToBatchRatio Delta StabilitySafetyFraction SLOMargin
    Solve BinarySearch gName srv ld mdl acc perf target = Some a ->
  let K := AvgLength ld in
  let N := batchN srv perf K in
  let servRate := servRates (Alpha perf) (Beta perf) K N in
  let queueModel := NewMM1ModelStateDependent (GoInt.mul N MaxQueueToBatchRatio) servRate in
  let lambdaMin := (at_index servRate 0 * Delta)%Q in
  let lambdaMax := (at_index servRate (N - 1) * (1 - Delta))%Q in
  exists lsService lsWait,
    lambdaStarService Solve BinarySearch queueModel lambdaMin lambdaMax
      (float32 K * ITL target)%Q target = Some lsService /\
    lambdaStarWait Solve BinarySearch queueModel lambdaMin lambdaMax
      (TTW target / SLOMargin)%Q target = Some lsWait /\
    maxArrvRatePerReplica a =
      mathMin (mathMin lsService lsWait)
        (lambdaStarThroughput StabilitySafetyFraction lambdaMax target) /\
    numReplicas a =
      Z.max (intCeil (totalLambda target ld K / maxArrvRatePerReplica a))
        (minNumReplicas srv).
Proof.
  unfold positiveLoadAllocation. intros H. cbn zeta.
  destruct (lambdaStarService _ _ _ _ _ _ _) as [lsService|]; [|discriminate H].
  destruct (lambdaStarWait _ _ _ _ _ _ _) as [lsWait|]; [|discriminate H].
  cbn [mbind option_bind] in H. injection H as <-.
  exists lsService, lsWait. repeat split.
Qed.

(** The code and the words of the specification agree on the demand as long
    as the throughput target is not negative. *)
Lemma totalLambda_spec_nonneg (target : Target) (ld : ServerLoadSpec) (K : Z) :
  (0 <= TPS target)%Q -> totalLambda target ld K = totalLambda_spec target ld K.
Proof.
  intros H. unfold totalLambda, totalLambda_spec, Qeqb, Qgtb.
  destruct (Qeq_bool (TPS target) 0) eqn:E1; destruct (Qle_bool (TPS target) 0) eqn:E2;
    cbn [negb]; try reflexivity.
  - apply Qeq_bool_iff in E1. rewrite <- Qle_bool_iff, E1 in *.
    cbn in E2. discriminate E2.
  - apply Qle_bool_iff in E2. apply Qeq_bool_neq in E1.
    exfalso. apply E1. apply Qle_antisym; assumption.
Qed.

End EvaluatorFacts.

Section EvaluatorAtInputs.
Import core examples.
Local Open Scope string_scope.

Variable Solve : MM1ModelStateDependent -> Q -> QueueStats.
Variable BinarySearch : Q -> Q -> Q -> (Q -> option Q) -> Q * Z * bool.


(** C2: with a negative throughput target (and no latency targets) the code
    sizes the replicas from TPS / (1000 K) = -1 and returns the minimum, one
    replica; with the demand of the claim, arrivalRate / 60 / 1000 = 1 request
    per millisecond against a ceiling just below 1/2, the count would be
    three. *)
Theorem CreateAllocation_negative_TPS :
  match (core.CreateAllocation examples.MaxQueueToBatchRatio examples.Delta examples.StabilitySafetyFraction examples.SLOMargin Solve BinarySearch) sysNegTPS "Premium-g13b" "A100" with
  | Some a =>
      numReplicas a = 1 /\
      (maxArrvRatePerReplica a == 999 # 2000)%Q /\
      Z.max
        (intCeil (totalLambda_spec (mkTarget 0 0 (-1000)) (mkLoad 60000 1) 1
                  / maxArrvRatePerReplica a))
        (minNumReplicas (premiumServer (Some (mkLoad 60000 1)) 1)) = 3
  | None => False
  end.
Proof. vm_compute. repeat split. Qed.

(** C6: with a free accelerator ahead of a paid one in the iteration order,
    both feasible, [(core.ReAllocate examples.MaxQueueToBatchRatio examples.Delta examples.StabilitySafetyFraction examples.SLOMargin Solve BinarySearch)] returns the paid one: the value 0 of the
    first candidate is taken for "no minimum yet". *)
Theorem ReAllocate_skips_zero_value (a : Allocation) :
  match (core.CreateAllocation examples.MaxQueueToBatchRatio examples.Delta examples.StabilitySafetyFraction examples.SLOMargin Solve BinarySearch) sysFree "Premium-g13b" "free",
        (core.CreateAllocation examples.MaxQueueToBatchRatio examples.Delta examples.StabilitySafetyFraction examples.SLOMargin Solve BinarySearch) sysFree "Premium-g13b" "A100",
        (core.ReAllocate examples.MaxQueueToBatchRatio examples.Delta examples.StabilitySafetyFraction examples.SLOMargin Solve BinarySearch) sysFree a "Premium-g13b" with
  | Some aFree, Some aPaid, (Some aStar, gStar) =>
      (value aFree == 0)%Q /\ (value aPaid == 40)%Q /\
      aStar = aPaid /\ gStar = "A100" /\ (value aFree < value aStar)%Q
  | _, _, _ => False
  end.
Proof. vm_compute. repeat split. Qed.

End EvaluatorAtInputs.

(** C3 at a concrete system: the model has no performance data on the
    accelerator of the allocation. *)
Lemma Scale_infeasible_panics_at_sysNoPerf :
  core.GetServer examples.sysNoPerf "Premium-g13b"
    = Some (examples.premiumServer (Some examples.someLoad) 1) /\
  core.Load (examples.premiumServer (Some examples.someLoad) 1) = Some examples.someLoad /\
  core.GetAccelerator examples.sysNoPerf (core.accelerator examples.oneReplica)
    = Some examples.A100 /\
  core.CreateAllocation examples.MaxQueueToBatchRatio examples.Delta
    examples.StabilitySafetyFraction examples.SLOMargin examples.Solve
    examples.BinarySearch examples.sysNoPerf "Premium-g13b"
    (core.accelerator examples.oneReplica) = None /\
  core.Scale examples.MaxQueueToBatchRatio examples.Delta
    examples.StabilitySafetyFraction examples.SLOMargin examples.Solve
    examples.BinarySearch examples.sysNoPerf examples.oneReplica "Premium-g13b"
    = Panic NilDereference.
Proof.
  repeat (split; [reflexivity|]).
  apply (Scale_infeasible_panics examples.MaxQueueToBatchRatio examples.Delta
           examples.StabilitySafetyFraction examples.SLOMargin examples.Solve
           examples.BinarySearch examples.sysNoPerf examples.oneReplica
           "Premium-g13b" (examples.premiumServer (Some examples.someLoad) 1)
           examples.someLoad examples.A100); reflexivity.
Defined.

(** C8 at a concrete system: the service class of the server is not
    registered. *)
Lemma AdjustNumReplicas_nil_target_panics_at_sysNoClass :
  1 <= core.numReplicas examples.oneReplica /\
  1 <= core.batchSize examples.oneReplica /\
  core.GetServiceClass examples.sysNoClass "Premium" = None /\
  core.AdjustNumReplicas examples.MaxQueueToBatchRatio examples.Delta
    examples.StabilitySafetyFraction examples.SLOMargin examples.Solve
    examples.BinarySearch examples.sysNoClass examples.oneReplica 2
    (examples.premiumServer (Some examples.someLoad) 1) examples.granite
    = Panic NilDereference.
Proof.
  split; [discriminate|]. split; [discriminate|]. split; [reflexivity|].
  apply (AdjustNumReplicas_nil_target_panics examples.MaxQueueToBatchRatio
           examples.Delta examples.StabilitySafetyFraction examples.SLOMargin
           examples.Solve examples.BinarySearch examples.sysNoClass
           examples.oneReplica 2 (examples.premiumServer (Some examples.someLoad) 1)
           examples.granite examples.someLoad examples.perfA100);
    [discriminate|discriminate|reflexivity|reflexivity|exact I].
Defined.

Section SolverAtInputs.
Import core solver examples.
Local Open Scope string_scope.

(** C4, the claim as stated fails: the grant test of the procedure is
    [min(available[accType] / unitsPerReplica, finalAlloc.NumReplicas()) > 0]
    and does not read [ticket.numReplicas]. Handed a member whose only
    candidate asks for one replica while three units are available, the
    second visit grants a replica to a ticket that already holds as many as
    its candidate asks for, and the procedure gives the member three
    replicas. *)
Lemma processUnallocatedServerGroup_exceeds_candidate :
  numReplicas oneReplica = 1 /\
  match createTickets sysOne [entryOne] ∅ with
  | Ret tks =>
      match visit sysOne entryOne (mkRR tks ∅ threeUnits) with
      | Ret rr1 =>
          match visit sysOne entryOne rr1 with
          | Ret rr2 =>
              match tickets rr1 !! "Premium-g13b", tickets rr2 !! "Premium-g13b" with
              | Some tk, Some tk' =>
                  finalAlloc tk = Some oneReplica /\
                  ticket_numReplicas tk = 1 /\ ticket_numReplicas tk' = 2 /\
                  ~ (ticket_numReplicas tk < numReplicas oneReplica)
              | _, _ => False
              end
          | _ => False
          end
      | _ => False
      end
  | _ => False
  end /\
  match processUnallocatedServerGroup sysOne [entryOne] threeUnits with
  | Ret st =>
      match allocation st !! "Premium-g13b" with
      | Some a =>
          accelerator a = accelerator oneReplica /\ numReplicas a = 3 /\
          ~ (numReplicas a <= numReplicas oneReplica) /\
          avail st "A100" = 0
      | None => False
      end
  | _ => False
  end.
Proof.
  split; [reflexivity|]. split.
  - vm_compute. repeat split. discriminate.
  - vm_compute. repeat split. intros H. apply H. reflexivity.
Qed.

(** C5, the claim as stated fails: the candidate of the server is what
    [CreateAllocation] returns for it (two replicas, the minimum of the
    server), one unit is available, and under PriorityExhaustive the solve
    leaves the server with one replica. *)
Lemma SolveGreedy_below_minNumReplicas :
  match CreateAllocation examples.MaxQueueToBatchRatio examples.Delta
          examples.StabilitySafetyFraction examples.SLOMargin examples.Solve
          examples.BinarySearch sysTwoMin "Premium-g13b" "A100",
        GetServer sysTwoMin "Premium-g13b",
        SolveGreedy insertionSort sysTwoMin PriorityExhaustive ∅ with
  | Some c, Some srv, Ret st =>
      AllAllocations srv = [twoMin] /\
      accelerator c = accelerator twoMin /\ numReplicas c = numReplicas twoMin /\
      minNumReplicas srv = 2 /\
      match allocation st !! "Premium-g13b" with
      | Some a => numReplicas a = 1 /\ ~ (numReplicas a >= minNumReplicas srv)
      | None => False
      end
  | _, _, _ => False
  end.
Proof. vm_compute. repeat split. intros H. apply H. reflexivity. Qed.

End SolverAtInputs.

(** ** Facts about Go integers and the store *)

Section StoreFacts.
Import core solver.

Lemma wrap_inRange (z : Z) : GoInt.inRange (GoInt.wrap z).
Proof.
  unfold GoInt.inRange, GoInt.wrap, GoInt.MinInt, GoInt.MaxInt, GoInt.half, GoInt.modulus.
  pose proof (Z.mod_pos_bound (z + 2 ^ 63) (2 ^ 64) ltac:(lia)). lia.
Qed.

Lemma wrap_id (z : Z) : GoInt.inRange z -> GoInt.wrap z = z.
Proof.
  unfold GoInt.inRange, GoInt.wrap, GoInt.MinInt, GoInt.MaxInt, GoInt.half, GoInt.modulus.
  intros H. rewrite Z.mod_small; lia.
Qed.

Lemma MaxInt_pos : 0 < GoInt.MaxInt.
Proof. reflexivity. Qed.

Lemma MinInt_neg : GoInt.MinInt < 0.
Proof. reflexivity. Qed.

Lemma sub_exact (a b : Z) : 0 <= b <= a -> a <= GoInt.MaxInt -> GoInt.sub a b = a - b.
Proof.
  intros H1 H2. unfold GoInt.sub. apply wrap_id.
  pose proof MinInt_neg. unfold GoInt.inRange. lia.
Qed.

Lemma add_exact (a b : Z) :
  0 <= a -> 0 <= b -> a + b <= GoInt.MaxInt -> GoInt.add a b = a + b.
Proof.
  intros H1 H2 H3. unfold GoInt.add. apply wrap_id.
  pose proof MinInt_neg. unfold GoInt.inRange. lia.
Qed.

Lemma mul_exact (a b : Z) :
  0 <= a -> 0 <= b -> a * b <= GoInt.MaxInt -> GoInt.mul a b = a * b.
Proof.
  intros H1 H2 H3. unfold GoInt.mul. apply wrap_id.
  pose proof MinInt_neg. unfold GoInt.inRange. nia.
Qed.

(** Integer division of a non-negative int by a positive one does not
    wrap. *)
Lemma quot_exact (a b : Z) :
  0 <= a <= GoInt.MaxInt -> 0 < b -> GoInt.quot a b = a / b.
Proof.
  intros Ha Hb. unfold GoInt.quot. rewrite Z.quot_div_nonneg by lia.
  apply wrap_id. pose proof MinInt_neg. unfold GoInt.inRange.
  pose proof (Z.div_pos a b ltac:(lia) Hb).
  pose proof (Z.div_le_upper_bound a b a Hb ltac:(nia)). lia.
Qed.

Lemma avail_deduct (t t' : string) (c : Z) (st : store) :
  avail (deduct t c st) t' =
    if decide (t = t') then GoInt.sub (avail st t) c else avail st t'.
Proof.
  unfold avail at 1, deduct. cbn [available].
  destruct (decide (t = t')) as [->|Hne].
  - now rewrite lookup_insert_eq.
  - now rewrite lookup_insert_ne.
Qed.

Lemma avail_SetAllocation (n : string) (a : Allocation) (st : store) (t : string) :
  avail (SetAllocation n a st) t = avail st t.
Proof. reflexivity. Qed.

Lemma allocation_deduct (t : string) (c : Z) (st : store) :
  allocation (deduct t c st) = allocation st.
Proof. reflexivity. Qed.

(** [slices.Insert] puts the new element somewhere into the slice. *)
Lemma Insert_Permutation {E} (s : list E) (i : nat) (v : E) :
  Permutation (Insert s i v) (v :: s).
Proof.
  unfold Insert. rewrite <- Permutation_middle.
  now rewrite take_drop.
Qed.

(** The index found by the binary search lies within the slice. *)
Lemma binarySearchLoop_bound {E T} (fuel : nat) (x : list E) (target : T)
    (cmp : E -> T -> comparison) (i j : nat) :
  (i <= j)%nat -> (binarySearchLoop fuel x target cmp i j <= j)%nat.
Proof.
  revert i j. induction fuel as [|fuel IH]; intros i j Hij; cbn [binarySearchLoop]; [lia|].
  destruct (Nat.ltb_spec i j) as [Hlt|]; [|lia].
  assert (Hh : (i <= (i + j) / 2 < j)%nat).
  { split.
    - apply Nat.div_le_lower_bound; lia.
    - apply Nat.Div0.div_lt_upper_bound; lia. }
  destruct (x !! ((i + j) / 2)%nat) as [xh|]; [|lia].
  destruct (cmp xh target).
  - etransitivity; [apply IH|]; lia.
  - apply IH. lia.
  - etransitivity; [apply IH|]; lia.
Qed.

Lemma BinarySearchFunc_bound {E T} (x : list E) (target : T)
    (cmp : E -> T -> comparison) :
  (BinarySearchFunc x target cmp <= length x)%nat.
Proof. apply binarySearchLoop_bound. lia. Qed.

End StoreFacts.

(** ** The main loop of [SolveGreedy] *)

Section MainLoop.
Import core solver.

Variable sys : System.

(** A property of the loop state that every kind of round preserves holds
    when the loop returns. The rounds: the top entry is dropped; its current
    candidate is assigned; its current candidate is refused, and it either
    moves on to its next candidate and goes back into the list, or has no
    candidate left and joins the unallocated servers. *)
Lemma greedyLoop_invariant_refusing
    (P : list serverEntry -> list serverEntry -> store -> Prop) :
  (forall top es un st, P (top :: es) un st -> P es un st) ->
  (forall top es un st srv mdl alloc acc,
     P (top :: es) un st ->
     GetServer sys (serverName top) = Some srv ->
     GetModel sys (ModelName srv) = Some mdl ->
     allocations top !! curIndex top = Some alloc ->
     GetAccelerator sys (accelerator alloc) = Some acc ->
     unitCount mdl acc alloc <= avail st (acc_Type acc) ->
     P es un (SetAllocation (serverName top) alloc
                (deduct (acc_Type acc) (unitCount mdl acc alloc) st))) ->
  (forall top es un st srv mdl alloc acc k d,
     P (top :: es) un st ->
     GetServer sys (serverName top) = Some srv ->
     GetModel sys (ModelName srv) = Some mdl ->
     allocations top !! curIndex top = Some alloc ->
     GetAccelerator sys (accelerator alloc) = Some acc ->
     avail st (acc_Type acc) < unitCount mdl acc alloc ->
     (S (curIndex top) < length (allocations top))%nat ->
     (k <= length es)%nat ->
     P (Insert es k (setCurIndexDelta top (S (curIndex top)) d)) un st) ->
  (forall top es un st srv mdl alloc acc,
     P (top :: es) un st ->
     GetServer sys (serverName top) = Some srv ->
     GetModel sys (ModelName srv) = Some mdl ->
     allocations top !! curIndex top = Some alloc ->
     GetAccelerator sys (accelerator alloc) = Some acc ->
     avail st (acc_Type acc) < unitCount mdl acc alloc ->
     S (curIndex top) = length (allocations top) ->
     P es (un ++ [setCurIndexDelta top (S (curIndex top)) (delta top)]) st) ->
  forall fuel es un st un' st',
    P es un st ->
    greedyLoop sys fuel es un st = Ret (un', st') ->
    P [] un' st'.
Proof.
  intros Hdrop Hassign Hnext Hout.
  induction fuel as [|fuel IH]; intros es un st un' st' HP Hrun; [discriminate Hrun|].
  cbn [greedyLoop] in Hrun.
  destruct es as [|top es].
  { injection Hrun as <- <-. exact HP. }
  destruct (length (allocations top) =? 0)%nat; [eauto|].
  destruct (GetServer sys (serverName top)) as [srv|] eqn:Es; [|eauto].
  destruct (GetModel sys (ModelName srv)) as [mdl|] eqn:Em; [|eauto].
  destruct (allocations top !! curIndex top) as [alloc|] eqn:Ea; [|discriminate Hrun].
  destruct (GetAccelerator sys (accelerator alloc)) as [acc|] eqn:Eg;
    [|discriminate Hrun].
  cbn [deref bind] in Hrun.
  destruct (Z.geb_spec (avail st (acc_Type acc)) (unitCount mdl acc alloc)) as [Hge|Hlt].
  - eapply IH; [|exact Hrun]. eapply Hassign; eauto; lia.
  - pose proof (lookup_lt_Some _ _ _ Ea) as Hi.
    destruct (Nat.ltb_spec (S (curIndex top) + 1) (length (allocations top))).
    + eapply IH; [|exact Hrun]. eapply Hnext; eauto; [lia|].
      apply BinarySearchFunc_bound.
    + destruct (Nat.eqb_spec (S (curIndex top)) (length (allocations top))).
      * eapply IH; [|exact Hrun]. eapply Hout; eauto.
      * eapply IH; [|exact Hrun]. eapply Hnext; eauto; [lia|].
        apply BinarySearchFunc_bound.
Qed.

(** The same, for properties that do not depend on why an entry moves on. *)
Lemma greedyLoop_invariant
    (P : list serverEntry -> list serverEntry -> store -> Prop) :
  (forall top es un st, P (top :: es) un st -> P es un st) ->
  (forall top es un st srv mdl alloc acc,
     P (top :: es) un st ->
     GetServer sys (serverName top) = Some srv ->
     GetModel sys (ModelName srv) = Some mdl ->
     allocations top !! curIndex top = Some alloc ->
     GetAccelerator sys (accelerator alloc) = Some acc ->
     unitCount mdl acc alloc <= avail st (acc_Type acc) ->
     P es un (SetAllocation (serverName top) alloc
                (deduct (acc_Type acc) (unitCount mdl acc alloc) st))) ->
  (forall top es un st k d,
     P (top :: es) un st ->
     (S (curIndex top) < length (allocations top))%nat ->
     (k <= length es)%nat ->
     P (Insert es k (setCurIndexDelta top (S (curIndex top)) d)) un st) ->
  (forall top es un st,
     P (top :: es) un st ->
     S (curIndex top) = length (allocations top) ->
     P es (un ++ [setCurIndexDelta top (S (curIndex top)) (delta top)]) st) ->
  forall fuel es un st un' st',
    P es un st ->
    greedyLoop sys fuel es un st = Ret (un', st') ->
    P [] un' st'.
Proof.
  intros Hdrop Hassign Hnext Hout.
  apply greedyLoop_invariant_refusing; [exact Hdrop|exact Hassign| |].
  - intros top es un st _ _ _ _ k d HP _ _ _ _ _. now apply Hnext.
  - intros top es un st _ _ _ _ HP _ _ _ _ _. now apply Hout.
Qed.

End MainLoop.

Section RegistryFacts.
Import core solver props.

Lemma assoc_Some_elem {A} (l : list (string * A)) (k : string) (v : A) :
  assoc l k = Some v -> (k, v) ∈ l.
Proof.
  induction l as [|[k' v'] l IH]; cbn [assoc]; [discriminate|].
  destruct (String.eqb_spec k k') as [->|Hne].
  - intros [= ->]. left.
  - intros H. right. auto.
Qed.

Lemma assoc_None {A} (l : list (string * A)) (k : string) :
  assoc l k = None <-> k ∉ l.*1.
Proof.
  induction l as [|[k' v'] l IH]; cbn [assoc fmap list_fmap fst].
  - split; [intros _ H; inversion H|reflexivity].
  - rewrite not_elem_of_cons. destruct (String.eqb_spec k k') as [->|Hne].
    + split; [discriminate|intros [H _]; contradiction].
    + rewrite IH. tauto.
Qed.

Lemma assoc_NoDup {A} (l : list (string * A)) (k : string) (v : A) :
  NoDup l.*1 -> (k, v) ∈ l -> assoc l k = Some v.
Proof.
  induction l as [|[k' v'] l IH]; cbn [assoc fmap list_fmap fst]; intros Hnd Hin.
  - inversion Hin.
  - apply NoDup_cons in Hnd as [Hk' Hnd]. apply elem_of_cons in Hin as [[= -> ->]|Hin].
    + now rewrite String.eqb_refl.
    + destruct (String.eqb_spec k k') as [->|Hne]; [|auto].
      exfalso. apply Hk'. apply list_elem_of_fmap. now exists (k', v).
Qed.

Lemma sumZ_cons {A} (f : A -> Z) (x : A) (l : list A) :
  sumZ f (x :: l) = f x + sumZ f l.
Proof. reflexivity. Qed.

Lemma sumZ_Permutation {A} (f : A -> Z) (l l' : list A) :
  Permutation l l' -> sumZ f l = sumZ f l'.
Proof.
  induction 1; rewrite ?sumZ_cons; lia.
Qed.

Lemma sumZ_zero {A} (f : A -> Z) (l : list A) :
  (forall x, x ∈ l -> f x = 0) -> sumZ f l = 0.
Proof.
  induction l as [|x l IH]; intros H; [reflexivity|].
  rewrite sumZ_cons, H by left. rewrite IH; [reflexivity|].
  intros y Hy. apply H. now right.
Qed.

Lemma sumZ_nonneg {A} (f : A -> Z) (l : list A) :
  (forall x, x ∈ l -> 0 <= f x) -> 0 <= sumZ f l.
Proof.
  induction l as [|x l IH]; intros H; [reflexivity|].
  rewrite sumZ_cons. pose proof (H x ltac:(left)).
  assert (0 <= sumZ f l) by (apply IH; intros y Hy; apply H; now right). lia.
Qed.

Variable sys : System.

(** Filling an empty slot adds the units of the new allocation. *)
Lemma allocatedUnits_SetAllocation (name : string) (a : Allocation) (st : store)
    (t : string) :
  allocation st !! name = None ->
  allocatedUnits sys (SetAllocation name a st) t =
    allocUnits sys t (name, a) + allocatedUnits sys st t.
Proof.
  intros Hfresh. unfold allocatedUnits, SetAllocation. cbn [allocation].
  now rewrite (sumZ_Permutation _ _ _ (map_to_list_insert _ _ a Hfresh)).
Qed.

Lemma allocatedUnits_deduct (t' : string) (c : Z) (st : store) (t : string) :
  allocatedUnits sys (deduct t' c st) t = allocatedUnits sys st t.
Proof. reflexivity. Qed.

End RegistryFacts.

(** ** The main pass keeps its invariants *)

Section MainPassFacts.
Import core solver props.

Variable sys : System.

Lemma slotInv_Permutation (es es' un : list serverEntry) (st : store) :
  Permutation es es' -> slotInv sys es un st -> slotInv sys es' un st.
Proof.
  intros Hp [H1 H2 H3]. split; auto.
  - now rewrite <- Hp.
  - intros e He. apply H2. now rewrite Hp.
Qed.

Lemma slotInv_drop (top : serverEntry) (es un : list serverEntry) (st : store) :
  slotInv sys (top :: es) un st -> slotInv sys es un st.
Proof.
  intros [H1 H2 H3]. split; auto.
  - cbn in H1. now apply NoDup_cons in H1 as [_ H1].
  - intros e He. apply H2. now right.
Qed.

Lemma slotInv_setCurIndexDelta (top : serverEntry) (es un : list serverEntry)
    (st : store) (i : nat) (d : Q) :
  slotInv sys (top :: es) un st ->
  slotInv sys (setCurIndexDelta top i d :: es) un st.
Proof.
  intros [H1 H2 H3]. split; auto.
  intros e [->|He]%elem_of_cons.
  - apply (H2 top). left.
  - apply H2. now right.
Qed.

Lemma slotInv_next (top : serverEntry) (es un : list serverEntry) (st : store)
    (k i : nat) (d : Q) :
  slotInv sys (top :: es) un st ->
  slotInv sys (Insert es k (setCurIndexDelta top i d)) un st.
Proof.
  intros H. eapply slotInv_Permutation.
  - symmetry. apply Insert_Permutation.
  - now apply slotInv_setCurIndexDelta.
Qed.

Lemma slotInv_out (top : serverEntry) (es un : list serverEntry) (st : store)
    (i : nat) (d : Q) :
  slotInv sys (top :: es) un st ->
  slotInv sys es (un ++ [setCurIndexDelta top i d]) st.
Proof.
  intros H. apply (slotInv_setCurIndexDelta _ _ _ _ i d) in H.
  destruct H as [H1 H2 H3].
  assert (Hp : Permutation (es ++ un ++ [setCurIndexDelta top i d])
                 ((setCurIndexDelta top i d :: es) ++ un)).
  { cbn. rewrite (Permutation_app_comm un), Permutation_middle.
    cbn. reflexivity. }
  split; auto.
  - now rewrite Hp.
  - intros e He. apply H2. now rewrite <- Hp.
Qed.

(** Filling the slot of a server that is in neither list any more. *)
Lemma slotInv_SetAllocation (es un : list serverEntry) (st : store) (name : string)
    (a : Allocation) :
  slotInv sys es un st ->
  name ∉ serverName <$> (es ++ un) ->
  (forall srv, GetServer sys name = Some srv -> a ∈ AllAllocations srv) ->
  slotInv sys es un (SetAllocation name a st).
Proof.
  intros [H1 H2 H3] Hnew Ha. split.
  - exact H1.
  - intros e He. destruct (H2 e He) as [Hn Hof]. split; [|exact Hof].
    cbn [SetAllocation allocation]. rewrite lookup_insert_ne; [exact Hn|].
    intros Heq. apply Hnew. rewrite Heq. now apply list_elem_of_fmap_2.
  - intros name' a' srv. cbn [SetAllocation allocation].
    destruct (decide (name = name')) as [<-|Hne].
    + rewrite lookup_insert_eq. intros [= <-]. apply Ha.
    + rewrite lookup_insert_ne by exact Hne. apply H3.
Qed.

Lemma slotInv_deduct (es un : list serverEntry) (st : store) (t : string) (c : Z) :
  slotInv sys es un st -> slotInv sys es un (deduct t c st).
Proof. intros [H1 H2 H3]. split; auto. Qed.

Lemma slotInv_assign (top : serverEntry) (es un : list serverEntry) (st : store)
    (alloc : Allocation) (t : string) (c : Z) :
  slotInv sys (top :: es) un st ->
  allocations top !! curIndex top = Some alloc ->
  slotInv sys es un (SetAllocation (serverName top) alloc (deduct t c st)).
Proof.
  intros H Ea.
  destruct (inv_entries _ _ _ _ H top ltac:(left)) as [_ (srv & Es & Hsub)].
  pose proof (inv_names _ _ _ _ H) as Hnd. cbn in Hnd.
  apply NoDup_cons in Hnd as [Hnew _].
  apply slotInv_SetAllocation; [|exact Hnew|].
  - apply slotInv_deduct. eapply slotInv_drop. exact H.
  - intros srv' Es'. rewrite Es in Es'. injection Es' as <-.
    apply Hsub. eapply list_elem_of_lookup_2. exact Ea.
Qed.

(** The main loop, started in a state that satisfies the invariant on the
    slots, ends in one. *)
Lemma greedyLoop_slotInv (fuel : nat) (es un un' : list serverEntry) (st st' : store) :
  slotInv sys es un st ->
  greedyLoop sys fuel es un st = Ret (un', st') ->
  slotInv sys [] un' st'.
Proof.
  apply (greedyLoop_invariant sys (slotInv sys)).
  - apply slotInv_drop.
  - intros. eapply slotInv_assign; eauto.
  - intros. now apply slotInv_next.
  - intros. now apply slotInv_out.
Qed.

(** Deducting a covered, non-negative count for an allocation that goes into
    an empty slot keeps the units in balance. *)
Lemma unitInv_assign (st : store) (name : string) (srv : Server) (mdl : Model)
    (alloc : Allocation) (acc : Accelerator) :
  unitInv sys st ->
  allocation st !! name = None ->
  GetServer sys name = Some srv ->
  GetModel sys (ModelName srv) = Some mdl ->
  GetAccelerator sys (accelerator alloc) = Some acc ->
  0 <= unitCount mdl acc alloc <= avail st (acc_Type acc) ->
  unitInv sys
    (SetAllocation name alloc (deduct (acc_Type acc) (unitCount mdl acc alloc) st)).
Proof.
  intros [H4 H6 H5] Hfresh Es Em Eg Hc. split.
  - intros t. rewrite avail_SetAllocation, avail_deduct.
    destruct (decide (acc_Type acc = t)) as [<-|]; [|apply H4].
    specialize (H4 (acc_Type acc)). rewrite sub_exact by lia. lia.
  - intros t. rewrite allocatedUnits_SetAllocation by exact Hfresh.
    rewrite allocatedUnits_deduct. cbn [allocUnits]. rewrite Es, Em, Eg.
    specialize (H6 t). destruct (decide (acc_Type acc = t)); lia.
  - intros t. rewrite allocatedUnits_SetAllocation by exact Hfresh.
    rewrite allocatedUnits_deduct, avail_SetAllocation, avail_deduct.
    cbn [allocUnits]. rewrite Es, Em, Eg.
    specialize (H5 t). specialize (H4 (acc_Type acc)).
    destruct (decide (acc_Type acc = t)) as [<-|]; [|lia].
    rewrite sub_exact by lia. lia.
Qed.

Hypothesis Hcounts : countsValid sys.

(** The main loop keeps the units in balance. *)
Lemma greedyLoop_unitInv (fuel : nat) (es un un' : list serverEntry) (st st' : store) :
  slotInv sys es un st -> unitInv sys st ->
  greedyLoop sys fuel es un st = Ret (un', st') ->
  slotInv sys [] un' st' /\ unitInv sys st'.
Proof.
  intros Hs Hu.
  apply (greedyLoop_invariant sys
           (fun es un st => slotInv sys es un st /\ unitInv sys st)); [| | | |auto].
  - intros top es0 un0 st0 [H1 H2]. split; [|exact H2]. eapply slotInv_drop; eauto.
  - intros top es0 un0 st0 srv mdl alloc acc [H1 H2] Es Em Ea Eg Hle.
    split; [eapply slotInv_assign; eauto|].
    destruct (inv_entries _ _ _ _ H1 top ltac:(left)) as [Hfresh (srv' & Es' & Hsub)].
    rewrite Es in Es'. injection Es' as <-.
    eapply unitInv_assign; eauto. split; [|exact Hle].
    eapply Hcounts; eauto. apply Hsub. eapply list_elem_of_lookup_2. exact Ea.
  - intros top es0 un0 st0 k d [H1 H2] _ _. split; [|exact H2]. now apply slotInv_next.
  - intros top es0 un0 st0 [H1 H2] _. split; [|exact H2]. now apply slotInv_out.
Qed.

End MainPassFacts.

Section BuildEntriesFacts.
Import core solver props.

Variable SortFunc : forall E : Type, (E -> E -> comparison) -> list E -> list E.
Variable sys : System.
Hypothesis Hsort : sortPermutes SortFunc.

(** The first loop of [SolveGreedy] empties the slot of every registered
    server and appends the entries of those that have candidates. *)
Lemma buildEntries_eq (servers : list (string * Server)) (pre : list serverEntry)
    (st : store) :
  buildEntries SortFunc servers pre st =
    (pre ++ omap (fun p => newEntry SortFunc p.1 p.2) servers,
     mkStore (available st) (foldl (fun m p => delete p.1 m) (allocation st) servers)).
Proof.
  revert pre st. induction servers as [|[name srv] servers IH]; intros pre st.
  - cbn. rewrite app_nil_r. now destruct st.
  - cbn [buildEntries omap list_omap foldl fst snd].
    destruct (newEntry SortFunc name srv) as [e|]; rewrite IH; cbn.
    + now rewrite <- app_assoc.
    + reflexivity.
Qed.

Lemma lookup_foldl_delete {A B} (servers : list (string * B)) (m : gmap string A)
    (n : string) :
  foldl (fun m p => delete p.1 m) m servers !! n =
    if decide (n ∈ servers.*1) then None else m !! n.
Proof.
  revert m. induction servers as [|[k v] servers IH]; intros m; cbn [foldl fmap list_fmap fst].
  - destruct (decide (n ∈ [])) as [H|]; [inversion H|reflexivity].
  - rewrite IH. destruct (decide (n ∈ servers.*1)) as [Hin|Hnin].
    + rewrite decide_True; [reflexivity|now right].
    + destruct (decide (k = n)) as [->|Hne].
      * rewrite lookup_delete_eq. rewrite decide_True; [reflexivity|left].
      * rewrite lookup_delete_ne by exact Hne. rewrite decide_False; [reflexivity|].
        intros [->|H]%elem_of_cons; contradiction.
Qed.

Lemma newEntry_Some (name : string) (srv : Server) (e : serverEntry) :
  newEntry SortFunc name srv = Some e ->
  serverName e = name /\ curIndex e = O /\ AllAllocations srv <> [] /\
  Permutation (allocations e) (AllAllocations srv).
Proof.
  unfold newEntry. destruct (AllAllocations srv) as [|a l] eqn:E; [discriminate|].
  cbn [length Nat.eqb]. intros [= <-]. cbn. repeat split; [discriminate|apply Hsort].
Qed.

Lemma newEntry_names (servers : list (string * Server)) :
  NoDup servers.*1 ->
  NoDup (serverName <$> omap (fun p => newEntry SortFunc p.1 p.2) servers).
Proof.
  induction servers as [|[name srv] servers IH]; cbn [omap list_omap fmap list_fmap fst snd];
    intros Hnd; [constructor|].
  apply NoDup_cons in Hnd as [Hname Hnd].
  destruct (newEntry SortFunc name srv) as [e|] eqn:E; [|auto].
  cbn [fmap list_fmap]. apply NoDup_cons. split; [|auto].
  apply newEntry_Some in E as (-> & _).
  intros (e' & He' & ((name', srv') & Hin & E')%list_elem_of_omap)%list_elem_of_fmap.
  apply newEntry_Some in E' as (E' & _). cbn in E'. subst name'.
  apply Hname. rewrite He'. apply list_elem_of_fmap. now exists (serverName e', srv').
Qed.

Hypothesis Hdistinct : serversDistinct sys.

(** The state in which the main loop starts. *)
Lemma buildEntries_slotInv (previous : gmap string Allocation) :
  let '(es, st) :=
    buildEntries SortFunc (GetServers sys) [] (mkStore (GetCapacities sys) previous) in
  slotInv sys es [] st /\
  available st = GetCapacities sys /\
  forall name a, allocation st !! name = Some a -> GetServer sys name = None.
Proof.
  rewrite buildEntries_eq. cbn [app available allocation].
  set (m := foldl _ _ _).
  assert (Hm : forall n, m !! n = if decide (n ∈ (GetServers sys).*1) then None
                                  else previous !! n) by apply lookup_foldl_delete.
  assert (Hreg : forall name a, m !! name = Some a -> GetServer sys name = None).
  { intros name a. rewrite Hm. destruct (decide (name ∈ (GetServers sys).*1)) as [|Hn].
    - discriminate.
    - intros _. now apply assoc_None. }
  split; [|split; [reflexivity|exact Hreg]]. split.
  - rewrite app_nil_r. now apply newEntry_names.
  - intros e. rewrite app_nil_r.
    intros ((name, srv) & Hin & E)%list_elem_of_omap. cbn in E.
    apply newEntry_Some in E as (<- & _ & _ & Hp). split.
    + cbn [allocation]. rewrite Hm, decide_True; [reflexivity|].
      apply list_elem_of_fmap. now exists (serverName e, srv).
    + exists srv. split; [now apply assoc_NoDup|].
      intros a Ha. now rewrite <- Hp.
  - intros name a srv. cbn [allocation]. intros Hl Hs.
    apply Hreg in Hl. congruence.
Qed.

(** The main pass ends in a state that satisfies the invariant on the
    slots. *)
Lemma mainPass_slotInv (previous : gmap string Allocation) (un : list serverEntry)
    (st : store) :
  mainPass SortFunc sys previous = Ret (un, st) -> slotInv sys [] un st.
Proof.
  unfold mainPass. pose proof (buildEntries_slotInv previous) as H.
  destruct (buildEntries _ _ _ _) as [es st1]. destruct H as (H & _ & _).
  intros Hrun. eapply greedyLoop_slotInv; [|exact Hrun].
  eapply slotInv_Permutation; [symmetry; apply Hsort|exact H].
Qed.

Hypothesis Hcap : capacitiesValid sys.
Hypothesis Hcounts : countsValid sys.

(** The main pass ends with the units in balance. *)
Lemma mainPass_unitInv (previous : gmap string Allocation) (un : list serverEntry)
    (st : store) :
  mainPass SortFunc sys previous = Ret (un, st) ->
  slotInv sys [] un st /\ unitInv sys st.
Proof.
  unfold mainPass. pose proof (buildEntries_slotInv previous) as H.
  destruct (buildEntries _ _ _ _) as [es st1]. destruct H as (H & Hav & Hreg).
  intros Hrun. eapply greedyLoop_unitInv; [exact Hcounts| | |exact Hrun].
  - eapply slotInv_Permutation; [symmetry; apply Hsort|exact H].
  - split.
    + intros t. unfold avail. rewrite Hav.
      destruct (GetCapacities sys !! t) as [c|] eqn:E; cbn [default].
      * eapply Hcap; eauto.
      * pose proof MaxInt_pos. lia.
    + intros t. unfold allocatedUnits. rewrite sumZ_zero; [reflexivity|].
      intros [name a] Hin%elem_of_map_to_list. cbn [allocUnits].
      now rewrite (Hreg _ _ Hin).
    + intros t. unfold allocatedUnits, capacity, avail. rewrite Hav.
      rewrite sumZ_zero; [reflexivity|].
      intros [name a] Hin%elem_of_map_to_list. cbn [allocUnits].
      now rewrite (Hreg _ _ Hin).
Qed.

End BuildEntriesFacts.

(** ** Solves under saturation policy None *)

Section PolicyNoneFacts.
Import core solver props.

Variable SortFunc : forall E : Type, (E -> E -> comparison) -> list E -> list E.
Variable sys : System.

Lemma SetAllocation_deduct_behind (m0 : gmap string Allocation) (st : store)
    (name : string) (a : Allocation) (t : string) (c : Z) :
  SetAllocation name a (deduct t c (behind m0 st)) =
  behind m0 (SetAllocation name a (deduct t c st)).
Proof.
  unfold SetAllocation, deduct, behind, avail. cbn [available allocation].
  now rewrite insert_union_l.
Qed.

(** The main loop never reads a slot: slots that lie behind those of the
    store stay behind those of the result. *)
Lemma greedyLoop_behind (m0 : gmap string Allocation) (fuel : nat)
    (es un : list serverEntry) (st : store) :
  greedyLoop sys fuel es un (behind m0 st) =
  onStore (behind m0) (greedyLoop sys fuel es un st).
Proof.
  revert es un st. induction fuel as [|fuel IH]; intros es un st; [reflexivity|].
  cbn [greedyLoop]. destruct es as [|top es]; [reflexivity|].
  destruct (length (allocations top) =? 0)%nat; [apply IH|].
  destruct (GetServer sys (serverName top)) as [srv|]; [|apply IH].
  destruct (GetModel sys (ModelName srv)) as [mdl|]; [|apply IH].
  destruct (allocations top !! curIndex top) as [alloc|]; [|reflexivity].
  destruct (GetAccelerator sys (accelerator alloc)) as [acc|]; [|reflexivity].
  cbn [deref bind]. change (avail (behind m0 st)) with (avail st).
  destruct (avail st (acc_Type acc) >=? unitCount mdl acc alloc).
  - rewrite SetAllocation_deduct_behind. apply IH.
  - destruct (S (curIndex top) + 1 <? length (allocations top))%nat; [apply IH|].
    destruct (S (curIndex top) =? length (allocations top))%nat; apply IH.
Qed.

(** A solve started from slots [previous] is the solve started from empty
    slots, with the slots of [previous] that belong to no registered server
    left behind it. *)
Lemma mainPass_previous (previous : gmap string Allocation) :
  exists m0 : gmap string Allocation,
    (forall name srv, GetServer sys name = Some srv -> m0 !! name = None) /\
    mainPass SortFunc sys previous = onStore (behind m0) (mainPass SortFunc sys ∅).
Proof.
  exists (foldl (fun m p => delete p.1 m) previous (GetServers sys)). split.
  - intros name srv Hs. rewrite lookup_foldl_delete, decide_True; [reflexivity|].
    apply assoc_Some_elem in Hs. apply list_elem_of_fmap. now exists (name, srv).
  - unfold mainPass. rewrite !buildEntries_eq. cbn [app available allocation].
    rewrite <- greedyLoop_behind. f_equal. unfold behind. cbn [available allocation].
    f_equal. apply map_eq. intros n.
    rewrite lookup_union_r; [reflexivity|].
    rewrite lookup_foldl_delete, lookup_empty. now destruct (decide _).
Qed.

(** Servers join the unallocated list only when their candidates are
    exhausted. *)
Lemma greedyLoop_unallocated (fuel : nat) (es un un' : list serverEntry) (st st' : store) :
  (forall e, e ∈ un -> curIndex e = length (allocations e)) ->
  greedyLoop sys fuel es un st = Ret (un', st') ->
  forall e, e ∈ un' -> curIndex e = length (allocations e).
Proof.
  apply (greedyLoop_invariant sys
           (fun _ un _ => forall e, e ∈ un -> curIndex e = length (allocations e)));
    auto.
  intros top es0 un0 st0 H Hlen e [He| ->%list_elem_of_singleton]%elem_of_app; auto.
Qed.

End PolicyNoneFacts.

Section SortInstance.
Import examples props.

Lemma insertSorted_Permutation {E} (cmp : E -> E -> comparison) (x : E) (l : list E) :
  Permutation (insertSorted cmp x l) (x :: l).
Proof.
  induction l as [|y l IH]; cbn [insertSorted]; [reflexivity|].
  destruct (cmp x y); try reflexivity.
  rewrite IH. apply perm_swap.
Qed.

Lemma insertionSort_Permutation : sortPermutes insertionSort.
Proof.
  intros E cmp l. unfold insertionSort.
  induction l as [|x l IH]; cbn [foldr]; [reflexivity|].
  now rewrite insertSorted_Permutation, IH.
Qed.

End SortInstance.

Section EvaluatorMinimum.
Import core.

(** Every allocation that [CreateAllocation] returns has at least the
    minimum number of replicas of its server. *)
Lemma CreateAllocation_minNumReplicas (MaxQueueToBatchRatio : Z)
    (Delta StabilitySafetyFraction SLOMargin : Q)
    (Solve : MM1ModelStateDependent -> Q -> QueueStats)
    (BinarySearch : Q -> Q -> Q -> (Q -> option Q) -> Q * Z * bool)
    (sys : System) (serverName gName : string) (srv : Server) (a : Allocation) :
  CreateAllocation MaxQueueToBatchRatio Delta StabilitySafetyFraction SLOMargin
    Solve BinarySearch sys serverName gName = Some a ->
  GetServer sys serverName = Some srv ->
  minNumReplicas srv <= numReplicas a.
Proof.
  intros Hc Hs.
  destruct (CreateAllocation_Some_inv _ _ _ _ _ _ _ _ _ _ Hc)
    as (acc & srv' & ld & mdl & perf & svc & target & _ & Hs' & _ & _ & _ & _ & _ & _ & Ha).
  rewrite Hs in Hs'. injection Hs' as <-.
  destruct (Qeqb (ArrivalRate ld) 0 || (AvgLength ld =? 0)).
  - injection Ha as <-. cbn. lia.
  - apply positiveLoadAllocation_numReplicas in Ha.
    destruct Ha as (_ & _ & _ & _ & _ & ->). lia.
Qed.

End EvaluatorMinimum.

Section PolicyNoneAtInputs.
Import core solver props examples.
Local Open Scope string_scope.

Lemma serversDistinct_sysTwoMin : serversDistinct sysTwoMin.
Proof. apply NoDup_singleton. Qed.

Lemma serversDistinct_sysFits : serversDistinct sysFits.
Proof. apply NoDup_singleton. Qed.

End PolicyNoneAtInputs.

(** ** The saturation procedures keep the units in balance *)

Section ExhaustiveFacts.
Import core solver props.

Variable sys : System.

Lemma capacity_bound : capacitiesValid sys -> forall t, capacity sys t <= GoInt.MaxInt.
Proof.
  intros Hcap t. unfold capacity.
  destruct (GetCapacities sys !! t) as [c|] eqn:E; cbn [default].
  - eapply Hcap; eauto.
  - pose proof MaxInt_pos. lia.
Qed.

(** What fits: with [a] units available and [u > 0] units per replica, a
    positive [min(a / u, n)] replicas take no more than [a] units. *)
Lemma fitting_replicas (a u n : Z) :
  0 <= a <= GoInt.MaxInt -> 0 < u ->
  0 < Z.min (GoInt.quot a u) n ->
  0 <= Z.min (GoInt.quot a u) n * u <= a /\
  GoInt.mul (Z.min (GoInt.quot a u) n) u = Z.min (GoInt.quot a u) n * u.
Proof.
  intros Ha Hu Hk. rewrite quot_exact in * by assumption.
  pose proof (Z.mul_div_le a u Hu).
  assert (Z.min (a / u) n * u <= a) by nia.
  split; [nia|]. apply mul_exact; lia.
Qed.

(** One server served by [processUnallocatedServers]: either nothing changes,
    or its slot is filled and the units of the replicas it gets are deducted. *)
Lemma exhaustEntry_unitInv (e : serverEntry) (allocs : list Allocation) (st st' : store) :
  unitInv sys st ->
  allocation st !! serverName e = None ->
  exhaustEntry sys e allocs st = Ret st' ->
  unitInv sys st' /\
  forall n, n <> serverName e -> allocation st' !! n = allocation st !! n.
Proof.
  intros Hu Hfresh. induction allocs as [|alloc allocs IH]; cbn [exhaustEntry].
  { intros [= <-]. auto. }
  destruct (GetServer sys (serverName e)) as [srv|] eqn:Es; [|discriminate].
  cbn [deref bind].
  destruct (GetAccelerator sys (accelerator alloc)) as [acc|] eqn:Eg; [|exact IH].
  destruct (GetModel sys (ModelName srv)) as [mdl|] eqn:Em; [|exact IH].
  destruct (Z.gtb_spec (unitsPerReplicaOf mdl acc (accelerator alloc)) 0) as [Hupr|];
    [|exact IH].
  set (k := Z.min _ _).
  destruct (Z.gtb_spec k 0) as [Hk|]; [|exact IH].
  intros [= <-].
  pose proof (inv_available _ _ Hu (acc_Type acc)) as Hav.
  assert (Hk' : 0 < k) by lia.
  destruct (fitting_replicas _ _ (numReplicas alloc) Hav Hupr Hk') as [Hfit Hmul].
  fold k in Hfit, Hmul.
  set (alloc' := SetNumReplicas k _).
  change (deduct ?t ?c (SetAllocation ?n ?a st)) with (SetAllocation n a (deduct t c st)).
  split.
  - change (GoInt.mul k (unitsPerReplicaOf mdl acc (accelerator alloc)))
      with (unitCount mdl acc alloc').
    apply (unitInv_assign sys st (serverName e) srv mdl alloc' acc); auto.
    change (unitCount mdl acc alloc')
      with (GoInt.mul k (unitsPerReplicaOf mdl acc (accelerator alloc))).
    rewrite Hmul. exact Hfit.
  - intros n Hn. cbn [SetAllocation deduct allocation].
    now rewrite lookup_insert_ne.
Qed.

Lemma processUnallocatedServers_unitInv (es : list serverEntry) (st st' : store) :
  unitInv sys st ->
  NoDup (serverName <$> es) ->
  (forall e, e ∈ es -> allocation st !! serverName e = None) ->
  processUnallocatedServers sys es st = Ret st' ->
  unitInv sys st'.
Proof.
  revert st. induction es as [|e es IH]; intros st Hu Hnd Hfresh;
    cbn [processUnallocatedServers].
  { now intros [= <-]. }
  destruct (exhaustEntry sys e (allocations e) st) as [st1| |] eqn:E; try discriminate.
  cbn [bind]. cbn in Hnd. apply NoDup_cons in Hnd as [Hnew Hnd].
  destruct (exhaustEntry_unitInv _ _ _ _ Hu (Hfresh e ltac:(left)) E) as [Hu1 Hsame].
  apply IH; auto.
  intros e' He'. rewrite Hsame; [apply Hfresh; now right|].
  intros Heq. apply Hnew. rewrite <- Heq. now apply list_elem_of_fmap_2.
Qed.

End ExhaustiveFacts.

Section RoundRobinFacts.
Import core solver props.

Lemma sumZ_map_insert {A} (f : string * A -> Z) (m : gmap string A) (n : string) (v : A) :
  sumZ f (map_to_list (<[n := v]> m)) = f (n, v) + sumZ f (map_to_list (delete n m)).
Proof.
  rewrite <- insert_delete_eq.
  rewrite (sumZ_Permutation _ _ _ (map_to_list_insert (delete n m) n v (lookup_delete_eq m n))).
  reflexivity.
Qed.

Lemma sumZ_map_lookup {A} (f : string * A -> Z) (m : gmap string A) (n : string) (v : A) :
  m !! n = Some v ->
  sumZ f (map_to_list m) = f (n, v) + sumZ f (map_to_list (delete n m)).
Proof.
  intros H. now rewrite <- (sumZ_Permutation _ _ _ (map_to_list_delete m n v H)).
Qed.

Variable sys : System.

(** The tickets that [createTickets] adds are inactive, hold no replica, and
    carry the model of their server. *)
Lemma createTickets_spec (es : list serverEntry)
    (tks tks' : gmap string serverAllocationTicket) :
  createTickets sys es tks = Ret tks' ->
  forall name tk, tks' !! name = Some tk ->
    tks !! name = Some tk \/
    (name ∈ serverName <$> es /\ active tk = false /\ ticket_numReplicas tk = 0 /\
     exists srv, GetServer sys name = Some srv /\
       GetModel sys (ModelName srv) = Some (model tk)).
Proof.
  revert tks. induction es as [|e es IH]; intros tks; cbn [createTickets].
  { intros [= <-]. auto. }
  destruct (GetServer sys (serverName e)) as [srv|] eqn:Es; [|discriminate].
  cbn [deref bind].
  destruct (GetModel sys (ModelName srv)) as [mdl|] eqn:Em.
  - intros Hc name tk Hl. destruct (IH _ Hc name tk Hl) as [Hold|Hnew].
    + destruct (decide (serverName e = name)) as [<-|Hne].
      * rewrite lookup_insert_eq in Hold. injection Hold as <-. right.
        cbn. split; [left|]. repeat split. eauto.
      * rewrite lookup_insert_ne in Hold by exact Hne. now left.
    + right. destruct Hnew as (Hin & Hrest). split; [now right|exact Hrest].
  - intros Hc name tk Hl. destruct (IH _ Hc name tk Hl) as [Hold|Hnew]; [now left|].
    right. destruct Hnew as (Hin & Hrest). split; [now right|exact Hrest].
Qed.

(** The scan of an inactive ticket either leaves it as it is, or activates
    it on a registered accelerator of which one replica fits. *)
Lemma activate_spec (tk : serverAllocationTicket) (allocs : list Allocation) (st : store) :
  activate sys tk allocs st = tk \/
  exists alloc acc,
    GetAccelerator sys (accelerator alloc) = Some acc /\
    0 < unitsPerReplicaOf (model tk) acc (accelerator alloc)
      <= avail st (acc_Type acc) /\
    activate sys tk allocs st =
      mkTicket (entry tk) true (server tk) (model tk) (acc_Type acc)
        (unitsPerReplicaOf (model tk) acc (accelerator alloc))
        (ticket_numReplicas tk) (Some alloc).
Proof.
  induction allocs as [|alloc allocs IH]; cbn [activate]; [now left|].
  destruct (GetAccelerator sys (accelerator alloc)) as [acc|] eqn:Eg; [|exact IH].
  destruct (Z.gtb_spec (unitsPerReplicaOf (model tk) acc (accelerator alloc)) 0);
    cbn [andb]; [|exact IH].
  destruct (Z.geb_spec (avail st (acc_Type acc))
              (unitsPerReplicaOf (model tk) acc (accelerator alloc))); [|exact IH].
  right. exists alloc, acc. repeat split; [assumption|lia|lia].
Qed.

End RoundRobinFacts.

Section RoundRobinInvariant.
Import core solver props.

Variable sys : System.
Hypothesis Hcap : capacitiesValid sys.

(** Removing a ticket from [tickets] changes nothing else. *)
Lemma rrInv_delete_ticket (rr : rrState) (name : string) :
  rrInv sys rr ->
  rrInv sys (mkRR (delete name (tickets rr)) (allocatedTickets rr) (rr_store rr)).
Proof.
  intros [H1 H2 H3 H4 H5]. split; auto.
  intros n tk Hl. cbn [tickets] in Hl. apply lookup_delete_Some in Hl as [_ Hl].
  now apply H5.
Qed.

(** The units held by the tickets other than that of [name] are not
    negative. *)
Lemma pending_rest_nonneg (rr : rrState) (name t : string) :
  rrInv sys rr ->
  0 <= sumZ (ticketUnits t) (map_to_list (delete name (allocatedTickets rr))).
Proof.
  intros Hinv. apply sumZ_nonneg.
  intros [n tk] [_ Hl]%elem_of_map_to_list%lookup_delete_Some.
  destruct (rr_granted _ _ Hinv _ _ Hl) as [(srv & acc & alloc & H) _].
  unfold ticketUnits. cbn [snd]. destruct (decide _); [|lia].
  destruct H as (_ & _ & _ & _ & _ & _ & Hu & Hk). nia.
Qed.

(** The visit of one member keeps the invariant of the round-robin, leaves
    the slots alone, and adds at most the ticket of the member to the
    allocated ones. *)
Lemma visit_rrInv (e : serverEntry) (rr rr' : rrState) :
  rrInv sys rr ->
  visit sys e rr = Ret rr' ->
  rrInv sys rr' /\
  allocation (rr_store rr') = allocation (rr_store rr) /\
  forall n, is_Some (allocatedTickets rr' !! n) ->
    is_Some (allocatedTickets rr !! n) \/ n = serverName e.
Proof.
  intros Hinv. unfold visit.
  destruct (tickets rr !! serverName e) as [tk0|] eqn:Et; [|intros [= <-]; auto].
  destruct (rr_tickets _ _ Hinv _ _ Et) as (Hfresh & (srv & Es & Em) & Hact).
  set (ticket := if active tk0 then tk0 else _).
  assert (Hticket :
    active ticket = false \/
    (active ticket = true /\ ticketActive sys (serverName e) ticket /\
     unitsPerReplica ticket <= avail (rr_store rr) (accType ticket) \/
     active ticket = true /\ ticketActive sys (serverName e) ticket) /\
    (allocatedTickets rr !! serverName e = Some ticket \/
     allocatedTickets rr !! serverName e = None /\ ticket_numReplicas ticket = 0)).
  { subst ticket. destruct (active tk0) eqn:Ea.
    - right. split; [right; split; [exact Ea|]|now left].
      now apply (rr_granted _ _ Hinv).
    - destruct Hact as [Hnone Hzero].
      destruct (activate_spec sys tk0 (allocations e) (rr_store rr))
        as [->|(alloc & acc & Eg & Hu & ->)]; [now left|].
      right. split; [|right; split; [exact Hnone|exact Hzero]].
      left. cbn. split; [reflexivity|]. split; [|lia].
      exists srv, acc, alloc. cbn. repeat split; auto; lia. }
  clearbody ticket.
  destruct Hticket as [Hoff|[Hon Hprev]].
  { rewrite Hoff. cbn [negb]. intros [= <-].
    split; [now apply rrInv_delete_ticket|]. split; [reflexivity|]. cbn. auto. }
  assert (Hon' : active ticket = true /\ ticketActive sys (serverName e) ticket)
    by (destruct Hon as [(? & ? & _)|?]; auto).
  clear Hon. destruct Hon' as [Hon Hok]. rewrite Hon. cbn [negb].
  pose proof Hok as (srv' & acc & alloc & Es' & Em' & Ef & Eg & Ety & Eu & Hu & Hk).
  destruct (Z.eqb_spec (unitsPerReplica ticket) 0) as [Hzero|_]; [lia|].
  rewrite Ef. cbn [deref bind].
  destruct (Z.gtb_spec (Z.min (GoInt.quot (avail (rr_store rr) (accType ticket))
                                 (unitsPerReplica ticket)) (numReplicas alloc)) 0)
    as [Hgrant|_].
  2:{ intros [= <-]. split; [now apply rrInv_delete_ticket|].
      split; [reflexivity|]. cbn. auto. }
  intros [= <-]. cbn [rr_store allocatedTickets tickets].
  pose proof (rr_available _ _ Hinv (accType ticket)) as Hav.
  rewrite quot_exact in Hgrant by assumption.
  assert (Hfit : unitsPerReplica ticket <= avail (rr_store rr) (accType ticket)).
  { pose proof (Z.mul_div_le (avail (rr_store rr) (accType ticket))
                  (unitsPerReplica ticket) Hu). nia. }
  assert (Hpend : forall t, pendingUnits rr t =
            ticketUnits t (serverName e, ticket) +
            sumZ (ticketUnits t) (map_to_list (delete (serverName e) (allocatedTickets rr)))).
  { intros t. unfold pendingUnits. destruct Hprev as [Hsome|[Hnone Hzero]].
    - now apply sumZ_map_lookup.
    - rewrite delete_id by exact Hnone. unfold ticketUnits. cbn [snd].
      rewrite Hzero. destruct (decide _); lia. }
  pose proof (fun t => pending_rest_nonneg rr (serverName e) t Hinv) as Hrest.
  assert (Hroom : ticket_numReplicas ticket + 1 <= GoInt.MaxInt).
  { pose proof (rr_units _ _ Hinv (accType ticket)) as Hbal.
    pose proof (rr_allocated _ _ Hinv (accType ticket)).
    pose proof (capacity_bound sys Hcap (accType ticket)).
    specialize (Hrest (accType ticket)). rewrite Hpend in Hbal.
    assert (Hown : ticketUnits (accType ticket) (serverName e, ticket) =
                     ticket_numReplicas ticket * unitsPerReplica ticket).
    { unfold ticketUnits. cbn [snd]. now rewrite decide_True. }
    rewrite Hown in Hbal. nia. }
  rewrite add_exact by lia.
  set (ticket' := mkTicket _ _ _ _ _ _ _ _).
  split; [|split; [reflexivity|]].
  - split.
    + intros t. cbn [rr_store]. rewrite avail_deduct.
      destruct (decide (accType ticket = t)) as [<-|]; [|apply (rr_available _ _ Hinv)].
      rewrite sub_exact by lia. lia.
    + intros t. cbn [rr_store]. rewrite allocatedUnits_deduct.
      apply (rr_allocated _ _ Hinv).
    + intros t. cbn [rr_store]. rewrite allocatedUnits_deduct, avail_deduct.
      unfold pendingUnits at 1. cbn [allocatedTickets]. rewrite sumZ_map_insert.
      pose proof (rr_units _ _ Hinv t) as Hbal. rewrite Hpend in Hbal.
      unfold ticketUnits at 1. unfold ticketUnits at 1 in Hbal.
      cbn [snd ticket' accType ticket_numReplicas unitsPerReplica] in *.
      destruct (decide (accType ticket = t)) as [<-|]; [|lia].
      rewrite sub_exact by lia. lia.
    + intros n tk. cbn [allocatedTickets rr_store]. rewrite allocation_deduct.
      destruct (decide (serverName e = n)) as [<-|Hne].
      * rewrite lookup_insert_eq. intros [= <-]. split; [|exact Hfresh].
        exists srv', acc, alloc. cbn. repeat split; auto; lia.
      * rewrite lookup_insert_ne by exact Hne. apply (rr_granted _ _ Hinv).
    + intros n tk. cbn [tickets allocatedTickets rr_store]. rewrite allocation_deduct.
      destruct (decide (serverName e = n)) as [<-|Hne].
      * rewrite !lookup_insert_eq. intros [= <-]. split; [exact Hfresh|].
        split; [exists srv'; auto|].
        change (active ticket') with true. reflexivity.
      * rewrite !lookup_insert_ne by exact Hne. apply (rr_tickets _ _ Hinv).
  - intros n. cbn [allocatedTickets].
    destruct (decide (serverName e = n)) as [<-|Hne]; [now right|].
    rewrite lookup_insert_ne by exact Hne. now left.
Qed.

End RoundRobinInvariant.

Section RoundRobinProcedure.
Import core solver props.

Variable sys : System.
Hypothesis Hcap : capacitiesValid sys.

Lemma round_rrInv (es : list serverEntry) (rr rr' : rrState) :
  rrInv sys rr ->
  round sys es rr = Ret rr' ->
  rrInv sys rr' /\
  allocation (rr_store rr') = allocation (rr_store rr) /\
  forall n, is_Some (allocatedTickets rr' !! n) ->
    is_Some (allocatedTickets rr !! n) \/ n ∈ serverName <$> es.
Proof.
  revert rr. induction es as [|e es IH]; intros rr Hinv; cbn [round].
  { intros [= <-]. auto. }
  destruct (visit sys e rr) as [rr1| |] eqn:E; try discriminate. cbn [bind].
  intros Hrun.
  destruct (visit_rrInv sys Hcap _ _ _ Hinv E) as (Hinv1 & Hslots1 & Hkeys1).
  destruct (IH _ Hinv1 Hrun) as (Hinv' & Hslots' & Hkeys').
  split; [exact Hinv'|]. split; [congruence|].
  intros n Hn. destruct (Hkeys' n Hn) as [H1|H1].
  - destruct (Hkeys1 n H1) as [H0| ->]; [now left|]. right. left.
  - right. now right.
Qed.

Lemma roundRobin_rrInv (fuel : nat) (es : list serverEntry) (rr rr' : rrState) :
  rrInv sys rr ->
  roundRobin sys fuel es rr = Ret rr' ->
  rrInv sys rr' /\
  allocation (rr_store rr') = allocation (rr_store rr) /\
  forall n, is_Some (allocatedTickets rr' !! n) ->
    is_Some (allocatedTickets rr !! n) \/ n ∈ serverName <$> es.
Proof.
  revert rr. induction fuel as [|fuel IH]; intros rr Hinv; cbn [roundRobin];
    [discriminate|].
  destruct (size (tickets rr) =? 0)%nat.
  { intros [= <-]. auto. }
  destruct (round sys es rr) as [rr1| |] eqn:E; try discriminate. cbn [bind].
  intros Hrun.
  destruct (round_rrInv _ _ _ Hinv E) as (Hinv1 & Hslots1 & Hkeys1).
  destruct (IH _ Hinv1 Hrun) as (Hinv' & Hslots' & Hkeys').
  split; [exact Hinv'|]. split; [congruence|].
  intros n Hn. destruct (Hkeys' n Hn) as [H1|H1]; auto.
Qed.

(** The last loop turns the units held by the tickets into allocated
    units. *)
Lemma commitTickets_unitInv (l : list (string * serverAllocationTicket))
    (st st' : store) :
  NoDup l.*1 ->
  (forall n tk, (n, tk) ∈ l -> ticketActive sys n tk /\ allocation st !! n = None) ->
  (forall t, 0 <= avail st t <= GoInt.MaxInt) ->
  (forall t, 0 <= allocatedUnits sys st t) ->
  (forall t, allocatedUnits sys st t + sumZ (ticketUnits t) l + avail st t
             = capacity sys t) ->
  commitTickets l st = Ret st' ->
  unitInv sys st' /\
  forall n, n ∉ l.*1 -> allocation st' !! n = allocation st !! n.
Proof.
  revert st. induction l as [|[n tk] l IH]; intros st Hnd Hok Hav Hal Hbal;
    cbn [commitTickets].
  { intros [= <-]. split; [|auto]. split; auto.
    intros t. specialize (Hbal t). cbn in Hbal. lia. }
  destruct (Hok n tk ltac:(left))
    as [(srv & acc & alloc & Es & Em & Ef & Eg & Ety & Eu & Hu & Hk) Hfresh].
  unfold commitTicket. rewrite Ef. cbn [deref bind].
  set (alloc' := SetNumReplicas _ _).
  cbn [fmap list_fmap fst] in Hnd. apply NoDup_cons in Hnd as [Hnew Hnd].
  assert (Hrest : forall t, 0 <= sumZ (ticketUnits t) l).
  { intros t. apply sumZ_nonneg. intros [n1 tk1] Hin.
    destruct (Hok n1 tk1 ltac:(now right)) as [(? & ? & ? & H) _].
    unfold ticketUnits. cbn [snd]. destruct (decide _); [|lia].
    destruct H as (_ & _ & _ & _ & _ & _ & Hu1 & Hk1). nia. }
  assert (Hunits : forall t, allocUnits sys t (n, alloc') = ticketUnits t (n, tk)).
  { intros t. cbn [allocUnits]. rewrite Es, Em. cbn [alloc' SetNumReplicas accelerator
      SetValue SetCost]. rewrite Eg. unfold ticketUnits. cbn [snd]. rewrite Ety.
    destruct (decide (acc_Type acc = t)) as [<-|]; [|reflexivity].
    unfold unitCount. change (numReplicas alloc') with (ticket_numReplicas tk).
    change (accelerator alloc') with (accelerator alloc). rewrite <- Eu.
    apply mul_exact; [exact Hk|lia|].
    specialize (Hbal (acc_Type acc)). rewrite sumZ_cons in Hbal.
    unfold ticketUnits at 1 in Hbal. cbn [snd] in Hbal.
    rewrite decide_True in Hbal by exact Ety.
    pose proof (capacity_bound sys Hcap (acc_Type acc)).
    specialize (Hrest (acc_Type acc)). specialize (Hal (acc_Type acc)).
    specialize (Hav (acc_Type acc)). lia. }
  intros Hrun. destruct (IH (SetAllocation n alloc' st)) as [Hinv Hsame]; auto.
  - intros n1 tk1 Hin. destruct (Hok n1 tk1 ltac:(now right)) as [Hact Hf].
    split; [exact Hact|]. cbn [SetAllocation allocation].
    rewrite lookup_insert_ne; [exact Hf|].
    intros ->. apply Hnew. apply list_elem_of_fmap. now exists (n1, tk1).
  - intros t. rewrite allocatedUnits_SetAllocation, Hunits by exact Hfresh.
    specialize (Hrest t). specialize (Hal t).
    assert (0 <= ticketUnits t (n, tk)); [|lia].
    unfold ticketUnits. cbn [snd]. destruct (decide _); nia.
  - intros t. rewrite allocatedUnits_SetAllocation, Hunits by exact Hfresh.
    rewrite avail_SetAllocation. specialize (Hbal t). rewrite sumZ_cons in Hbal. lia.
  - split; [exact Hinv|]. intros n0 Hn0. cbn [fmap list_fmap fst] in Hn0.
    apply not_elem_of_cons in Hn0 as [Hne Hn0]. rewrite Hsame by exact Hn0.
    cbn [SetAllocation allocation]. now rewrite lookup_insert_ne.
Qed.

(** [processUnallocatedServerGroup] keeps the units in balance and fills
    slots of members of the group only. *)
Lemma processUnallocatedServerGroup_unitInv (es : list serverEntry) (st st' : store) :
  unitInv sys st ->
  (forall e, e ∈ es -> allocation st !! serverName e = None) ->
  processUnallocatedServerGroup sys es st = Ret st' ->
  unitInv sys st' /\
  forall n, n ∉ serverName <$> es -> allocation st' !! n = allocation st !! n.
Proof.
  intros Hu Hfresh. unfold processUnallocatedServerGroup.
  destruct (createTickets sys es ∅) as [tks| |] eqn:Ec; try discriminate. cbn [bind].
  destruct (roundRobin sys _ es _) as [rr| |] eqn:Er; try discriminate. cbn [bind].
  intros Hrun.
  assert (Hinit : rrInv sys (mkRR tks ∅ st)).
  { split; cbn [rr_store allocatedTickets tickets].
    - apply (inv_available _ _ Hu).
    - apply (inv_allocated _ _ Hu).
    - intros t. unfold pendingUnits. cbn [allocatedTickets].
      rewrite map_to_list_empty. cbn. pose proof (inv_units _ _ Hu t). lia.
    - intros n tk Hl. rewrite lookup_empty in Hl. discriminate Hl.
    - intros n tk Hl.
      destruct (createTickets_spec sys _ _ _ Ec n tk Hl)
        as [Hl0|(Hin & Hoff & Hzero & Hsrv)].
      { rewrite lookup_empty in Hl0. discriminate Hl0. }
      apply list_elem_of_fmap in Hin as (e & -> & Hin).
      split; [now apply Hfresh|]. split; [exact Hsrv|].
      rewrite Hoff. split; [apply lookup_empty|exact Hzero]. }
  destruct (roundRobin_rrInv _ _ _ _ Hinit Er) as (Hinv & Hslots & Hkeys).
  cbn [rr_store allocatedTickets] in Hslots, Hkeys.
  destruct (commitTickets_unitInv (map_to_list (allocatedTickets rr)) (rr_store rr) st')
    as [Hu' Hsame]; auto.
  - apply NoDup_fst_map_to_list.
  - intros n tk Hin%elem_of_map_to_list. now apply (rr_granted _ _ Hinv).
  - apply (rr_available _ _ Hinv).
  - apply (rr_allocated _ _ Hinv).
  - apply (rr_units _ _ Hinv).
  - split; [exact Hu'|]. intros n Hn. rewrite Hsame, Hslots; [reflexivity|].
    intros ((n1, tk1) & Heq & Hin%elem_of_map_to_list)%list_elem_of_fmap.
    cbn in Heq. subst n1.
    destruct (Hkeys n ltac:(eauto)) as [[? H0]|H0]; [|contradiction].
    rewrite lookup_empty in H0. discriminate H0.
Qed.

End RoundRobinProcedure.

Section WithinCapacity.
Import core solver props.

Variable SortFunc : forall E : Type, (E -> E -> comparison) -> list E -> list E.
Variable sys : System.
Hypothesis Hsort : sortPermutes SortFunc.
Hypothesis Hdistinct : serversDistinct sys.
Hypothesis Hcap : capacitiesValid sys.
Hypothesis Hcounts : countsValid sys.

Lemma splitGroup_app (p : Z) (l g rest : list serverEntry) :
  splitGroup p l = (g, rest) -> l = g ++ rest.
Proof.
  revert g rest. induction l as [|e l IH]; intros g rest; cbn [splitGroup].
  { now intros [= <- <-]. }
  destruct (priority e =? p).
  - destruct (splitGroup p l) as [g1 rest1]. intros [= <- <-].
    cbn. f_equal. now apply IH.
  - now intros [= <- <-].
Qed.

Lemma groupsLoop_unitInv (fuel : nat) (es : list serverEntry) (st st' : store) :
  unitInv sys st ->
  NoDup (serverName <$> es) ->
  (forall e, e ∈ es -> allocation st !! serverName e = None) ->
  groupsLoop sys fuel es st = Ret st' ->
  unitInv sys st'.
Proof.
  revert es st. induction fuel as [|fuel IH]; intros es st Hu Hnd Hfresh;
    cbn [groupsLoop]; [discriminate|].
  destruct es as [|e l]; [now intros [= <-]|].
  destruct (splitGroup (priority e) l) as [g rest] eqn:Eg.
  apply splitGroup_app in Eg. subst l.
  destruct (processUnallocatedServerGroup sys (e :: g) st) as [st1| |] eqn:E;
    try discriminate.
  cbn [bind].
  destruct (processUnallocatedServerGroup_unitInv sys Hcap (e :: g) st st1)
    as [Hu1 Hsame]; auto.
  { intros e' He'. apply Hfresh. rewrite app_comm_cons. apply elem_of_app. now left. }
  rewrite app_comm_cons, fmap_app in Hnd. apply NoDup_app in Hnd as (_ & Hdisj & Hnd).
  apply IH; auto.
  intros e' He'. rewrite Hsame.
  - apply Hfresh. right. apply elem_of_app. now right.
  - intros Hin. apply (Hdisj _ Hin). now apply list_elem_of_fmap_2.
Qed.

(** C1: for every accelerator type t, at the end of the main pass and again
    after whichever saturation policy is configured, [available[t]] is not
    negative, so the units deducted from it (capacity[t] minus what is left)
    do not exceed capacity[t]; and the units of type t held by the
    allocations of all servers add up to exactly the units deducted, hence to
    at most capacity[t]. *)
Theorem SolveGreedy_within_capacity (policy : SaturatedAllocationPolicy)
    (previous : gmap string Allocation) (st : store) :
  SolveGreedy SortFunc sys policy previous = Ret st ->
  (exists un st1,
     mainPass SortFunc sys previous = Ret (un, st1) /\
     forall t, 0 <= avail st1 t /\
       allocatedUnits sys st1 t = capacity sys t - avail st1 t) /\
  forall t,
    0 <= avail st t /\
    capacity sys t - avail st t <= capacity sys t /\
    allocatedUnits sys st t = capacity sys t - avail st t /\
    0 <= allocatedUnits sys st t <= capacity sys t.
Proof.
  unfold SolveGreedy.
  destruct (mainPass SortFunc sys previous) as [[un st1]| |] eqn:E; try discriminate.
  cbn [bind].
  destruct (mainPass_unitInv SortFunc sys Hsort Hdistinct Hcap Hcounts _ _ _ E)
    as [Hs Hu].
  pose proof (inv_names _ _ _ _ Hs) as Hnd. cbn [app] in Hnd.
  assert (Hfresh : forall e, e ∈ un -> allocation st1 !! serverName e = None).
  { intros e He. now apply (inv_entries _ _ _ _ Hs e). }
  intros Hrun. split.
  { exists un, st1. split; [reflexivity|]. intros t.
    pose proof (inv_available _ _ Hu t). pose proof (inv_units _ _ Hu t). lia. }
  assert (Hu' : unitInv sys st).
  { destruct policy.
    - now injection Hrun as <-.
    - eapply processUnallocatedServers_unitInv; eauto.
    - eapply groupsLoop_unitInv; eauto.
    - eapply processUnallocatedServerGroup_unitInv; eauto. }
  intros t. pose proof (inv_available _ _ Hu' t). pose proof (inv_units _ _ Hu' t).
  pose proof (inv_allocated _ _ Hu' t). lia.
Qed.

End WithinCapacity.

(** ** The solve returns *)

Section MainLoopReturns.
Import core solver props.

Variable sys : System.

Lemma credit_app (l1 l2 : list serverEntry) :
  credit (l1 ++ l2) = (credit l1 + credit l2)%nat.
Proof.
  induction l1 as [|e l1 IH]; cbn [credit foldr app]; [reflexivity|].
  fold (credit (l1 ++ l2)). fold (credit l1). lia.
Qed.

Lemma credit_Insert (es : list serverEntry) (k : nat) (e : serverEntry) :
  credit (Insert es k e) = (entryCredit e + credit es)%nat.
Proof.
  unfold Insert. rewrite credit_app. cbn [credit foldr]. fold (credit (drop k es)).
  rewrite <- (take_drop k es) at 3. rewrite credit_app. lia.
Qed.

(** With fuel above the credit of its entries the main loop returns: no
    index is out of range, no accelerator is missing, and the credit drops
    in every round. *)
Lemma greedyLoop_returns (fuel : nat) (es un : list serverEntry) (st : store) :
  (forall e, e ∈ es -> entryReady sys e) ->
  (credit es < fuel)%nat ->
  exists r, greedyLoop sys fuel es un st = Ret r.
Proof.
  revert es un st. induction fuel as [|fuel IH]; intros es un st Hready Hfuel; [lia|].
  cbn [greedyLoop]. destruct es as [|top es]; [eauto|].
  cbn [credit foldr] in Hfuel. fold (credit es) in Hfuel.
  assert (Hes : forall e, e ∈ es -> entryReady sys e) by (intros; apply Hready; now right).
  assert (Hdrop : forall un' st', exists r, greedyLoop sys fuel es un' st' = Ret r).
  { intros. apply IH; [exact Hes|]. unfold entryCredit in Hfuel. lia. }
  destruct (length (allocations top) =? 0)%nat; [apply Hdrop|].
  destruct (GetServer sys (serverName top)) as [srv|]; [|apply Hdrop].
  destruct (GetModel sys (ModelName srv)) as [mdl|]; [|apply Hdrop].
  destruct (Hready top ltac:(left)) as [Hcur Hacc].
  destruct (lookup_lt_is_Some_2 _ _ Hcur) as [alloc Ea]. rewrite Ea.
  destruct (Hacc alloc (list_elem_of_lookup_2 _ _ _ Ea)) as [acc Eg]. rewrite Eg.
  cbn [deref bind].
  destruct (avail st (acc_Type acc) >=? unitCount mdl acc alloc); [apply Hdrop|].
  assert (Hnext : forall k d un' st',
            (S (curIndex top) < length (allocations top))%nat ->
            exists r, greedyLoop sys fuel
                        (Insert es k (setCurIndexDelta top (S (curIndex top)) d))
                        un' st' = Ret r).
  { intros k d un' st' Hlt. apply IH.
    - intros e He. rewrite Insert_Permutation in He.
      apply elem_of_cons in He as [->|He]; [|now apply Hes].
      split; [exact Hlt|exact Hacc].
    - rewrite credit_Insert. unfold entryCredit in *. cbn [setCurIndexDelta
        allocations curIndex]. lia. }
  destruct (Nat.ltb_spec (S (curIndex top) + 1) (length (allocations top))).
  - apply Hnext. lia.
  - destruct (Nat.eqb_spec (S (curIndex top)) (length (allocations top))).
    + apply Hdrop.
    + apply Hnext. lia.
Qed.

End MainLoopReturns.

Section SaturationReturns.
Import core solver props.

Variable sys : System.
Hypothesis Hcap : capacitiesValid sys.

Lemma exhaustEntry_returns (e : serverEntry) (allocs : list Allocation) (st : store) :
  is_Some (GetServer sys (serverName e)) ->
  exists st', exhaustEntry sys e allocs st = Ret st'.
Proof.
  intros [srv Es]. induction allocs as [|alloc allocs IH]; cbn [exhaustEntry]; [eauto|].
  rewrite Es. cbn [deref bind].
  destruct (GetAccelerator sys (accelerator alloc)) as [acc|]; [|exact IH].
  destruct (GetModel sys (ModelName srv)) as [mdl|]; [|exact IH].
  destruct (unitsPerReplicaOf mdl acc (accelerator alloc) >? 0); [|exact IH].
  destruct (Z.min _ _ >? 0); [eauto|exact IH].
Qed.

Lemma processUnallocatedServers_returns (es : list serverEntry) (st : store) :
  (forall e, e ∈ es -> is_Some (GetServer sys (serverName e))) ->
  exists st', processUnallocatedServers sys es st = Ret st'.
Proof.
  revert st. induction es as [|e es IH]; intros st Hreg;
    cbn [processUnallocatedServers]; [eauto|].
  destruct (exhaustEntry_returns e (allocations e) st (Hreg e ltac:(left))) as [st1 ->].
  cbn [bind]. apply IH. intros e' He'. apply Hreg. now right.
Qed.

Lemma createTickets_returns (es : list serverEntry)
    (tks : gmap string serverAllocationTicket) :
  (forall e, e ∈ es -> is_Some (GetServer sys (serverName e))) ->
  exists tks', createTickets sys es tks = Ret tks'.
Proof.
  revert tks. induction es as [|e es IH]; intros tks Hreg; cbn [createTickets]; [eauto|].
  destruct (Hreg e ltac:(left)) as [srv ->]. cbn [deref bind].
  assert (Hes : forall e', e' ∈ es -> is_Some (GetServer sys (serverName e')))
    by (intros; apply Hreg; now right).
  destruct (GetModel sys (ModelName srv)); now apply IH.
Qed.

Lemma sumAvailable_deduct (st : store) (t : string) (u : Z) :
  0 < u <= avail st t -> avail st t <= GoInt.MaxInt ->
  (sumAvailable (available (deduct t u st)) < sumAvailable (available st))%nat.
Proof.
  intros Hu Hmax. unfold sumAvailable, deduct. cbn [available].
  rewrite sub_exact by lia. rewrite sumZ_map_insert. cbn [snd].
  unfold avail in *. destruct (available st !! t) as [v|] eqn:E; cbn [default] in *; [|lia].
  rewrite (sumZ_map_lookup _ _ _ _ E). cbn [snd].
  assert (0 <= sumZ (fun p : string * Z => Z.max 0 p.2) (map_to_list (delete t (available st)))).
  { apply sumZ_nonneg. intros; lia. }
  unfold id in *. lia.
Qed.

(** The visit of a member returns; it does not raise the potential, and
    lowers it if the member has a ticket. *)
Lemma visit_returns (e : serverEntry) (rr : rrState) :
  rrInv sys rr ->
  exists rr', visit sys e rr = Ret rr' /\
    (forall n, is_Some (tickets rr' !! n) -> is_Some (tickets rr !! n)) /\
    (tickets rr !! serverName e = None -> rr' = rr) /\
    (is_Some (tickets rr !! serverName e) -> (potential rr' < potential rr)%nat).
Proof.
  intros Hinv. unfold visit.
  destruct (tickets rr !! serverName e) as [tk0|] eqn:Et.
  2:{ exists rr. repeat split; auto. intros [? H]. discriminate H. }
  assert (Hdel : (potential (mkRR (delete (serverName e) (tickets rr))
                               (allocatedTickets rr) (rr_store rr)) < potential rr)%nat).
  { unfold potential. cbn [tickets rr_store].
    rewrite map_size_delete_Some by eauto.
    assert (size (tickets rr) <> 0)%nat by (eapply map_size_ne_0_lookup_2; eauto). lia. }
  assert (Hdelkeys : forall n, is_Some (delete (serverName e) (tickets rr) !! n) ->
                       is_Some (tickets rr !! n)).
  { intros n [x [_ Hx]%lookup_delete_Some]. eauto. }
  destruct (rr_tickets _ _ Hinv _ _ Et) as (Hfresh & (srv & Es & Em) & Hact).
  set (ticket := if active tk0 then tk0 else _).
  assert (Hticket : active ticket = true ->
            exists alloc, finalAlloc ticket = Some alloc /\ 0 < unitsPerReplica ticket).
  { subst ticket. destruct (active tk0) eqn:Ea.
    - intros _. destruct (rr_granted _ _ Hinv _ _ Hact)
        as [(? & ? & alloc & _ & _ & Ef & _ & _ & _ & Hu & _) _]. eauto.
    - destruct (activate_spec sys tk0 (allocations e) (rr_store rr))
        as [->|(alloc & acc & Eg & Hu & ->)]; [congruence|].
      intros _. exists alloc. cbn. split; [reflexivity|lia]. }
  clearbody ticket. destruct (active ticket) eqn:Eon; cbn [negb].
  2:{ eexists. split; [reflexivity|]. cbn [tickets]. repeat split; auto.
      intros H. discriminate H. }
  destruct (Hticket eq_refl) as (alloc & Ef & Hu).
  destruct (Z.eqb_spec (unitsPerReplica ticket) 0) as [Hzero|_]; [lia|].
  rewrite Ef. cbn [deref bind].
  pose proof (rr_available _ _ Hinv (accType ticket)) as Hav.
  destruct (Z.gtb_spec (Z.min (GoInt.quot (avail (rr_store rr) (accType ticket))
                                 (unitsPerReplica ticket)) (numReplicas alloc)) 0)
    as [Hgrant|_].
  2:{ eexists. split; [reflexivity|]. cbn [tickets]. repeat split; auto.
      intros H. discriminate H. }
  rewrite quot_exact in Hgrant by assumption.
  assert (Hfit : unitsPerReplica ticket <= avail (rr_store rr) (accType ticket)).
  { pose proof (Z.mul_div_le (avail (rr_store rr) (accType ticket))
                  (unitsPerReplica ticket) Hu). nia. }
  eexists. split; [reflexivity|]. cbn [tickets]. split; [|split].
  - intros n. destruct (decide (serverName e = n)) as [<-|Hne].
    + intros _. eauto.
    + now rewrite lookup_insert_ne.
  - intros H. discriminate H.
  - intros _. unfold potential. cbn [tickets rr_store].
    rewrite map_size_insert_Some by eauto.
    pose proof (sumAvailable_deduct (rr_store rr) (accType ticket)
                  (unitsPerReplica ticket) ltac:(lia) ltac:(lia)). lia.
Qed.

End SaturationReturns.

Section RoundRobinReturns.
Import core solver props.

Variable sys : System.
Hypothesis Hcap : capacitiesValid sys.

Lemma round_returns (es : list serverEntry) (rr : rrState) :
  rrInv sys rr ->
  exists rr', round sys es rr = Ret rr' /\
    (forall n, is_Some (tickets rr' !! n) -> is_Some (tickets rr !! n)) /\
    (potential rr' <= potential rr)%nat /\
    ((exists e, e ∈ es /\ is_Some (tickets rr !! serverName e)) ->
     (potential rr' < potential rr)%nat).
Proof.
  revert rr. induction es as [|e es IH]; intros rr Hinv; cbn [round].
  { exists rr. repeat split; auto. intros (e & He & _). inversion He. }
  destruct (visit_returns sys e rr Hinv) as (rr1 & E & Hkeys1 & Hsame & Hless).
  rewrite E. cbn [bind].
  destruct (visit_rrInv sys Hcap _ _ _ Hinv E) as (Hinv1 & _).
  destruct (IH rr1 Hinv1) as (rr' & E' & Hkeys' & Hle & Hlt).
  exists rr'. split; [exact E'|]. split; [auto|].
  destruct (tickets rr !! serverName e) as [tk|] eqn:Et.
  - specialize (Hless ltac:(eauto)). split; [lia|]. intros _. lia.
  - specialize (Hsame eq_refl). subst rr1. split; [exact Hle|].
    intros (e0 & [->|He0]%elem_of_cons & Hsome).
    + rewrite Et in Hsome. destruct Hsome as [? H]. discriminate H.
    + apply Hlt. eauto.
Qed.

Lemma roundRobin_returns (fuel : nat) (es : list serverEntry) (rr : rrState) :
  rrInv sys rr ->
  (forall n, is_Some (tickets rr !! n) -> n ∈ serverName <$> es) ->
  (potential rr < fuel)%nat ->
  exists rr', roundRobin sys fuel es rr = Ret rr'.
Proof.
  revert rr. induction fuel as [|fuel IH]; intros rr Hinv Hkeys Hfuel; [lia|].
  cbn [roundRobin]. destruct (Nat.eqb_spec (size (tickets rr)) 0); [eauto|].
  destruct (round_returns es rr Hinv) as (rr1 & E & Hkeys1 & _ & Hlt).
  rewrite E. cbn [bind].
  destruct (round_rrInv sys Hcap _ _ _ Hinv E) as (Hinv1 & _).
  apply IH; auto.
  destruct (map_size_ne_0_lookup_1 _ n) as (name & Hsome).
  assert (potential rr1 < potential rr)%nat; [|lia].
  apply Hlt. apply Hkeys in Hsome as Hin.
  apply list_elem_of_fmap in Hin as (e & -> & Hin). eauto.
Qed.

Lemma commitTickets_returns (l : list (string * serverAllocationTicket)) (st : store) :
  (forall n tk, (n, tk) ∈ l -> is_Some (finalAlloc tk)) ->
  exists st', commitTickets l st = Ret st'.
Proof.
  revert st. induction l as [|[n tk] l IH]; intros st Hok; cbn [commitTickets]; [eauto|].
  unfold commitTicket. destruct (Hok n tk ltac:(left)) as [alloc ->].
  cbn [deref bind]. apply IH. intros n1 tk1 Hin. apply (Hok n1 tk1). now right.
Qed.

Lemma processUnallocatedServerGroup_returns (es : list serverEntry) (st : store) :
  unitInv sys st ->
  (forall e, e ∈ es ->
     allocation st !! serverName e = None /\ is_Some (GetServer sys (serverName e))) ->
  exists st', processUnallocatedServerGroup sys es st = Ret st'.
Proof.
  intros Hu Hes. unfold processUnallocatedServerGroup.
  destruct (createTickets_returns sys es ∅) as [tks Ec].
  { intros e He. now apply Hes. }
  rewrite Ec. cbn [bind].
  assert (Hinit : rrInv sys (mkRR tks ∅ st)).
  { split; cbn [rr_store allocatedTickets tickets].
    - apply (inv_available _ _ Hu).
    - apply (inv_allocated _ _ Hu).
    - intros t. unfold pendingUnits. cbn [allocatedTickets].
      rewrite map_to_list_empty. cbn. pose proof (inv_units _ _ Hu t). lia.
    - intros n tk Hl. rewrite lookup_empty in Hl. discriminate Hl.
    - intros n tk Hl.
      destruct (createTickets_spec sys _ _ _ Ec n tk Hl)
        as [Hl0|(Hin & Hoff & Hzero & Hsrv)].
      { rewrite lookup_empty in Hl0. discriminate Hl0. }
      apply list_elem_of_fmap in Hin as (e & -> & Hin).
      split; [now apply Hes|]. split; [exact Hsrv|].
      rewrite Hoff. split; [apply lookup_empty|exact Hzero]. }
  destruct (roundRobin_returns (roundRobinFuel tks st) es (mkRR tks ∅ st)) as [rr Er].
  { exact Hinit. }
  { cbn [tickets]. intros n [tk Hl].
    destruct (createTickets_spec sys _ _ _ Ec n tk Hl) as [Hl0|(Hin & _)]; [|exact Hin].
    rewrite lookup_empty in Hl0. discriminate Hl0. }
  { unfold roundRobinFuel, potential. cbn [tickets rr_store]. apply Nat.lt_succ_diag_r. }
  rewrite Er. cbn [bind].
  destruct (roundRobin_rrInv sys Hcap _ _ _ _ Hinit Er) as (Hinv & _).
  apply commitTickets_returns.
  intros n tk Hin%elem_of_map_to_list.
  destruct (rr_granted _ _ Hinv _ _ Hin) as [(? & ? & alloc & _ & _ & Ef & _) _]. eauto.
Qed.

Lemma splitGroup_length (p : Z) (l g rest : list serverEntry) :
  splitGroup p l = (g, rest) -> (length rest <= length l)%nat.
Proof.
  intros H%splitGroup_app. subst l. rewrite length_app. lia.
Qed.

Lemma groupsLoop_returns (fuel : nat) (es : list serverEntry) (st : store) :
  unitInv sys st ->
  NoDup (serverName <$> es) ->
  (forall e, e ∈ es ->
     allocation st !! serverName e = None /\ is_Some (GetServer sys (serverName e))) ->
  (length es < fuel)%nat ->
  exists st', groupsLoop sys fuel es st = Ret st'.
Proof.
  revert es st. induction fuel as [|fuel IH]; intros es st Hu Hnd Hes Hfuel; [lia|].
  cbn [groupsLoop]. destruct es as [|e l]; [eauto|].
  destruct (splitGroup (priority e) l) as [g rest] eqn:Eg.
  pose proof (splitGroup_length _ _ _ _ Eg) as Hlen.
  apply splitGroup_app in Eg. subst l.
  assert (Hgroup : forall e', e' ∈ e :: g ->
            allocation st !! serverName e' = None /\
            is_Some (GetServer sys (serverName e'))).
  { intros e' He'. apply Hes. rewrite app_comm_cons. apply elem_of_app. now left. }
  destruct (processUnallocatedServerGroup_returns (e :: g) st Hu Hgroup) as [st1 E].
  rewrite E. cbn [bind].
  destruct (processUnallocatedServerGroup_unitInv sys Hcap (e :: g) st st1)
    as [Hu1 Hsame]; auto.
  { intros e' He'. now apply Hgroup. }
  rewrite app_comm_cons, fmap_app in Hnd. apply NoDup_app in Hnd as (_ & Hdisj & Hnd).
  apply IH; auto.
  - intros e' He'. destruct (Hes e') as [Hf Hr]; [right; apply elem_of_app; now right|].
    split; [|exact Hr]. rewrite Hsame; [exact Hf|].
    intros Hin. apply (Hdisj _ Hin). now apply list_elem_of_fmap_2.
  - cbn [length] in Hfuel. lia.
Qed.

End RoundRobinReturns.

Section SolveReturns.
Import core solver props.

Variable SortFunc : forall E : Type, (E -> E -> comparison) -> list E -> list E.
Variable sys : System.
Hypothesis Hsort : sortPermutes SortFunc.
Hypothesis Hdistinct : serversDistinct sys.
Hypothesis Hknown : acceleratorsKnown sys.

(** The main pass returns: the fuel handed to the main loop suffices and
    nothing panics. *)
Lemma mainPass_returns (previous : gmap string Allocation) :
  exists un st, mainPass SortFunc sys previous = Ret (un, st).
Proof.
  unfold mainPass. rewrite buildEntries_eq. cbn [app].
  set (es := SortFunc _ _ _). set (st1 := mkStore _ _).
  destruct (greedyLoop_returns sys (mainFuel es) es [] st1) as [[un st] E].
  - intros e He. subst es. rewrite (Hsort _ _ _) in He.
    apply list_elem_of_omap in He as ((name, srv) & Hin & E). cbn in E.
    apply (newEntry_Some SortFunc Hsort) in E as (<- & Hcur & Hne & Hp). split.
    + rewrite Hcur, (Permutation_length Hp).
      destruct (AllAllocations srv); [congruence|cbn; lia].
    + intros a Ha. rewrite Hp in Ha.
      apply (Hknown (serverName e) srv a); [|exact Ha].
      apply assoc_NoDup; [exact Hdistinct|exact Hin].
  - unfold mainFuel. lia.
  - eauto.
Qed.

Hypothesis Hcap : capacitiesValid sys.
Hypothesis Hcounts : countsValid sys.

(** X20: the solve returns under every saturation policy. For a system
    whose servers are registered once each, whose candidates are on
    registered accelerators and ask for no negative number of units, and
    whose capacities are counts that fit an [int], [SolveGreedy] ends with a
    store: no nil pointer is read, no index is out of range, no division is
    by zero, and each of its loops ends. *)
Theorem SolveGreedy_returns (policy : SaturatedAllocationPolicy)
    (previous : gmap string Allocation) :
  exists st, SolveGreedy SortFunc sys policy previous = Ret st.
Proof.
  unfold SolveGreedy. destruct (mainPass_returns previous) as (un & st1 & E).
  rewrite E. cbn [bind].
  destruct (mainPass_unitInv SortFunc sys Hsort Hdistinct Hcap Hcounts _ _ _ E)
    as [Hs Hu].
  pose proof (inv_names _ _ _ _ Hs) as Hnd. cbn [app] in Hnd.
  assert (Hun : forall e, e ∈ un ->
            allocation st1 !! serverName e = None /\
            is_Some (GetServer sys (serverName e))).
  { intros e He. destruct (inv_entries _ _ _ _ Hs e He) as [Hf (srv & Es & _)]. eauto. }
  destruct policy.
  - eauto.
  - apply processUnallocatedServers_returns. intros e He. now apply Hun.
  - apply groupsLoop_returns; auto.
  - now apply processUnallocatedServerGroup_returns.
Qed.

End SolveReturns.

Section WithinCapacityAtInputs.
Import core solver props examples.
Local Open Scope string_scope.

Lemma capacitiesValid_sysTwoMin : capacitiesValid sysTwoMin.
Proof.
  intros t c H. cbn [GetCapacities sysTwoMin] in H.
  apply lookup_singleton_Some in H as [_ <-]. split; [lia|discriminate].
Qed.

Lemma countsValid_sysTwoMin : countsValid sysTwoMin.
Proof.
  intros name srv mdl acc a Hs Hm Ha Hg. unfold GetServer, sysTwoMin in Hs. cbn in Hs.
  destruct (String.eqb name "Premium-g13b"); [|discriminate Hs].
  injection Hs as <-. cbn in Ha. apply list_elem_of_singleton in Ha as ->.
  cbn in Hm, Hg. injection Hm as <-. injection Hg as <-. discriminate.
Qed.

(** C1 at a concrete system: one unit of A100, a server whose candidate needs
    two, and the round-robin by priority groups, which hands out the one
    unit. *)
Lemma SolveGreedy_within_capacity_at_sysTwoMin :
  sortPermutes insertionSort /\ serversDistinct sysTwoMin /\
  capacitiesValid sysTwoMin /\ countsValid sysTwoMin /\
  exists st,
    SolveGreedy insertionSort sysTwoMin PriorityRoundRobin ∅ = Ret st /\
    avail st "A100" = 0 /\
    allocatedUnits sysTwoMin st "A100" = 1 /\
    0 <= allocatedUnits sysTwoMin st "A100" <= capacity sysTwoMin "A100".
Proof.
  split; [exact insertionSort_Permutation|]. split; [exact serversDistinct_sysTwoMin|].
  split; [exact capacitiesValid_sysTwoMin|]. split; [exact countsValid_sysTwoMin|].
  destruct (SolveGreedy insertionSort sysTwoMin PriorityRoundRobin ∅) as [st| |] eqn:E;
    [|vm_compute in E; discriminate E..].
  exists st. split; [reflexivity|].
  destruct (SolveGreedy_within_capacity insertionSort sysTwoMin
              insertionSort_Permutation serversDistinct_sysTwoMin
              capacitiesValid_sysTwoMin countsValid_sysTwoMin
              PriorityRoundRobin ∅ st E) as [_ Hall].
  destruct (Hall "A100") as (_ & _ & Hsum & Hle).
  assert (Hav : avail st "A100" = 0).
  { pose proof E as E'. vm_compute in E'. injection E' as <-. reflexivity. }
  split; [exact Hav|]. split; [|exact Hle].
  rewrite Hsum, Hav. reflexivity.
Defined.

End WithinCapacityAtInputs.

(** ** The round-robin stays below the candidates that the main loop refused *)

Section RefusalFacts.
Import core solver props.

(** A refused positive count, wrapped or not, is more than what is
    available. *)
Lemma refusal_exact (a n u : Z) :
  a <= GoInt.MaxInt -> 0 < n -> 0 < u -> a < GoInt.mul n u -> a < n * u.
Proof.
  intros Ha Hn Hu Hlt.
  destruct (Z_le_gt_dec (n * u) GoInt.MaxInt) as [Hfit|Hover]; [|lia].
  rewrite mul_exact in Hlt by lia. exact Hlt.
Qed.

(** Deducting a covered count lowers no other count and raises none. *)
Lemma avail_deduct_le (t t' : string) (c : Z) (st : store) :
  0 <= c <= avail st t -> avail st t <= GoInt.MaxInt ->
  avail (deduct t c st) t' <= avail st t'.
Proof.
  intros Hc Hmax. rewrite avail_deduct.
  destruct (decide (t = t')) as [<-|]; [|lia].
  rewrite sub_exact by lia. lia.
Qed.

Variable sys : System.

Lemma refused_le (st st' : store) (e : serverEntry) :
  (forall t, avail st' t <= avail st t) -> refused sys st e -> refused sys st' e.
Proof.
  intros Hle Hr c Hc srv mdl acc Es Em Eg.
  specialize (Hr c Hc srv mdl acc Es Em Eg). specialize (Hle (acc_Type acc)). lia.
Qed.

(** The scan of an inactive ticket either leaves it as it is, or activates it
    on one of the candidates, of which one replica fits. *)
Lemma activate_candidate (tk : serverAllocationTicket) (allocs : list Allocation)
    (st : store) :
  activate sys tk allocs st = tk \/
  exists alloc acc,
    alloc ∈ allocs /\
    GetAccelerator sys (accelerator alloc) = Some acc /\
    0 < unitsPerReplicaOf (model tk) acc (accelerator alloc)
      <= avail st (acc_Type acc) /\
    activate sys tk allocs st =
      mkTicket (entry tk) true (server tk) (model tk) (acc_Type acc)
        (unitsPerReplicaOf (model tk) acc (accelerator alloc))
        (ticket_numReplicas tk) (Some alloc).
Proof.
  induction allocs as [|alloc allocs IH]; cbn [activate]; [now left|].
  assert (Hrest : activate sys tk allocs st = tk \/
    exists alloc0 acc,
      alloc0 ∈ alloc :: allocs /\
      GetAccelerator sys (accelerator alloc0) = Some acc /\
      0 < unitsPerReplicaOf (model tk) acc (accelerator alloc0)
        <= avail st (acc_Type acc) /\
      activate sys tk allocs st =
        mkTicket (entry tk) true (server tk) (model tk) (acc_Type acc)
          (unitsPerReplicaOf (model tk) acc (accelerator alloc0))
          (ticket_numReplicas tk) (Some alloc0)).
  { destruct IH as [IH|(a0 & acc0 & Hin & IH)]; [now left|].
    right. exists a0, acc0. split; [now right|exact IH]. }
  destruct (GetAccelerator sys (accelerator alloc)) as [acc|] eqn:Eg; [|exact Hrest].
  destruct (Z.gtb_spec (unitsPerReplicaOf (model tk) acc (accelerator alloc)) 0);
    cbn [andb]; [|exact Hrest].
  destruct (Z.geb_spec (avail st (acc_Type acc))
              (unitsPerReplicaOf (model tk) acc (accelerator alloc))); [|exact Hrest].
  right. exists alloc, acc. split; [left|]. repeat split; [assumption|lia|lia].
Qed.

End RefusalFacts.

Section RoundRobinBound.
Import core solver props.

Variable sys : System.
Hypothesis Hcap : capacitiesValid sys.

(** What a visit does, in a state of the round-robin: either it grants
    nothing (the member has no ticket, or loses it) and leaves the store and
    the allocated tickets alone, or it grants one replica to the ticket of
    the member: the ticket as it was, if it was active, or as the scan over
    the candidates of the member activates it. *)
Lemma visit_cases (e : serverEntry) (rr rr' : rrState) :
  rrInv sys rr ->
  visit sys e rr = Ret rr' ->
  (tickets rr' !! serverName e = None /\
   allocatedTickets rr' = allocatedTickets rr /\ rr_store rr' = rr_store rr) \/
  exists tk0 tk tk' final acc srv,
    tickets rr !! serverName e = Some tk0 /\
    GetServer sys (serverName e) = Some srv /\
    GetModel sys (ModelName srv) = Some (model tk0) /\
    (tk = tk0 /\ allocatedTickets rr !! serverName e = Some tk0 \/
     ticket_numReplicas tk0 = 0 /\ allocatedTickets rr !! serverName e = None /\
     final ∈ allocations e) /\
    finalAlloc tk = Some final /\
    GetAccelerator sys (accelerator final) = Some acc /\
    accType tk = acc_Type acc /\
    unitsPerReplica tk = unitsPerReplicaOf (model tk0) acc (accelerator final) /\
    ticket_numReplicas tk = ticket_numReplicas tk0 /\
    0 < unitsPerReplica tk <= avail (rr_store rr) (accType tk) /\
    0 < numReplicas final /\
    0 <= ticket_numReplicas tk /\
    tk' = mkTicket (entry tk) (active tk) (server tk) (model tk) (accType tk)
            (unitsPerReplica tk) (ticket_numReplicas tk + 1) (finalAlloc tk) /\
    rr' = mkRR (<[serverName e := tk']> (tickets rr))
               (<[serverName e := tk']> (allocatedTickets rr))
               (deduct (accType tk) (unitsPerReplica tk) (rr_store rr)).
Proof.
  intros Hinv. unfold visit.
  destruct (tickets rr !! serverName e) as [tk0|] eqn:Et.
  2:{ intros [= <-]. left. auto. }
  destruct (rr_tickets _ _ Hinv _ _ Et) as (Hfresh & (srv & Es & Em) & Hact).
  set (ticket := if active tk0 then tk0 else _).
  assert (Hticket :
    active ticket = false \/
    active ticket = true /\
    exists final acc,
      (ticket = tk0 /\ allocatedTickets rr !! serverName e = Some tk0 \/
       ticket_numReplicas tk0 = 0 /\ allocatedTickets rr !! serverName e = None /\
       final ∈ allocations e) /\
      finalAlloc ticket = Some final /\
      GetAccelerator sys (accelerator final) = Some acc /\
      accType ticket = acc_Type acc /\
      unitsPerReplica ticket = unitsPerReplicaOf (model tk0) acc (accelerator final) /\
      ticket_numReplicas ticket = ticket_numReplicas tk0 /\
      0 < unitsPerReplica ticket /\ 0 <= ticket_numReplicas ticket).
  { subst ticket. destruct (active tk0) eqn:Ea.
    - right. split; [exact Ea|].
      destruct (rr_granted _ _ Hinv _ _ Hact)
        as [(srv' & acc & alloc & Es' & Em' & Ef & Eg & Ety & Eu & Hu & Hk) _].
      exists alloc, acc. repeat split; auto.
    - destruct Hact as [Hnone Hzero].
      destruct (activate_candidate sys tk0 (allocations e) (rr_store rr))
        as [->|(alloc & acc & Hin & Eg & Hu & ->)]; [now left|].
      right. split; [reflexivity|]. exists alloc, acc. cbn.
      repeat split; auto; lia. }
  clearbody ticket.
  destruct Hticket as [Hoff|[Hon (final & acc & Hprev & Ef & Eg & Ety & Eu & Ek & Hu & Hk)]].
  { rewrite Hoff. cbn [negb]. intros [= <-]. left. cbn. split; [|auto].
    apply lookup_delete_eq. }
  rewrite Hon. cbn [negb].
  destruct (Z.eqb_spec (unitsPerReplica ticket) 0) as [Hzero|_]; [lia|].
  rewrite Ef. cbn [deref bind].
  destruct (Z.gtb_spec (Z.min (GoInt.quot (avail (rr_store rr) (accType ticket))
                                 (unitsPerReplica ticket)) (numReplicas final)) 0)
    as [Hgrant|_].
  2:{ intros [= <-]. left. cbn. split; [|auto]. apply lookup_delete_eq. }
  intros [= <-].
  pose proof (rr_available _ _ Hinv (accType ticket)) as Hav.
  rewrite quot_exact in Hgrant by assumption.
  assert (Hfit : unitsPerReplica ticket <= avail (rr_store rr) (accType ticket)).
  { pose proof (Z.mul_div_le (avail (rr_store rr) (accType ticket))
                  (unitsPerReplica ticket) Hu). nia. }
  assert (Hpend : pendingUnits rr (accType ticket) =
            ticket_numReplicas ticket * unitsPerReplica ticket +
            sumZ (ticketUnits (accType ticket))
              (map_to_list (delete (serverName e) (allocatedTickets rr)))).
  { unfold pendingUnits. destruct Hprev as [[-> Hsome]|(Hzero & Hnone & _)].
    - rewrite (sumZ_map_lookup _ _ _ _ Hsome). unfold ticketUnits at 1. cbn [snd].
      now rewrite decide_True.
    - rewrite delete_id by exact Hnone. rewrite Ek, Hzero. lia. }
  assert (Hroom : ticket_numReplicas ticket + 1 <= GoInt.MaxInt).
  { pose proof (rr_units _ _ Hinv (accType ticket)) as Hbal.
    pose proof (rr_allocated _ _ Hinv (accType ticket)).
    pose proof (capacity_bound sys Hcap (accType ticket)).
    pose proof (pending_rest_nonneg sys rr (serverName e) (accType ticket) Hinv).
    rewrite Hpend in Hbal. nia. }
  rewrite add_exact by lia.
  assert (Hn : 0 < numReplicas final).
  { eapply Z.lt_le_trans; [exact Hgrant|apply Z.le_min_r]. }
  right. eexists tk0, ticket, _, final, acc, srv.
  split; [reflexivity|]. split; [exact Es|]. split; [exact Em|].
  split; [exact Hprev|]. split; [exact Ef|]. split; [exact Eg|].
  split; [exact Ety|]. split; [exact Eu|]. split; [exact Ek|].
  split; [lia|]. split; [exact Hn|]. split; [exact Hk|].
  split; [reflexivity|]. now rewrite Hon, Ef.
Qed.

(** A visit keeps the bound of the round-robin, and a visit after which the
    member still has its ticket has granted it one replica: one replica fits
    into what is available of the type of the ticket, is deducted from it,
    and the ticket held fewer replicas than its candidate asks for. *)
Lemma visit_bounded (all : list serverEntry) (e : serverEntry) (rr rr' : rrState) :
  rrInv sys rr -> rrBound sys all rr -> e ∈ all ->
  visit sys e rr = Ret rr' ->
  rrBound sys all rr' /\
  forall tk tk',
    tickets rr !! serverName e = Some tk ->
    tickets rr' !! serverName e = Some tk' ->
    ticket_numReplicas tk' = ticket_numReplicas tk + 1 /\
    0 < unitsPerReplica tk' <= avail (rr_store rr) (accType tk') /\
    avail (rr_store rr') (accType tk') =
      avail (rr_store rr) (accType tk') - unitsPerReplica tk' /\
    exists final,
      finalAlloc tk' = Some final /\ ticket_numReplicas tk < numReplicas final.
Proof.
  intros Hinv Hb He Hrun.
  destruct (visit_cases e rr rr' Hinv Hrun)
    as [(Hnone & Hal & Hst)|(tk0 & tk & tk' & final & acc & srv & Et & Es & Em & Hprev
                              & Ef & Eg & Ety & Eu & Ek & Hu & Hn & Hk & -> & ->)].
  { split.
    - split.
      + rewrite Hst. apply (rb_refused _ _ _ Hb).
      + rewrite Hal, Hst. apply (rb_below _ _ _ Hb).
    - intros tkA tkB _ HB. rewrite Hnone in HB. discriminate HB. }
  pose proof (rr_available _ _ Hinv (accType tk)) as Hav.
  assert (Hbelow :
    ticket_numReplicas tk * unitsPerReplica tk + avail (rr_store rr) (accType tk)
      < numReplicas final * unitsPerReplica tk /\
    exists e1, e1 ∈ all /\ serverName e1 = serverName e /\ final ∈ allocations e1).
  { destruct Hprev as [[-> Hsome]|(Hzero & Hnone & Hin)].
    - destruct (rb_below _ _ _ Hb _ _ Hsome)
        as (e1 & final1 & He1 & Hname & Ef1 & Hin1 & Hlt).
      rewrite Ef in Ef1. injection Ef1 as <-. split; [exact Hlt|]. eauto.
    - split; [|exists e; auto]. rewrite Ek, Hzero.
      pose proof (rb_refused _ _ _ Hb e He final Hin srv (model tk0) acc Es Em Eg) as Hr.
      unfold unitCount in Hr. rewrite <- Eu, <- Ety in Hr.
      apply refusal_exact in Hr; lia. }
  destruct Hbelow as [Hlt (e1 & He1 & Hname & Hin1)].
  assert (Hle : forall t, avail (deduct (accType tk) (unitsPerReplica tk) (rr_store rr)) t
                          <= avail (rr_store rr) t).
  { intros t. apply avail_deduct_le; lia. }
  assert (Hown : avail (deduct (accType tk) (unitsPerReplica tk) (rr_store rr)) (accType tk)
                 = avail (rr_store rr) (accType tk) - unitsPerReplica tk).
  { rewrite avail_deduct, decide_True by reflexivity. apply sub_exact; lia. }
  split.
  - split; cbn [rr_store allocatedTickets].
    + intros e2 He2. eapply refused_le; [exact Hle|]. now apply (rb_refused _ _ _ Hb).
    + intros name tk1. destruct (decide (serverName e = name)) as [<-|Hne].
      * rewrite lookup_insert_eq. intros [= <-]. exists e1, final.
        cbn [finalAlloc ticket_numReplicas unitsPerReplica accType].
        split; [exact He1|]. split; [exact Hname|]. split; [exact Ef|].
        split; [exact Hin1|]. rewrite Hown, Z.mul_add_distr_r. lia.
      * rewrite lookup_insert_ne by exact Hne. intros Hl.
        destruct (rb_below _ _ _ Hb _ _ Hl) as (e2 & f2 & He2 & Hn2 & Ef2 & Hin2 & Hlt2).
        exists e2, f2. repeat split; auto. specialize (Hle (accType tk1)). lia.
  - intros tkA tkB HA HB. rewrite Et in HA. injection HA as <-.
    cbn [tickets] in HB. rewrite lookup_insert_eq in HB. injection HB as <-.
    cbn [finalAlloc ticket_numReplicas unitsPerReplica accType rr_store].
    split; [lia|]. split; [exact Hu|]. split; [exact Hown|].
    exists final. split; [exact Ef|]. rewrite <- Ek. nia.
Qed.

Lemma round_bounded (all es : list serverEntry) (rr rr' : rrState) :
  (forall e, e ∈ es -> e ∈ all) ->
  rrInv sys rr -> rrBound sys all rr ->
  round sys es rr = Ret rr' ->
  rrInv sys rr' /\ rrBound sys all rr'.
Proof.
  revert rr. induction es as [|e es IH]; intros rr Hsub Hinv Hb; cbn [round].
  { intros [= <-]. auto. }
  destruct (visit sys e rr) as [rr1| |] eqn:E; try discriminate. cbn [bind].
  destruct (visit_rrInv sys Hcap _ _ _ Hinv E) as (Hinv1 & _).
  destruct (visit_bounded all e rr rr1 Hinv Hb (Hsub e ltac:(left)) E) as [Hb1 _].
  apply IH; auto. intros e' He'. apply Hsub. now right.
Qed.

Lemma roundRobin_bounded (fuel : nat) (all es : list serverEntry) (rr rr' : rrState) :
  (forall e, e ∈ es -> e ∈ all) ->
  rrInv sys rr -> rrBound sys all rr ->
  roundRobin sys fuel es rr = Ret rr' ->
  rrInv sys rr' /\ rrBound sys all rr'.
Proof.
  intros Hsub. revert rr. induction fuel as [|fuel IH]; intros rr Hinv Hb;
    cbn [roundRobin]; [discriminate|].
  destruct (size (tickets rr) =? 0)%nat.
  { intros [= <-]. auto. }
  destruct (round sys es rr) as [rr1| |] eqn:E; try discriminate. cbn [bind].
  destruct (round_bounded all es rr rr1 Hsub Hinv Hb E) as [Hinv1 Hb1].
  now apply IH.
Qed.

(** Every state that the round-robin can reach satisfies its invariants. *)
Lemma rrReach_bounded (all es : list serverEntry) (rr0 rr : rrState) :
  (forall e, e ∈ es -> e ∈ all) ->
  rrInv sys rr0 -> rrBound sys all rr0 ->
  rrReach sys es rr0 rr ->
  rrInv sys rr /\ rrBound sys all rr.
Proof.
  intros Hsub Hinv Hb. induction 1 as [|rr rr' e Hreach IH He Hv]; [auto|].
  destruct IH as [Hinv1 Hb1]. split.
  - now destruct (visit_rrInv sys Hcap _ _ _ Hinv1 Hv).
  - now destruct (visit_bounded all e rr rr' Hinv1 Hb1 (Hsub e He) Hv).
Qed.

(** The states of a run of the procedure are among the reachable ones. *)
Lemma round_rrReach (es0 es : list serverEntry) (rr0 rr rr' : rrState) :
  (forall e, e ∈ es -> e ∈ es0) ->
  rrReach sys es0 rr0 rr ->
  round sys es rr = Ret rr' ->
  rrReach sys es0 rr0 rr'.
Proof.
  revert rr. induction es as [|e es IH]; intros rr Hsub Hreach; cbn [round].
  { now intros [= <-]. }
  destruct (visit sys e rr) as [rr1| |] eqn:E; try discriminate. cbn [bind].
  apply IH.
  - intros e' He'. apply Hsub. now right.
  - eapply rrReach_visit; [exact Hreach| |exact E]. apply Hsub. left.
Qed.

Lemma roundRobin_rrReach (fuel : nat) (es : list serverEntry) (rr0 rr rr' : rrState) :
  rrReach sys es rr0 rr ->
  roundRobin sys fuel es rr = Ret rr' ->
  rrReach sys es rr0 rr'.
Proof.
  revert rr. induction fuel as [|fuel IH]; intros rr Hreach; cbn [roundRobin];
    [discriminate|].
  destruct (size (tickets rr) =? 0)%nat.
  { now intros [= <-]. }
  destruct (round sys es rr) as [rr1| |] eqn:E; try discriminate. cbn [bind].
  apply IH. eapply round_rrReach; [|exact Hreach|exact E]. auto.
Qed.

(** The state in which the round-robin starts. *)
Lemma rrInv_init (es : list serverEntry) (st : store)
    (tks : gmap string serverAllocationTicket) :
  unitInv sys st ->
  (forall e, e ∈ es -> allocation st !! serverName e = None) ->
  createTickets sys es ∅ = Ret tks ->
  rrInv sys (mkRR tks ∅ st).
Proof.
  intros Hu Hfresh Ec. split; cbn [rr_store allocatedTickets tickets].
  - apply (inv_available _ _ Hu).
  - apply (inv_allocated _ _ Hu).
  - intros t. unfold pendingUnits. cbn [allocatedTickets].
    rewrite map_to_list_empty. cbn. pose proof (inv_units _ _ Hu t). lia.
  - intros n tk Hl. rewrite lookup_empty in Hl. discriminate Hl.
  - intros n tk Hl.
    destruct (createTickets_spec sys _ _ _ Ec n tk Hl)
      as [Hl0|(Hin & Hoff & Hzero & Hsrv)].
    { rewrite lookup_empty in Hl0. discriminate Hl0. }
    apply list_elem_of_fmap in Hin as (e & -> & Hin).
    split; [now apply Hfresh|]. split; [exact Hsrv|].
    rewrite Hoff. split; [apply lookup_empty|exact Hzero].
Qed.

Lemma rrBound_init (all : list serverEntry) (st : store)
    (tks : gmap string serverAllocationTicket) :
  (forall e, e ∈ all -> refused sys st e) ->
  rrBound sys all (mkRR tks ∅ st).
Proof.
  intros Hr. split; cbn [rr_store allocatedTickets]; [exact Hr|].
  intros n tk Hl. rewrite lookup_empty in Hl. discriminate Hl.
Qed.

(** The last loop writes, into the slot of each allocated member, the
    candidate of its ticket with the replica count of the ticket. *)
Lemma commitTickets_slots (l : list (string * serverAllocationTicket))
    (st st' : store) :
  commitTickets l st = Ret st' ->
  (forall t, avail st' t = avail st t) /\
  forall n a, allocation st' !! n = Some a ->
    allocation st !! n = Some a \/
    exists tk final,
      (n, tk) ∈ l /\ finalAlloc tk = Some final /\
      accelerator a = accelerator final /\ numReplicas a = ticket_numReplicas tk.
Proof.
  revert st. induction l as [|[n0 tk0] l IH]; intros st; cbn [commitTickets].
  { intros [= <-]. auto. }
  unfold commitTicket.
  destruct (finalAlloc tk0) as [final|] eqn:Ef; [|discriminate]. cbn [deref bind].
  intros Hrun. destruct (IH _ Hrun) as [Hav Hslots]. split.
  - intros t. now rewrite Hav.
  - intros n a Hl. destruct (Hslots n a Hl) as [Hold|(tk & f & Hin & Hf & Ha & Hk)].
    + cbn [SetAllocation allocation] in Hold.
      destruct (decide (n0 = n)) as [<-|Hne].
      * rewrite lookup_insert_eq in Hold. injection Hold as <-.
        right. exists tk0, final. split; [left|]. auto.
      * rewrite lookup_insert_ne in Hold by exact Hne. now left.
    + right. exists tk, f. split; [now right|]. auto.
Qed.

(** The round-robin over a group [es] of the unallocated servers [all]:
    it leaves every candidate of every server of [all] refused, and a slot
    that it fills holds a candidate of the member with fewer replicas than
    the candidate asks for. *)
Lemma processUnallocatedServerGroup_below (all es : list serverEntry) (st st' : store) :
  (forall e, e ∈ es -> e ∈ all) ->
  unitInv sys st ->
  (forall e, e ∈ es -> allocation st !! serverName e = None) ->
  (forall e, e ∈ all -> refused sys st e) ->
  processUnallocatedServerGroup sys es st = Ret st' ->
  (forall e, e ∈ all -> refused sys st' e) /\
  forall n a, allocation st' !! n = Some a ->
    allocation st !! n = Some a \/
    exists e c,
      e ∈ all /\ serverName e = n /\ c ∈ allocations e /\
      accelerator a = accelerator c /\
      0 <= numReplicas a < numReplicas c.
Proof.
  intros Hsub Hu Hfresh Href. unfold processUnallocatedServerGroup.
  destruct (createTickets sys es ∅) as [tks| |] eqn:Ec; try discriminate. cbn [bind].
  destruct (roundRobin sys _ es _) as [rr| |] eqn:Er; try discriminate. cbn [bind].
  intros Hrun.
  pose proof (rrInv_init es st tks Hu Hfresh Ec) as Hinit.
  pose proof (rrBound_init all st tks Href) as Hbinit.
  destruct (roundRobin_bounded _ all es _ _ Hsub Hinit Hbinit Er) as [Hinv Hb].
  destruct (roundRobin_rrInv sys Hcap _ _ _ _ Hinit Er) as (_ & Hslots & _).
  cbn [rr_store] in Hslots.
  destruct (commitTickets_slots _ _ _ Hrun) as [Hav Hnew]. split.
  - intros e He. eapply refused_le; [|apply (rb_refused _ _ _ Hb e He)].
    intros t. rewrite Hav. lia.
  - intros n a Hl. destruct (Hnew n a Hl) as [Hold|(tk & f & Hin & Hf & Ha & Hk)].
    { left. now rewrite <- Hslots. }
    right. apply elem_of_map_to_list in Hin.
    destruct (rb_below _ _ _ Hb _ _ Hin) as (e & final & He & Hname & Ef & Hc & Hlt).
    rewrite Hf in Ef. injection Ef as <-.
    destruct (rr_granted _ _ Hinv _ _ Hin) as [(_ & _ & _ & _ & _ & _ & _ & _ & _ & Hpos & Hnn) _].
    pose proof (rr_available _ _ Hinv (accType tk)).
    exists e, f. repeat split; auto; [lia|]. rewrite Hk. nia.
Qed.

End RoundRobinBound.

Section MainPassRefusals.
Import core solver props.

Variable SortFunc : forall E : Type, (E -> E -> comparison) -> list E -> list E.
Variable sys : System.
Hypothesis Hsort : sortPermutes SortFunc.
Hypothesis Hdistinct : serversDistinct sys.
Hypothesis Hcap : capacitiesValid sys.
Hypothesis Hcounts : countsValid sys.

Lemma refusedAt_le (st st' : store) (e : serverEntry) (c : Allocation) :
  (forall t, avail st' t <= avail st t) -> refusedAt sys st e c -> refusedAt sys st' e c.
Proof.
  intros Hle Hr srv mdl acc Es Em Eg.
  specialize (Hr srv mdl acc Es Em Eg). specialize (Hle (acc_Type acc)). lia.
Qed.

(** The main loop refuses a candidate before it moves an entry past it, and
    what is available never grows: when the loop returns, every candidate of
    every unallocated server is refused. *)
Lemma greedyLoop_refused (fuel : nat) (es un un' : list serverEntry) (st st' : store) :
  slotInv sys es un st -> unitInv sys st ->
  (forall e, e ∈ un -> refused sys st e) ->
  (forall e i c, e ∈ es -> (i < curIndex e)%nat -> allocations e !! i = Some c ->
     refusedAt sys st e c) ->
  greedyLoop sys fuel es un st = Ret (un', st') ->
  forall e, e ∈ un' -> refused sys st' e.
Proof.
  intros Hs Hu Hun Hes Hrun.
  cut (slotInv sys [] un' st' /\ unitInv sys st' /\
       (forall e, e ∈ un' -> refused sys st' e) /\
       (forall e i c, e ∈ [] -> (i < curIndex e)%nat -> allocations e !! i = Some c ->
          refusedAt sys st' e c)).
  { intros (_ & _ & H & _). exact H. }
  revert Hrun.
  apply (greedyLoop_invariant_refusing sys
           (fun es un st =>
              slotInv sys es un st /\ unitInv sys st /\
              (forall e, e ∈ un -> refused sys st e) /\
              (forall e i c, e ∈ es -> (i < curIndex e)%nat ->
                 allocations e !! i = Some c -> refusedAt sys st e c)));
    [| | | |auto].
  - intros top es0 un0 st0 (H1 & H2 & H3 & H4).
    split; [eapply slotInv_drop; eauto|]. split; [exact H2|]. split; [exact H3|].
    intros e i c He. apply H4. now right.
  - intros top es0 un0 st0 srv mdl alloc acc (H1 & H2 & H3 & H4) Es Em Ea Eg Hle.
    destruct (inv_entries _ _ _ _ H1 top ltac:(left)) as [Hfresh (srv' & Es' & Hsub)].
    rewrite Es in Es'. injection Es' as <-.
    assert (Hc : 0 <= unitCount mdl acc alloc).
    { eapply Hcounts; eauto. apply Hsub. eapply list_elem_of_lookup_2. exact Ea. }
    pose proof (inv_available _ _ H2 (acc_Type acc)) as Hav.
    assert (Hdown : forall t,
      avail (SetAllocation (serverName top) alloc
               (deduct (acc_Type acc) (unitCount mdl acc alloc) st0)) t <= avail st0 t).
    { intros t. rewrite avail_SetAllocation. apply avail_deduct_le; lia. }
    split; [eapply slotInv_assign; eauto|].
    split; [eapply unitInv_assign; eauto|].
    split.
    + intros e He. eapply refused_le; [exact Hdown|]. now apply H3.
    + intros e i c He Hi Hl. eapply refusedAt_le; [exact Hdown|].
      eapply H4; eauto. now right.
  - intros top es0 un0 st0 srv mdl alloc acc k d (H1 & H2 & H3 & H4) Es Em Ea Eg Hlt _ _.
    split; [now apply slotInv_next|]. split; [exact H2|]. split; [exact H3|].
    intros e i c He Hi Hl. rewrite Insert_Permutation in He.
    apply elem_of_cons in He as [->|He]; [|eapply H4; eauto; now right].
    cbn [setCurIndexDelta curIndex allocations] in Hi, Hl.
    destruct (decide (i = curIndex top)) as [->|Hne].
    + rewrite Ea in Hl. injection Hl as <-.
      intros srv' mdl' acc' Es' Em' Eg'. cbn [setCurIndexDelta serverName] in Es'.
      rewrite Es in Es'. injection Es' as <-. rewrite Em in Em'. injection Em' as <-.
      rewrite Eg in Eg'. injection Eg' as <-. exact Hlt.
    + assert (Hold : refusedAt sys st0 top c).
      { apply (H4 top i c); [left|lia|exact Hl]. }
      exact Hold.
  - intros top es0 un0 st0 srv mdl alloc acc (H1 & H2 & H3 & H4) Es Em Ea Eg Hlt Hlen.
    split; [now apply slotInv_out|]. split; [exact H2|]. split.
    + intros e [He| ->%list_elem_of_singleton]%elem_of_app; [now apply H3|].
      intros c Hc. cbn [setCurIndexDelta allocations] in Hc.
      apply list_elem_of_lookup_1 in Hc as [i Hl].
      pose proof (lookup_lt_Some _ _ _ Hl) as Hi.
      destruct (decide (i = curIndex top)) as [->|Hne].
      * rewrite Ea in Hl. injection Hl as <-.
        intros srv' mdl' acc' Es' Em' Eg'. cbn [setCurIndexDelta serverName] in Es'.
        rewrite Es in Es'. injection Es' as <-. rewrite Em in Em'. injection Em' as <-.
        rewrite Eg in Eg'. injection Eg' as <-. exact Hlt.
      * assert (Hold : refusedAt sys st0 top c).
        { apply (H4 top i c); [left|lia|exact Hl]. }
        exact Hold.
    + intros e i c He. apply H4. now right.
Qed.

(** The main pass hands the unallocated servers over in a saturated state. *)
Lemma mainPass_saturated (previous : gmap string Allocation) (un : list serverEntry)
    (st : store) :
  mainPass SortFunc sys previous = Ret (un, st) -> saturated sys un st.
Proof.
  intros Hrun.
  destruct (mainPass_unitInv SortFunc sys Hsort Hdistinct Hcap Hcounts _ _ _ Hrun)
    as [Hs Hu].
  split; [exact Hu|exact (inv_names _ _ _ _ Hs)| | |].
  - intros e He. destruct (inv_entries _ _ _ _ Hs e He) as [_ (srv & Es & _)]. eauto.
  - intros e He. now apply (inv_entries _ _ _ _ Hs e).
  - unfold mainPass in Hrun.
    pose proof (buildEntries_slotInv SortFunc sys Hsort Hdistinct previous) as H.
    pose proof (buildEntries_eq SortFunc (GetServers sys) []
                  (mkStore (GetCapacities sys) previous)) as Heq.
    destruct (buildEntries _ _ _ _) as [es st1]. destruct H as (H & Hav & Hreg).
    injection Heq as Hes _. cbn [app] in Hes.
    eapply greedyLoop_refused; [| | | |exact Hrun].
    + eapply slotInv_Permutation; [symmetry; apply Hsort|exact H].
    + split.
      * intros t. unfold avail. rewrite Hav.
        destruct (GetCapacities sys !! t) as [c|] eqn:E; cbn [default].
        -- eapply Hcap; eauto.
        -- pose proof MaxInt_pos. lia.
      * intros t. unfold allocatedUnits. rewrite sumZ_zero; [reflexivity|].
        intros [name a] Hin%elem_of_map_to_list. cbn [allocUnits].
        now rewrite (Hreg _ _ Hin).
      * intros t. unfold allocatedUnits, capacity, avail. rewrite Hav.
        rewrite sumZ_zero; [reflexivity|].
        intros [name a] Hin%elem_of_map_to_list. cbn [allocUnits].
        now rewrite (Hreg _ _ Hin).
    + intros e He. inversion He.
    + intros e i c He Hi. exfalso. rewrite (Hsort _ _ _) in He. subst es.
      apply list_elem_of_omap in He as ((name, srv) & _ & E).
      apply newEntry_Some in E as (_ & E & _); [|exact Hsort]. lia.
Qed.

End MainPassRefusals.

Section SaturatedGroups.
Import core solver props.

Variable sys : System.
Hypothesis Hcap : capacitiesValid sys.

Lemma NoDup_fmap_elem {A B} (f : A -> B) (l : list A) (x y : A) :
  NoDup (f <$> l) -> x ∈ l -> y ∈ l -> f x = f y -> x = y.
Proof.
  induction l as [|a l IH]; cbn [fmap list_fmap]; intros Hnd Hx Hy Heq.
  { inversion Hx. }
  apply NoDup_cons in Hnd as [Hnew Hnd].
  apply elem_of_cons in Hx as [->|Hx]; apply elem_of_cons in Hy as [->|Hy]; auto.
  - exfalso. apply Hnew. rewrite Heq. now apply list_elem_of_fmap_2.
  - exfalso. apply Hnew. rewrite <- Heq. now apply list_elem_of_fmap_2.
Qed.

(** A group of servers of a saturated state is in a saturated state. *)
Lemma saturated_group (g rest : list serverEntry) (st : store) :
  saturated sys (g ++ rest) st -> saturated sys g st.
Proof.
  intros [H1 H2 H0 H3 H4]. split; [exact H1| | | |].
  - rewrite fmap_app in H2. now apply NoDup_app in H2 as (H2 & _ & _).
  - intros e He. apply H0. apply elem_of_app. now left.
  - intros e He. apply H3. apply elem_of_app. now left.
  - intros e He. apply H4. apply elem_of_app. now left.
Qed.

(** The round-robin over a group leaves the servers after the group in a
    saturated state. *)
Lemma processUnallocatedServerGroup_saturated (g rest : list serverEntry)
    (st st' : store) :
  saturated sys (g ++ rest) st ->
  processUnallocatedServerGroup sys g st = Ret st' ->
  saturated sys rest st'.
Proof.
  intros [H1 H2 H0 H3 H4] Hrun.
  assert (Hg : forall e, e ∈ g -> e ∈ g ++ rest).
  { intros e He. apply elem_of_app. now left. }
  destruct (processUnallocatedServerGroup_unitInv sys Hcap g st st') as [Hu Hsame]; auto.
  destruct (processUnallocatedServerGroup_below sys Hcap (g ++ rest) g st st')
    as [Href _]; auto.
  rewrite fmap_app in H2. apply NoDup_app in H2 as (_ & Hdisj & Hnd).
  split; [exact Hu|exact Hnd| | |].
  - intros e He. apply H0. apply elem_of_app. now right.
  - intros e He. rewrite Hsame.
    + apply H3. apply elem_of_app. now right.
    + intros Hin. apply (Hdisj _ Hin). now apply list_elem_of_fmap_2.
  - intros e He. apply Href. apply elem_of_app. now right.
Qed.

(** The round-robin by priority groups: a slot that it fills holds a
    candidate of the server with fewer replicas than the candidate asks
    for. *)
Lemma groupsLoop_below (fuel : nat) (es : list serverEntry) (st st' : store) :
  saturated sys es st ->
  groupsLoop sys fuel es st = Ret st' ->
  forall n a, allocation st' !! n = Some a ->
    allocation st !! n = Some a \/
    exists e c,
      e ∈ es /\ serverName e = n /\ c ∈ allocations e /\
      accelerator a = accelerator c /\
      0 <= numReplicas a < numReplicas c.
Proof.
  revert es st. induction fuel as [|fuel IH]; intros es st Hsat;
    cbn [groupsLoop]; [discriminate|].
  destruct es as [|e l]; [intros [= <-]; auto|].
  destruct (splitGroup (priority e) l) as [g rest] eqn:Eg.
  apply splitGroup_app in Eg. subst l.
  destruct (processUnallocatedServerGroup sys (e :: g) st) as [st1| |] eqn:E;
    try discriminate.
  cbn [bind]. intros Hrun n a Hl.
  rewrite app_comm_cons in Hsat.
  pose proof (processUnallocatedServerGroup_saturated _ _ _ _ Hsat E) as Hsat1.
  destruct (IH _ _ Hsat1 Hrun n a Hl) as [Hold|(e1 & c & He1 & Hrest)].
  - destruct Hsat as [H1 H2 H0 H3 H4].
    assert (Hg : forall e', e' ∈ e :: g -> e' ∈ (e :: g) ++ rest).
    { intros e' He'. apply elem_of_app. now left. }
    destruct (processUnallocatedServerGroup_below sys Hcap ((e :: g) ++ rest) (e :: g)
                st st1 Hg H1 (fun e' He' => H3 e' (Hg e' He')) H4 E) as [_ Hnew].
    destruct (Hnew n a Hold) as [Hn|Hn]; [now left|right; exact Hn].
  - right. exists e1, c. split; [|exact Hrest].
    rewrite app_comm_cons. apply elem_of_app. now right.
Qed.

(** C4 (as amended): the round-robin procedure, started as [SolveGreedy]
    starts it, in a state in which every candidate of every member asks for
    more units than are available of its type ([mainPass_saturated] for the
    servers that the main pass leaves unallocated, [saturated_group] and
    [processUnallocatedServerGroup_saturated] for the priority groups). The
    procedure returns. In every state that its visits can reach, a visit
    that leaves the member its ticket has granted the ticket exactly one
    replica, and at that grant one replica fitted into [available[accType]]
    and the ticket held fewer replicas than its candidate [finalAlloc] asks
    for. So every member that ends the procedure with an allocation holds
    one of its candidates with a replica count below, and hence not above,
    the count that the candidate had. *)
Theorem processUnallocatedServerGroup_below_candidate (es : list serverEntry)
    (st : store) :
  saturated sys es st ->
  (exists st', processUnallocatedServerGroup sys es st = Ret st') /\
  (forall tks rr e rr' tk tk',
     createTickets sys es ∅ = Ret tks ->
     rrReach sys es (mkRR tks ∅ st) rr ->
     e ∈ es ->
     visit sys e rr = Ret rr' ->
     tickets rr !! serverName e = Some tk ->
     tickets rr' !! serverName e = Some tk' ->
     ticket_numReplicas tk' = ticket_numReplicas tk + 1 /\
     unitsPerReplica tk' <= avail (rr_store rr) (accType tk') /\
     exists final,
       finalAlloc tk' = Some final /\ ticket_numReplicas tk < numReplicas final) /\
  (forall st' e a,
     processUnallocatedServerGroup sys es st = Ret st' ->
     e ∈ es ->
     allocation st' !! serverName e = Some a ->
     exists c,
       c ∈ allocations e /\ accelerator a = accelerator c /\
       numReplicas a < numReplicas c).
Proof.
  intros [H1 H2 H0 H3 H4]. split; [|split].
  - apply processUnallocatedServerGroup_returns; auto.
  - intros tks rr e rr' tk tk' Ec Hreach He Hv Htk Htk'.
    destruct (rrReach_bounded sys Hcap es es _ rr (fun _ H => H)
                (rrInv_init sys es st tks H1 H3 Ec) (rrBound_init sys es st tks H4) Hreach)
      as [Hinv Hb].
    destruct (visit_bounded sys Hcap es e rr rr' Hinv Hb He Hv) as [_ Hgrant].
    destruct (Hgrant tk tk' Htk Htk') as (Hk & Hu & _ & final & Ef & Hlt).
    split; [exact Hk|]. split; [lia|]. eauto.
  - intros st' e a Hrun He Hl.
    destruct (processUnallocatedServerGroup_below sys Hcap es es st st'
                (fun _ H => H) H1 H3 H4 Hrun) as [_ Hnew].
    destruct (Hnew _ _ Hl) as [Hold|(e1 & c & He1 & Hname & Hc & Ha & Hlt)].
    { rewrite (H3 e He) in Hold. discriminate Hold. }
    assert (e1 = e) as -> by (eapply (NoDup_fmap_elem serverName); eauto).
    exists c. repeat split; auto; lia.
Qed.

End SaturatedGroups.

Section SolveBelowCandidate.
Import core solver props.

Variable SortFunc : forall E : Type, (E -> E -> comparison) -> list E -> list E.
Variable sys : System.
Hypothesis Hsort : sortPermutes SortFunc.
Hypothesis Hdistinct : serversDistinct sys.
Hypothesis Hcap : capacitiesValid sys.
Hypothesis Hcounts : countsValid sys.

(** Within a solve under either round-robin policy, the slot of a server
    that the main pass left empty and the saturation filled holds one of the
    candidates of the server with fewer replicas than the candidate asks
    for. *)
Lemma SolveGreedy_roundRobin_below (policy : SaturatedAllocationPolicy)
    (previous : gmap string Allocation) (st : store) :
  policy = RoundRobin \/ policy = PriorityRoundRobin ->
  SolveGreedy SortFunc sys policy previous = Ret st ->
  exists un st1,
    mainPass SortFunc sys previous = Ret (un, st1) /\
    saturated sys un st1 /\
    forall n a, allocation st !! n = Some a ->
      allocation st1 !! n = Some a \/
      exists e c,
        e ∈ un /\ serverName e = n /\ c ∈ allocations e /\
        accelerator a = accelerator c /\
        0 <= numReplicas a < numReplicas c.
Proof.
  intros Hpol. unfold SolveGreedy.
  destruct (mainPass SortFunc sys previous) as [[un st1]| |] eqn:E; try discriminate.
  cbn [bind]. intros Hrun. exists un, st1. split; [reflexivity|].
  pose proof (mainPass_saturated SortFunc sys Hsort Hdistinct Hcap Hcounts _ _ _ E) as Hsat.
  split; [exact Hsat|].
  destruct Hpol as [-> | ->].
  - destruct Hsat as [H1 H2 H0 H3 H4].
    destruct (processUnallocatedServerGroup_below sys Hcap un un st1 st) as [_ Hnew]; auto.
  - eapply groupsLoop_below; eauto.
Qed.

End SolveBelowCandidate.

Section BelowCandidateAtInputs.
Import core solver props examples.
Local Open Scope string_scope.

(** C4 (as amended) at a concrete system: one unit of A100 and a server
    whose candidate asks for two replicas of one unit. The main pass refuses
    the candidate, the round-robin grants the one replica that fits, and the
    server ends with one replica of its candidate. *)
Lemma processUnallocatedServerGroup_below_candidate_at_sysTwoMin :
  let e := mkEntry "Premium-g13b" 1 1 [twoMin] MaxFloat32 in
  let st := mkStore {["A100" := 1]} ∅ in
  capacitiesValid sysTwoMin /\
  mainPass insertionSort sysTwoMin ∅ = Ret ([e], st) /\
  saturated sysTwoMin [e] st /\
  (exists tks rr' tk tk',
     createTickets sysTwoMin [e] ∅ = Ret tks /\
     visit sysTwoMin e (mkRR tks ∅ st) = Ret rr' /\
     tks !! "Premium-g13b" = Some tk /\
     tickets rr' !! "Premium-g13b" = Some tk' /\
     ticket_numReplicas tk = 0 /\ ticket_numReplicas tk' = 1 /\
     unitsPerReplica tk' <= avail st (accType tk') /\
     exists final,
       finalAlloc tk' = Some final /\ ticket_numReplicas tk < numReplicas final) /\
  exists st' a,
    processUnallocatedServerGroup sysTwoMin [e] st = Ret st' /\
    allocation st' !! "Premium-g13b" = Some a /\
    numReplicas a = 1 /\ numReplicas a < numReplicas twoMin.
Proof.
  intros e st.
  assert (E : mainPass insertionSort sysTwoMin ∅ = Ret ([e], st))
    by (vm_compute; reflexivity).
  pose proof (mainPass_saturated insertionSort sysTwoMin insertionSort_Permutation
                serversDistinct_sysTwoMin capacitiesValid_sysTwoMin
                countsValid_sysTwoMin _ _ _ E) as Hsat.
  destruct (processUnallocatedServerGroup_below_candidate sysTwoMin
              capacitiesValid_sysTwoMin [e] st Hsat) as ((st' & Hret) & Hgrant & Hfinal).
  split; [exact capacitiesValid_sysTwoMin|]. split; [exact E|]. split; [exact Hsat|].
  split.
  - destruct (createTickets sysTwoMin [e] ∅) as [tks| |] eqn:Ec;
      [|vm_compute in Ec; discriminate Ec..].
    destruct (visit sysTwoMin e (mkRR tks ∅ st)) as [rr'| |] eqn:Ev;
      [|pose proof Ec as Ec'; vm_compute in Ec'; injection Ec' as <-;
        vm_compute in Ev; discriminate Ev..].
    destruct (tks !! "Premium-g13b") as [tk|] eqn:Et;
      [|pose proof Ec as Ec'; vm_compute in Ec'; injection Ec' as <-;
        vm_compute in Et; discriminate Et].
    destruct (tickets rr' !! "Premium-g13b") as [tk'|] eqn:Et';
      [|pose proof Ec as Ec'; vm_compute in Ec'; injection Ec' as <-;
        vm_compute in Ev; injection Ev as <-; vm_compute in Et'; discriminate Et'].
    destruct (Hgrant tks (mkRR tks ∅ st) e rr' tk tk' eq_refl
                (rrReach_start _ _ _) ltac:(left) Ev Et Et')
      as (Hk & Hu & final & Ef & Hlt).
    assert (Hzero : ticket_numReplicas tk = 0).
    { pose proof Ec as Ec'. vm_compute in Ec'. injection Ec' as <-.
      vm_compute in Et. injection Et as <-. reflexivity. }
    exists tks, rr', tk, tk'. repeat split; auto; [lia|]. eauto.
  - destruct (allocation st' !! "Premium-g13b") as [a|] eqn:Ea;
      [|pose proof Hret as Hret'; vm_compute in Hret'; injection Hret' as <-;
        vm_compute in Ea; discriminate Ea].
    destruct (Hfinal st' e a Hret ltac:(left) Ea) as (c & Hc & _ & Hlt).
    apply list_elem_of_singleton in Hc as ->.
    exists st', a. split; [exact Hret|]. split; [exact Ea|]. split; [|exact Hlt].
    pose proof Hret as Hret'. vm_compute in Hret'. injection Hret' as <-.
    vm_compute in Ea. injection Ea as <-. reflexivity.
Defined.

End BelowCandidateAtInputs.

(** * Further properties of [allocation.go] *)

Section DataAndDiffs.
Import core.

(** X1: an [AllocationData] turned into an allocation and back keeps its
    accelerator, replica count, batch size, cost and the two averages, and
    loses its load data, which comes back as Go's zero value: neither
    function copies it. So the round trip gives the same data exactly when
    the load data was the zero value. *)
Theorem AllocationData_AllocationFromData (d : AllocationData) :
  AllocationData_of (AllocationFromData d) =
    mkAllocationData (data_Accelerator d) (data_NumReplicas d) (data_MaxBatch d)
      (data_Cost d) (data_ITLAverage d) (data_WaitAverage d) zeroLoad /\
  (AllocationData_of (AllocationFromData d) = d <-> data_Load d = zeroLoad).
Proof.
  destruct d as [g n b c i w ld]. cbn. split; [reflexivity|]. split.
  - now intros [= <-].
  - now intros ->.
Qed.

(** X3: the difference in the other direction has the two ends exchanged and
    the opposite cost difference; the only pair without a difference is nil
    and nil. *)
Theorem CreateAllocationDiff_reverse (a b : option Allocation) :
  match CreateAllocationDiff a b, CreateAllocationDiff b a with
  | Some d, Some d' =>
      oldAccelerator d' = newAccelerator d /\ newAccelerator d' = oldAccelerator d /\
      oldNumReplicas d' = newNumReplicas d /\ newNumReplicas d' = oldNumReplicas d /\
      (costDiff d' == - costDiff d)%Q
  | None, None => a = None /\ b = None
  | _, _ => False
  end.
Proof.
  destruct a as [a|], b as [b|]; cbn; repeat split; ring.
Qed.

End DataAndDiffs.

Section EvaluatorResults.
Import core props.

Variable MaxQueueToBatchRatio : Z.
Variables Delta StabilitySafetyFraction SLOMargin : Q.
Variable Solve : MM1ModelStateDependent -> Q -> QueueStats.
Variable BinarySearch : Q -> Q -> Q -> (Q -> option Q) -> Q * Z * bool.
Variable sys : System.

(** The comparisons of the sources, as propositions. *)
Lemma Qltb_false (x y : Q) : Qltb x y = false <-> (y <= x)%Q.
Proof.
  unfold Qltb. rewrite negb_false_iff. apply Qle_bool_iff.
Qed.

Lemma Qgtb_true (x y : Q) : Qgtb x y = true <-> (y < x)%Q.
Proof.
  unfold Qgtb. rewrite negb_true_iff. split.
  - intros H. apply Qnot_le_lt. intros Hle. apply Qle_bool_iff in Hle. congruence.
  - intros H. destruct (Qle_bool x y) eqn:E; [|reflexivity].
    apply Qle_bool_iff in E. exfalso. exact (Qlt_not_le _ _ H E).
Qed.

Lemma Qgtb_false (x y : Q) : Qgtb x y = false <-> (x <= y)%Q.
Proof.
  unfold Qgtb. rewrite negb_false_iff. apply Qle_bool_iff.
Qed.

Lemma Qeqb_true (x y : Q) : Qeqb x y = true <-> (x == y)%Q.
Proof. apply Qeq_bool_iff. Qed.

Lemma Qeq_Qle (x y : Q) : (x == y)%Q -> (x <= y)%Q.
Proof. intros H. rewrite H. apply Qle_refl. Qed.

(** X4: whatever [CreateAllocation] returns is sized and priced the same
    way: it has at least the minimum number of replicas of the server, its
    value is its cost, and its cost is the cost of the accelerator times the
    instances that its replicas take. *)
Theorem CreateAllocation_sized (serverName gName : string) (srv : Server)
    (a : Allocation) :
  CreateAllocation MaxQueueToBatchRatio Delta StabilitySafetyFraction SLOMargin
    Solve BinarySearch sys serverName gName = Some a ->
  GetServer sys serverName = Some srv ->
  minNumReplicas srv <= numReplicas a /\
  value a = cost a /\
  exists acc mdl,
    GetAccelerator sys gName = Some acc /\
    GetModel sys (ModelName srv) = Some mdl /\
    cost a = (acc_Cost acc *
              float32 (GoInt.mul (NumInstances mdl (accelerator a)) (numReplicas a)))%Q.
Proof.
  intros Hc Hs.
  destruct (CreateAllocation_Some_inv _ _ _ _ _ _ _ _ _ _ Hc)
    as (acc & srv' & ld & mdl & perf & svc & target & Eg & Hs' & _ & _ & Em & _ & _ & _ & Ha).
  rewrite Hs in Hs'. injection Hs' as <-.
  destruct (Qeqb (ArrivalRate ld) 0 || (AvgLength ld =? 0)).
  - injection Ha as <-. cbn. split; [lia|]. split; [reflexivity|].
    exists acc, mdl. auto.
  - unfold positiveLoadAllocation in Ha.
    destruct (lambdaStarService _ _ _ _ _ _ _) as [lsService|]; [|discriminate Ha].
    destruct (lambdaStarWait _ _ _ _ _ _ _) as [lsWait|]; [|discriminate Ha].
    cbn [mbind option_bind] in Ha. injection Ha as <-. cbn.
    split; [lia|]. split; [reflexivity|]. exists acc, mdl. auto.
Qed.

Variable ArrivalCOV : ServerLoadSpec -> Q.
Variable ServiceCOV : ServerLoadSpec -> Q.

(** X6: without traffic the two evaluators agree. For a server whose load is
    not negative and has no arrivals or no tokens, [CreateAllocationUsingGGm]
    and [CreateAllocation] return the same thing, nil for the same missing
    data and otherwise the minimum number of replicas of the server with no
    waiting time and no utilisation, whatever the targets, the constants and
    the queue analysis. *)
Theorem CreateAllocationUsingGGm_zero_load (serverName gName : string) :
  (forall srv ld, GetServer sys serverName = Some srv -> Load srv = Some ld ->
     (0 <= ArrivalRate ld)%Q /\ 0 <= AvgLength ld /\
     ((ArrivalRate ld == 0)%Q \/ AvgLength ld = 0)) ->
  CreateAllocationUsingGGm StabilitySafetyFraction SLOMargin sys ArrivalCOV ServiceCOV
    serverName gName =
  CreateAllocation MaxQueueToBatchRatio Delta StabilitySafetyFraction SLOMargin
    Solve BinarySearch sys serverName gName /\
  forall a srv,
    CreateAllocation MaxQueueToBatchRatio Delta StabilitySafetyFraction SLOMargin
      Solve BinarySearch sys serverName gName = Some a ->
    GetServer sys serverName = Some srv ->
    numReplicas a = minNumReplicas srv /\ waitTime a = 0%Q /\ rho a = 0%Q.
Proof.
  intros Hzero. unfold CreateAllocationUsingGGm, CreateAllocation.
  destruct (GetAccelerator sys gName) as [acc|]; cbn [mbind option_bind];
    [|split; [reflexivity|discriminate]].
  destruct (GetServer sys serverName) as [srv|]; cbn [mbind option_bind];
    [|split; [reflexivity|discriminate]].
  destruct (Load srv) as [ld|] eqn:El; cbn [mbind option_bind];
    [|split; [reflexivity|discriminate]].
  destruct (Hzero srv ld eq_refl El) as (Hr & Hk & Hz).
  assert (E0 : Qltb (ArrivalRate ld) 0 || (AvgLength ld <? 0) = false).
  { apply orb_false_iff. split; [now apply Qltb_false|]. apply Z.ltb_ge. exact Hk. }
  assert (E1 : Qeqb (ArrivalRate ld) 0 || (AvgLength ld =? 0) = true).
  { apply orb_true_iff. destruct Hz as [Hz|Hz].
    - left. now apply Qeqb_true.
    - right. now apply Z.eqb_eq. }
  rewrite E0, E1.
  destruct (GetModel sys (ModelName srv)) as [mdl|]; cbn [mbind option_bind];
    [|split; [reflexivity|discriminate]].
  destruct (PerfData mdl gName) as [perf|]; cbn [mbind option_bind];
    [|split; [reflexivity|discriminate]].
  destruct (GetServiceClass sys (ServiceClassName srv)) as [svc|];
    cbn [mbind option_bind]; [|split; [reflexivity|discriminate]].
  destruct (ModelTarget svc (ModelName srv)) as [target|]; cbn [mbind option_bind];
    [|split; [reflexivity|discriminate]].
  split; [reflexivity|]. intros a srv' [= <-] [= <-]. cbn. auto.
Qed.

(** X7: what [CreateAllocationUsingGGm] returns under positive load. It
    returns an allocation only if the class has a throughput target or both
    latency targets, and only with a per-token time within a positive ITL
    target; the allocation has a replica count other than zero, its value is
    its cost, and its rate ceiling per replica is left at zero, so that
    [Saturated] holds of it for every positive rate. *)
Theorem CreateAllocationUsingGGm_positive_load (serverName gName : string)
    (srv : Server) (ld : ServerLoadSpec) (a : Allocation) :
  CreateAllocationUsingGGm StabilitySafetyFraction SLOMargin sys ArrivalCOV ServiceCOV
    serverName gName = Some a ->
  GetServer sys serverName = Some srv ->
  Load srv = Some ld ->
  ~ (ArrivalRate ld == 0)%Q -> AvgLength ld <> 0 ->
  numReplicas a <> 0 /\ value a = cost a /\
  maxArrvRatePerReplica a = 0%Q /\
  (forall r, (0 < r)%Q -> Saturated a r = true) /\
  exists svc target,
    GetServiceClass sys (ServiceClassName srv) = Some svc /\
    ModelTarget svc (ModelName srv) = Some target /\
    ((0 < TPS target)%Q \/ (0 < ITL target)%Q /\ (0 < TTW target)%Q) /\
    ((0 < ITL target)%Q -> (servTime a <= ITL target)%Q).
Proof.
  intros Hc Hs Hl Hrate Hlen. unfold CreateAllocationUsingGGm in Hc.
  destruct (GetAccelerator sys gName) as [acc|]; [|discriminate Hc].
  rewrite Hs in Hc. cbn [mbind option_bind] in Hc. rewrite Hl in Hc.
  cbn [mbind option_bind] in Hc.
  destruct (GetModel sys (ModelName srv)) as [mdl|]; [|discriminate Hc].
  cbn [mbind option_bind] in Hc.
  destruct (PerfData mdl gName) as [perf|]; [|discriminate Hc].
  cbn [mbind option_bind] in Hc.
  destruct (GetServiceClass sys (ServiceClassName srv)) as [svc|] eqn:Esvc;
    [|discriminate Hc].
  cbn [mbind option_bind] in Hc.
  destruct (ModelTarget svc (ModelName srv)) as [target|] eqn:Etg; [|discriminate Hc].
  cbn [mbind option_bind] in Hc.
  assert (E1 : Qeqb (ArrivalRate ld) 0 = false).
  { destruct (Qeqb (ArrivalRate ld) 0) eqn:E; [|reflexivity].
    apply Qeqb_true in E. contradiction. }
  assert (E2 : (AvgLength ld =? 0) = false) by now apply Z.eqb_neq.
  rewrite E1, E2 in Hc. cbn [orb] in Hc.
  unfold positiveLoadAllocationGGm in Hc. cbn zeta in Hc.
  destruct (Qgtb (ITL target) 0 && Qgtb _ (ITL target)) eqn:Eitl; [discriminate Hc|].
  set (n1 := if Qgtb (ITL target) 0 && Qgtb (TTW target) 0 then _ else 0) in Hc.
  set (n2 := if Qgtb (TPS target) 0 then _ else n1) in Hc.
  destruct (Z.eqb_spec n2 0) as [|Hn2]; [discriminate Hc|].
  injection Hc as <-. cbn [numReplicas value cost maxArrvRatePerReplica servTime SetValue].
  split; [exact Hn2|]. split; [reflexivity|]. split; [reflexivity|]. split.
  - intros r Hr. unfold Saturated, MaxRPM.
    cbn [numReplicas maxArrvRatePerReplica SetValue]. apply Qgtb_true.
    eapply Qle_lt_trans; [|exact Hr]. apply Qeq_Qle. ring.
  - exists svc, target. split; [reflexivity|]. split; [exact Etg|]. split.
    + destruct (Qgtb (TPS target) 0) eqn:Etps; [left; now apply Qgtb_true|].
      right. subst n2.
      destruct (Qgtb (ITL target) 0) eqn:E3; [|now subst n1].
      destruct (Qgtb (TTW target) 0) eqn:E4; [|now subst n1].
      split; now apply Qgtb_true.
    + intros Hitl. apply Qgtb_true in Hitl. rewrite Hitl in Eitl. cbn [andb] in Eitl.
      now apply Qgtb_false.
Qed.

(** [AdjustNumReplicas] reads the accelerator, the batch size and the replica
    count of its receiver, and scales its cost and value: two receivers that
    agree on the first two get the same performance figures. *)
Lemma AdjustNumReplicas_congr (a b : Allocation) (n : Z) (srv : Server) (mdl : Model)
    (a' : Allocation) :
  accelerator a = accelerator b -> batchSize a = batchSize b -> 1 <= numReplicas b ->
  AdjustNumReplicas MaxQueueToBatchRatio Delta StabilitySafetyFraction SLOMargin
    Solve BinarySearch sys a n srv mdl = Ret (inr a') ->
  AdjustNumReplicas MaxQueueToBatchRatio Delta StabilitySafetyFraction SLOMargin
    Solve BinarySearch sys b n srv mdl =
    Ret (inr {| accelerator := accelerator a'; numReplicas := numReplicas a';
                batchSize := batchSize a';
                cost := cost b * (float32 n / float32 (numReplicas b));
                value := value b * (float32 n / float32 (numReplicas b));
                servTime := servTime a'; waitTime := waitTime a'; rho := rho a';
                maxArrvRatePerReplica := maxArrvRatePerReplica a' |}) /\
  1 <= numReplicas a /\ 1 <= batchSize a /\
  accelerator a' = accelerator a /\ batchSize a' = batchSize a /\
  numReplicas a' = n /\
  cost a' = (cost a * (float32 n / float32 (numReplicas a)))%Q /\
  value a' = (value a * (float32 n / float32 (numReplicas a)))%Q.
Proof.
  intros Hacc Hbs Hnb. unfold AdjustNumReplicas. rewrite <- Hacc, <- Hbs.
  destruct (Z.ltb_spec (numReplicas a) 1) as [|Hna]; cbn [orb]; [discriminate|].
  destruct (Z.ltb_spec (batchSize a) 1) as [|Hba]; [discriminate|].
  destruct (Z.ltb_spec (numReplicas b) 1) as [|_]; [lia|]. cbn [orb].
  destruct (Load srv) as [ld|]; [|discriminate].
  destruct (PerfData mdl (accelerator a)) as [perf|]; [|discriminate].
  destruct (match GetServiceClass sys (ServiceClassName srv) with
            | Some svClass => ModelTarget svClass (model_name mdl)
            | None => None
            end) as [tg|]; [|discriminate].
  cbn [deref bind]. intros [= <-]. cbn. repeat split; auto.
Qed.

(** X8: the performance figures after an adjustment do not depend on the
    adjustments before it. If an allocation is adjusted to n1 replicas and
    the result to n2, then adjusting the allocation to n2 directly also
    succeeds and gives the same accelerator, batch size, replica count n2,
    service time, waiting time, utilisation and rate ceiling. (Cost and
    value are rescaled at every adjustment and are left out: in float32 two
    rescalings need not round to what one does.) *)
Theorem AdjustNumReplicas_twice (a a1 a2 : Allocation) (n1 n2 : Z) (srv : Server)
    (mdl : Model) :
  AdjustNumReplicas MaxQueueToBatchRatio Delta StabilitySafetyFraction SLOMargin
    Solve BinarySearch sys a n1 srv mdl = Ret (inr a1) ->
  AdjustNumReplicas MaxQueueToBatchRatio Delta StabilitySafetyFraction SLOMargin
    Solve BinarySearch sys a1 n2 srv mdl = Ret (inr a2) ->
  exists a2',
    AdjustNumReplicas MaxQueueToBatchRatio Delta StabilitySafetyFraction SLOMargin
      Solve BinarySearch sys a n2 srv mdl = Ret (inr a2') /\
    accelerator a2' = accelerator a2 /\ numReplicas a2' = numReplicas a2 /\
    numReplicas a2 = n2 /\
    batchSize a2' = batchSize a2 /\ servTime a2' = servTime a2 /\
    waitTime a2' = waitTime a2 /\ rho a2' = rho a2 /\
    maxArrvRatePerReplica a2' = maxArrvRatePerReplica a2.
Proof.
  intros H1 H2.
  destruct (AdjustNumReplicas_congr a a n1 srv mdl a1 eq_refl eq_refl) as
    (_ & Hna & _ & Hacc1 & Hbs1 & _); auto.
  { unfold AdjustNumReplicas in H1.
    destruct (Z.ltb_spec (numReplicas a) 1); [discriminate H1|lia]. }
  destruct (AdjustNumReplicas_congr a1 a n2 srv mdl a2 Hacc1 Hbs1 Hna H2) as
    (H3 & _ & _ & _ & _ & Hn2 & _).
  eexists. split; [exact H3|]. cbn.
  repeat split; auto.
Qed.

(** A property of the accelerators seen so far and of the state of the loop
    of [ReAllocate] that every iteration keeps holds when the loop ends. *)
Lemma reAllocate_invariant (serverName : string)
    (P : list string -> Q * option Allocation -> Prop) :
  (forall seen st g, P seen st ->
     P (seen ++ [g])
       (reAllocateStep MaxQueueToBatchRatio Delta StabilitySafetyFraction SLOMargin
          Solve BinarySearch sys serverName st g)) ->
  forall names seen st, P seen st ->
    P (seen ++ names)
      (fold_left (reAllocateStep MaxQueueToBatchRatio Delta StabilitySafetyFraction
                    SLOMargin Solve BinarySearch sys serverName) names st).
Proof.
  intros Hstep. induction names as [|g names IH]; intros seen st HP; cbn [fold_left].
  - now rewrite app_nil_r.
  - replace (seen ++ g :: names) with ((seen ++ [g]) ++ names)
      by (now rewrite <- app_assoc).
    apply IH. now apply Hstep.
Qed.

(** One iteration keeps the invariant of the loop of [ReAllocate]. *)
Lemma reAllocateStep_invariant (serverName : string) (seen : list string)
    (st : Q * option Allocation) (g : string) :
  reAllocateInv
    (CreateAllocation MaxQueueToBatchRatio Delta StabilitySafetyFraction SLOMargin
       Solve BinarySearch sys serverName) seen st ->
  reAllocateInv
    (CreateAllocation MaxQueueToBatchRatio Delta StabilitySafetyFraction SLOMargin
       Solve BinarySearch sys serverName) (seen ++ [g])
    (reAllocateStep MaxQueueToBatchRatio Delta StabilitySafetyFraction SLOMargin
       Solve BinarySearch sys serverName st g).
Proof.
  set (create := CreateAllocation _ _ _ _ _ _ _ serverName).
  destruct st as [v m]. unfold reAllocateInv, reAllocateStep. fold create.
  assert (Hold : forall g0, g0 ∈ seen -> g0 ∈ seen ++ [g]).
  { intros g0 H0. apply elem_of_app. now left. }
  assert (Hnew : g ∈ seen ++ [g]).
  { apply elem_of_app. right. left. }
  destruct (create g) as [al|] eqn:E; cbn [fst snd].
  - destruct m as [m|]; cbn [fst snd].
    + intros (-> & (g0 & Hg0 & E0) & Hmin).
      destruct (Qeqb (value m) 0 || Qltb (value al) (value m)) eqn:Etest;
        cbn [fst snd].
      * split; [reflexivity|]. split; [exists g; auto|].
        intros Hnz g1 al1 [Hg1| ->%list_elem_of_singleton]%elem_of_app E1.
        -- assert (Hlt : (value al < value m)%Q).
           { apply orb_true_iff in Etest as [Ez|Elt].
             - apply Qeqb_true in Ez. exfalso. exact (Hnz g0 m (Hold g0 Hg0) E0 Ez).
             - unfold Qltb in Elt. apply negb_true_iff in Elt.
               apply Qnot_le_lt. intros Hle. apply Qle_bool_iff in Hle. congruence. }
           apply Qle_trans with (value m); [now apply Qlt_le_weak|].
           apply (Hmin (fun g2 al2 Hg2 => Hnz g2 al2 (Hold g2 Hg2)) g1 al1 Hg1 E1).
        -- rewrite E in E1. injection E1 as <-. apply Qle_refl.
      * split; [reflexivity|]. split; [exists g0; auto|].
        intros Hnz g1 al1 [Hg1| ->%list_elem_of_singleton]%elem_of_app E1.
        -- apply (Hmin (fun g2 al2 Hg2 => Hnz g2 al2 (Hold g2 Hg2)) g1 al1 Hg1 E1).
        -- rewrite E in E1. injection E1 as <-.
           apply orb_false_iff in Etest as [_ Elt]. now apply Qltb_false.
    + intros [Hv Hnone]. apply Qeqb_true in Hv. rewrite Hv. cbn [orb fst snd].
      split; [reflexivity|]. split; [exists g; auto|].
      intros _ g1 al1 [Hg1| ->%list_elem_of_singleton]%elem_of_app E1.
      * rewrite (Hnone g1 Hg1) in E1. discriminate E1.
      * rewrite E in E1. injection E1 as <-. apply Qle_refl.
  - destruct m as [m|]; cbn [fst snd].
    + intros (-> & (g0 & Hg0 & E0) & Hmin).
      split; [reflexivity|]. split; [exists g0; auto|].
      intros Hnz g1 al1 [Hg1| ->%list_elem_of_singleton]%elem_of_app E1.
      * apply (Hmin (fun g2 al2 Hg2 => Hnz g2 al2 (Hold g2 Hg2)) g1 al1 Hg1 E1).
      * rewrite E in E1. discriminate E1.
    + intros [Hv Hnone]. split; [exact Hv|].
      intros g1 [Hg1| ->%list_elem_of_singleton]%elem_of_app; auto.
Qed.

Lemma ReAllocate_invariant (serverName : string) :
  reAllocateInv
    (CreateAllocation MaxQueueToBatchRatio Delta StabilitySafetyFraction SLOMargin
       Solve BinarySearch sys serverName) (GetAccelerators sys).*1
    (fold_left (reAllocateStep MaxQueueToBatchRatio Delta StabilitySafetyFraction
                  SLOMargin Solve BinarySearch sys serverName)
       (GetAccelerators sys).*1 (0%Q, None)).
Proof.
  pose proof (reAllocate_invariant serverName
           (reAllocateInv (CreateAllocation MaxQueueToBatchRatio Delta
              StabilitySafetyFraction SLOMargin Solve BinarySearch sys serverName))
           (fun seen st g => reAllocateStep_invariant serverName seen st g)
           (GetAccelerators sys).*1 [] (0%Q, None)) as H.
  cbn [app] in H. apply H.
  split; [reflexivity|]. intros g Hg. inversion Hg.
Qed.

(** X9: [ReAllocate] returns nil, with an empty name, exactly when
    [CreateAllocation] is nil for every registered accelerator; otherwise it
    returns what [CreateAllocation] gives for one of the registered
    accelerators, together with the accelerator recorded in it. *)
Theorem ReAllocate_feasible (a : Allocation) (serverName : string) :
  match ReAllocate MaxQueueToBatchRatio Delta StabilitySafetyFraction SLOMargin
          Solve BinarySearch sys a serverName with
  | (None, gName) =>
      gName = EmptyString /\
      forall g, g ∈ (GetAccelerators sys).*1 ->
        CreateAllocation MaxQueueToBatchRatio Delta StabilitySafetyFraction SLOMargin
          Solve BinarySearch sys serverName g = None
  | (Some m, gName) =>
      gName = accelerator m /\
      exists g, g ∈ (GetAccelerators sys).*1 /\
        CreateAllocation MaxQueueToBatchRatio Delta StabilitySafetyFraction SLOMargin
          Solve BinarySearch sys serverName g = Some m
  end.
Proof.
  unfold ReAllocate. pose proof (ReAllocate_invariant serverName) as Hinv.
  destruct (fold_left _ _ _) as [v [m|]]; unfold reAllocateInv in Hinv.
  - split; [reflexivity|]. apply Hinv.
  - split; [reflexivity|]. apply Hinv.
Qed.

(** X10: when no feasible allocation has value zero, [ReAllocate] returns one
    of least value: its value is at most that of [CreateAllocation] on every
    registered accelerator. *)
Theorem ReAllocate_minimal (a : Allocation) (serverName : string) (m : Allocation)
    (gName : string) :
  (forall g al, g ∈ (GetAccelerators sys).*1 ->
     CreateAllocation MaxQueueToBatchRatio Delta StabilitySafetyFraction SLOMargin
       Solve BinarySearch sys serverName g = Some al ->
     ~ (value al == 0)%Q) ->
  ReAllocate MaxQueueToBatchRatio Delta StabilitySafetyFraction SLOMargin
    Solve BinarySearch sys a serverName = (Some m, gName) ->
  forall g al, g ∈ (GetAccelerators sys).*1 ->
    CreateAllocation MaxQueueToBatchRatio Delta StabilitySafetyFraction SLOMargin
      Solve BinarySearch sys serverName g = Some al ->
    (value m <= value al)%Q.
Proof.
  intros Hnz. unfold ReAllocate. pose proof (ReAllocate_invariant serverName) as Hinv.
  destruct (fold_left _ _ _) as [v [m0|]]; unfold reAllocateInv in Hinv;
    [|discriminate].
  intros [= <- _]. destruct Hinv as (_ & _ & Hmin). now apply Hmin.
Qed.

End EvaluatorResults.

Section EvaluatorResultsAtInputs.
Import core props examples.
Local Open Scope string_scope.

(** X4 at a concrete system: the server of [sysFits] on A100. *)
Lemma CreateAllocation_sized_at_sysFits :
  exists a srv,
    CreateAllocation MaxQueueToBatchRatio Delta StabilitySafetyFraction SLOMargin
      Solve BinarySearch sysFits "Premium-g13b" "A100" = Some a /\
    GetServer sysFits "Premium-g13b" = Some srv /\
    minNumReplicas srv <= numReplicas a /\ value a = cost a.
Proof.
  destruct (CreateAllocation MaxQueueToBatchRatio Delta StabilitySafetyFraction SLOMargin
              Solve BinarySearch sysFits "Premium-g13b" "A100") as [a|] eqn:E;
    [|vm_compute in E; discriminate E].
  eexists a, _. split; [reflexivity|]. split; [reflexivity|].
  destruct (CreateAllocation_sized MaxQueueToBatchRatio Delta StabilitySafetyFraction
              SLOMargin Solve BinarySearch sysFits "Premium-g13b" "A100" _ a E eq_refl)
    as (H1 & H2 & _).
  split; [exact H1|exact H2].
Defined.

(** X6 at a concrete system: the server of [sysTwoMin] has no arrivals. *)
Lemma CreateAllocationUsingGGm_zero_load_at_sysTwoMin :
  exists a,
    CreateAllocationUsingGGm StabilitySafetyFraction SLOMargin sysTwoMin
      (fun _ => 1%Q) (fun _ => 1%Q) "Premium-g13b" "A100" = Some a /\
    CreateAllocation MaxQueueToBatchRatio Delta StabilitySafetyFraction SLOMargin
      Solve BinarySearch sysTwoMin "Premium-g13b" "A100" = Some a /\
    numReplicas a = 2.
Proof.
  destruct (CreateAllocationUsingGGm_zero_load MaxQueueToBatchRatio Delta
              StabilitySafetyFraction SLOMargin Solve BinarySearch sysTwoMin
              (fun _ => 1%Q) (fun _ => 1%Q) "Premium-g13b" "A100") as [Heq Hres].
  { intros srv ld Hs Hl. cbn in Hs. injection Hs as <-. cbn in Hl. injection Hl as <-.
    cbn. split; [apply Qle_refl|]. split; [lia|]. left. reflexivity. }
  destruct (CreateAllocation MaxQueueToBatchRatio Delta StabilitySafetyFraction SLOMargin
              Solve BinarySearch sysTwoMin "Premium-g13b" "A100") as [a|] eqn:E;
    [|vm_compute in E; discriminate E].
  exists a. split; [exact Heq|]. split; [reflexivity|].
  destruct (Hres a _ eq_refl eq_refl) as (Hn & _). exact Hn.
Defined.

(** X7 at a concrete system: the server of [sysFits] with both coefficients
    of variation at 1. *)
Lemma CreateAllocationUsingGGm_positive_load_at_sysFits :
  exists a,
    CreateAllocationUsingGGm StabilitySafetyFraction SLOMargin sysFits
      (fun _ => 1%Q) (fun _ => 1%Q) "Premium-g13b" "A100" = Some a /\
    numReplicas a <> 0 /\ maxArrvRatePerReplica a = 0%Q /\
    Saturated a (ArrivalRate someLoad) = true.
Proof.
  destruct (CreateAllocationUsingGGm StabilitySafetyFraction SLOMargin sysFits
              (fun _ => 1%Q) (fun _ => 1%Q) "Premium-g13b" "A100") as [a|] eqn:E;
    [|vm_compute in E; discriminate E].
  destruct (CreateAllocationUsingGGm_positive_load StabilitySafetyFraction SLOMargin
              sysFits (fun _ => 1%Q) (fun _ => 1%Q) "Premium-g13b" "A100"
              (mkServer "Premium-g13b" "granite_13b" "Premium" 1 1 0 (Some someLoad)
                 [oneReplica])
              someLoad a E) as (Hn & _ & Hm & Hsat & _);
    [reflexivity|reflexivity|discriminate|discriminate|].
  exists a. split; [reflexivity|]. split; [exact Hn|]. split; [exact Hm|].
  apply Hsat. reflexivity.
Defined.

(** X8 at a concrete system: one replica adjusted to two and then to
    three. *)
Lemma AdjustNumReplicas_twice_at_sysFits :
  let srv := premiumServer (Some someLoad) 1 in
  exists a1 a2 a2',
    AdjustNumReplicas MaxQueueToBatchRatio Delta StabilitySafetyFraction SLOMargin
      Solve BinarySearch sysFits oneReplica 2 srv granite = Ret (inr a1) /\
    AdjustNumReplicas MaxQueueToBatchRatio Delta StabilitySafetyFraction SLOMargin
      Solve BinarySearch sysFits a1 3 srv granite = Ret (inr a2) /\
    AdjustNumReplicas MaxQueueToBatchRatio Delta StabilitySafetyFraction SLOMargin
      Solve BinarySearch sysFits oneReplica 3 srv granite = Ret (inr a2') /\
    numReplicas a2 = 3 /\ servTime a2' = servTime a2 /\ waitTime a2' = waitTime a2 /\
    maxArrvRatePerReplica a2' = maxArrvRatePerReplica a2.
Proof.
  intros srv.
  destruct (AdjustNumReplicas MaxQueueToBatchRatio Delta StabilitySafetyFraction SLOMargin
              Solve BinarySearch sysFits oneReplica 2 srv granite) as [[e1|a1]| |] eqn:E1;
    [vm_compute in E1; discriminate E1| |vm_compute in E1; discriminate E1..].
  destruct (AdjustNumReplicas MaxQueueToBatchRatio Delta StabilitySafetyFraction SLOMargin
              Solve BinarySearch sysFits a1 3 srv granite) as [[e2|a2]| |] eqn:E2;
    [pose proof E1 as E1'; vm_compute in E1'; injection E1' as <-;
     vm_compute in E2; discriminate E2
    |
    |pose proof E1 as E1'; vm_compute in E1'; injection E1' as <-;
     vm_compute in E2; discriminate E2..].
  destruct (AdjustNumReplicas_twice MaxQueueToBatchRatio Delta StabilitySafetyFraction
              SLOMargin Solve BinarySearch sysFits oneReplica a1 a2 2 3 srv granite E1 E2)
    as (a2' & H3 & _ & _ & Hn & _ & Hs & Hw & _ & Hm).
  exists a1, a2, a2'. split; [reflexivity|]. split; [exact E2|]. split; [exact H3|].
  split; [exact Hn|]. split; [exact Hs|]. split; [exact Hw|exact Hm].
Defined.

(** X10 at a concrete system: two accelerators, the cheaper one visited
    second. *)
Lemma ReAllocate_minimal_at_sysTwoAcc :
  exists m aH,
    ReAllocate MaxQueueToBatchRatio Delta StabilitySafetyFraction SLOMargin
      Solve BinarySearch sysTwoAcc oneReplica "Premium-g13b" = (Some m, "A100") /\
    CreateAllocation MaxQueueToBatchRatio Delta StabilitySafetyFraction SLOMargin
      Solve BinarySearch sysTwoAcc "Premium-g13b" "H100" = Some aH /\
    (value m <= value aH)%Q.
Proof.
  assert (Hnz : forall g al, g ∈ (GetAccelerators sysTwoAcc).*1 ->
            CreateAllocation MaxQueueToBatchRatio Delta StabilitySafetyFraction SLOMargin
              Solve BinarySearch sysTwoAcc "Premium-g13b" g = Some al ->
            ~ (value al == 0)%Q).
  { intros g al Hg E Hz. cbn in Hg.
    apply elem_of_cons in Hg as [->|Hg];
      [|apply elem_of_cons in Hg as [->|Hg]; [|inversion Hg]];
      vm_compute in E; injection E as <-; vm_compute in Hz; discriminate Hz. }
  destruct (ReAllocate MaxQueueToBatchRatio Delta StabilitySafetyFraction SLOMargin
              Solve BinarySearch sysTwoAcc oneReplica "Premium-g13b") as [[m|] g] eqn:E;
    [|vm_compute in E; discriminate E].
  assert (Hg : g = "A100").
  { pose proof E as E'. vm_compute in E'. injection E' as _ <-. reflexivity. }
  subst g.
  destruct (CreateAllocation MaxQueueToBatchRatio Delta StabilitySafetyFraction SLOMargin
              Solve BinarySearch sysTwoAcc "Premium-g13b" "H100") as [aH|] eqn:EH;
    [|vm_compute in EH; discriminate EH].
  exists m, aH. split; [reflexivity|]. split; [reflexivity|].
  apply (ReAllocate_minimal MaxQueueToBatchRatio Delta StabilitySafetyFraction SLOMargin
           Solve BinarySearch sysTwoAcc oneReplica "Premium-g13b" m "A100" Hnz E "H100" aH);
    [left|exact EH].
Defined.

End EvaluatorResultsAtInputs.

(** * Further properties of the greedy solver *)

Section ExhaustiveOutcome.
Import core solver props.

Variable sys : System.

Lemma fitsOne_le (st st' : store) (e : serverEntry) (c : Allocation) :
  (forall t, avail st' t <= avail st t) -> fitsOne sys st' e c -> fitsOne sys st e c.
Proof.
  intros Hle (srv & mdl & acc & Es & Em & Eg & Hu & Hn).
  exists srv, mdl, acc. repeat split; auto; try lia.
  specialize (Hle (acc_Type acc)). lia.
Qed.

Lemma exhausted_le (st st' : store) (e : serverEntry) (a : Allocation) :
  (forall t, avail st' t <= avail st t) -> exhausted sys st e a -> exhausted sys st' e a.
Proof.
  intros Hle (c & srv & mdl & acc & Hc & Es & Em & Eg & Ha & Hk & Hmax).
  exists c, srv, mdl, acc. repeat split; auto; try lia.
  destruct Hmax as [Hmax|Hmax]; [now left|right].
  specialize (Hle (acc_Type acc)). lia.
Qed.

(** What [processUnallocatedServers] does for one server: nothing, when of no
    candidate in the list one replica fits; otherwise it gives the server the
    first such candidate, cut down to as many replicas as fit. *)
Lemma exhaustEntry_cases (e : serverEntry) (allocs : list Allocation) (st st' : store) :
  unitInv sys st ->
  (forall c, c ∈ allocs -> c ∈ allocations e) ->
  exhaustEntry sys e allocs st = Ret st' ->
  (st' = st /\ forall c, c ∈ allocs -> ~ fitsOne sys st e c) \/
  (exists a, allocation st' = <[serverName e := a]> (allocation st) /\
     (forall t, avail st' t <= avail st t) /\
     (exists c, c ∈ allocs /\ exhausted sys st' e a /\ a = scaledTo c (numReplicas a))).
Proof.
  intros Hu. induction allocs as [|alloc allocs IH]; intros Hsub; cbn [exhaustEntry].
  { intros [= <-]. left. split; [reflexivity|]. intros c Hc. inversion Hc. }
  destruct (GetServer sys (serverName e)) as [srv|] eqn:Es; [|discriminate].
  cbn [deref bind].
  assert (Hskip : ~ fitsOne sys st e alloc ->
            exhaustEntry sys e allocs st = Ret st' ->
            (st' = st /\ forall c, c ∈ alloc :: allocs -> ~ fitsOne sys st e c) \/
            (exists a, allocation st' = <[serverName e := a]> (allocation st) /\
               (forall t, avail st' t <= avail st t) /\
               (exists c, c ∈ alloc :: allocs /\ exhausted sys st' e a /\
                  a = scaledTo c (numReplicas a)))).
  { intros Hno Hrun.
    destruct (IH (fun c Hc => Hsub c ltac:(now right)) Hrun)
      as [[-> Hnone]|(a & Ha & Hle & c & Hc & Hex)].
    - left. split; [reflexivity|].
      intros c [->|Hc]%elem_of_cons; [exact Hno|now apply Hnone].
    - right. exists a. split; [exact Ha|]. split; [exact Hle|].
      exists c. split; [now right|exact Hex]. }
  destruct (GetAccelerator sys (accelerator alloc)) as [acc|] eqn:Eg.
  2:{ apply Hskip. intros (srv' & mdl' & acc' & _ & _ & Eg' & _). congruence. }
  destruct (GetModel sys (ModelName srv)) as [mdl|] eqn:Em.
  2:{ apply Hskip. intros (srv' & mdl' & acc' & Es' & Em' & _).
      rewrite Es in Es'. injection Es' as <-. congruence. }
  pose proof (inv_available _ _ Hu (acc_Type acc)) as Hav.
  destruct (Z.gtb_spec (unitsPerReplicaOf mdl acc (accelerator alloc)) 0) as [Hupr|Hupr].
  2:{ apply Hskip. intros (srv' & mdl' & acc' & Es' & Em' & Eg' & Hu' & _).
      rewrite Es in Es'. injection Es' as <-. rewrite Em in Em'. injection Em' as <-.
      rewrite Eg in Eg'. injection Eg' as <-. lia. }
  set (u := unitsPerReplicaOf mdl acc (accelerator alloc)) in *.
  set (k := Z.min _ _).
  destruct (Z.gtb_spec k 0) as [Hk|Hk].
  2:{ apply Hskip. intros (srv' & mdl' & acc' & Es' & Em' & Eg' & Hu' & Hn').
      rewrite Es in Es'. injection Es' as <-. rewrite Em in Em'. injection Em' as <-.
      rewrite Eg in Eg'. injection Eg' as <-. fold u in Hu'.
      subst k. rewrite quot_exact in Hk by assumption.
      assert (1 <= avail st (acc_Type acc) / u).
      { apply Z.div_le_lower_bound; lia. }
      lia. }
  intros [= <-].
  assert (Hk' : 0 < k) by lia.
  destruct (fitting_replicas _ _ (numReplicas alloc) Hav Hupr Hk') as [Hfit Hmul].
  fold u in Hfit, Hmul. fold k in Hfit, Hmul.
  assert (Hown : avail (deduct (acc_Type acc) (GoInt.mul k u)
                          (SetAllocation (serverName e) (scaledTo alloc k) st))
                   (acc_Type acc) = avail st (acc_Type acc) - k * u).
  { rewrite avail_deduct, decide_True by reflexivity. rewrite avail_SetAllocation, Hmul.
    apply sub_exact; lia. }
  assert (Hle : forall t, avail (deduct (acc_Type acc) (GoInt.mul k u)
                          (SetAllocation (serverName e) (scaledTo alloc k) st)) t
                          <= avail st t).
  { intros t. rewrite avail_deduct, !avail_SetAllocation.
    destruct (decide (acc_Type acc = t)) as [<-|]; [|lia].
    rewrite Hmul, sub_exact by lia. lia. }
  right. exists (scaledTo alloc k). split; [reflexivity|]. split; [exact Hle|].
  exists alloc. split; [left|]. split; [|reflexivity].
  exists alloc, srv, mdl, acc. split; [apply Hsub; left|]. split; [exact Es|].
  split; [exact Em|].
  split; [exact Eg|]. split; [reflexivity|].
  change (numReplicas (scaledTo alloc k)) with k.
  split; [subst k; lia|].
  unfold scaledTo. change (unitsPerReplicaOf mdl acc (accelerator alloc)) with u.
  fold (scaledTo alloc k). rewrite Hown.
  destruct (Z.min_spec (GoInt.quot (avail st (acc_Type acc)) u) (numReplicas alloc))
    as [[_ Hmin]|[_ Hmin]]; fold k in Hmin.
  - right. rewrite quot_exact in Hmin by assumption.
    pose proof (Z.mod_pos_bound (avail st (acc_Type acc)) u Hupr).
    pose proof (Z.div_mod (avail st (acc_Type acc)) u ltac:(lia)). rewrite Hmin. nia.
  - now left.
Qed.

Hypothesis Hcap : capacitiesValid sys.

(** The state after [processUnallocatedServers]: the units are in balance,
    nothing became available, only slots of members changed, and every
    member either has no slot and no candidate of which a replica fits, or
    holds a candidate cut down to as many replicas as fit. *)
Lemma processUnallocatedServers_outcome (es : list serverEntry) (st st' : store) :
  unitInv sys st ->
  NoDup (serverName <$> es) ->
  (forall e, e ∈ es -> allocation st !! serverName e = None) ->
  processUnallocatedServers sys es st = Ret st' ->
  unitInv sys st' /\
  (forall t, avail st' t <= avail st t) /\
  (forall n, n ∉ serverName <$> es -> allocation st' !! n = allocation st !! n) /\
  forall e, e ∈ es ->
    match allocation st' !! serverName e with
    | None => forall c, c ∈ allocations e -> ~ fitsOne sys st' e c
    | Some a => exhausted sys st' e a
    end.
Proof.
  revert st. induction es as [|e es IH]; intros st Hu Hnd Hfresh;
    cbn [processUnallocatedServers].
  { intros [= <-]. split; [exact Hu|]. split; [intros; lia|]. split; [auto|].
    intros e He. inversion He. }
  destruct (exhaustEntry sys e (allocations e) st) as [st1| |] eqn:E; try discriminate.
  cbn [bind]. intros Hrun.
  cbn [fmap list_fmap] in Hnd. apply NoDup_cons in Hnd as [Hnew Hnd].
  destruct (exhaustEntry_unitInv sys _ _ _ _ Hu (Hfresh e ltac:(left)) E) as [Hu1 Hsame1].
  assert (Hfresh1 : forall e', e' ∈ es -> allocation st1 !! serverName e' = None).
  { intros e' He'. rewrite Hsame1; [apply Hfresh; now right|].
    intros Heq. apply Hnew. rewrite <- Heq. now apply list_elem_of_fmap_2. }
  destruct (IH st1 Hu1 Hnd Hfresh1 Hrun) as (Hu' & Hle' & Hsame' & Hout').
  destruct (exhaustEntry_cases e (allocations e) st st1 Hu (fun _ H => H) E)
    as [[-> Hnone]|(a & Ha & Hle1 & c & Hc & Hex & Hsc)].
  - split; [exact Hu'|]. split; [exact Hle'|]. split.
    + intros n Hn. apply Hsame'. intros Hin. apply Hn. now right.
    + intros e' [->|He']%elem_of_cons; [|now apply Hout'].
      rewrite (Hsame' _ Hnew), (Hfresh e ltac:(left)).
      intros c Hc Hfit. apply (Hnone c Hc). eapply fitsOne_le; eauto.
  - split; [exact Hu'|]. split; [intros t; specialize (Hle' t); specialize (Hle1 t); lia|].
    split.
    + intros n Hn. rewrite Hsame'; [|intros Hin; apply Hn; now right].
      apply Hsame1. intros ->. apply Hn. left.
    + intros e' [->|He']%elem_of_cons; [|now apply Hout'].
      rewrite (Hsame' _ Hnew), Ha, lookup_insert_eq.
      eapply exhausted_le; eauto.
Qed.

(** X11: the exhaustive policy gives every server as much as is left. After
    [processUnallocatedServers], run from a state with the units in balance
    on distinct servers with empty slots, a member without an allocation has
    no candidate of which even one replica fits into what is available now;
    a member with an allocation holds one of its candidates with a positive
    replica count that is either the full count of the candidate or so large
    that less than one further replica of it is available now. *)
Theorem processUnallocatedServers_exhausts (es : list serverEntry) (st st' : store) :
  unitInv sys st ->
  NoDup (serverName <$> es) ->
  (forall e, e ∈ es -> allocation st !! serverName e = None) ->
  processUnallocatedServers sys es st = Ret st' ->
  forall e, e ∈ es ->
    match allocation st' !! serverName e with
    | None =>
        forall c srv mdl acc,
          c ∈ allocations e ->
          GetServer sys (serverName e) = Some srv ->
          GetModel sys (ModelName srv) = Some mdl ->
          GetAccelerator sys (accelerator c) = Some acc ->
          0 < unitsPerReplicaOf mdl acc (accelerator c) ->
          0 < numReplicas c ->
          avail st' (acc_Type acc) < unitsPerReplicaOf mdl acc (accelerator c)
    | Some a =>
        exists c srv mdl acc,
          c ∈ allocations e /\
          GetServer sys (serverName e) = Some srv /\
          GetModel sys (ModelName srv) = Some mdl /\
          GetAccelerator sys (accelerator c) = Some acc /\
          accelerator a = accelerator c /\
          0 < numReplicas a <= numReplicas c /\
          (numReplicas a = numReplicas c \/
           avail st' (acc_Type acc) < unitsPerReplicaOf mdl acc (accelerator c))
    end.
Proof.
  intros Hu Hnd Hfresh Hrun e He.
  destruct (processUnallocatedServers_outcome es st st' Hu Hnd Hfresh Hrun)
    as (_ & _ & _ & Hout).
  specialize (Hout e He). destruct (allocation st' !! serverName e) as [a|].
  - destruct Hout as (c & srv & mdl & acc & Hc & Es & Em & Eg & Ha & Hk & Hmax).
    exists c, srv, mdl, acc. repeat split; auto; try lia. now rewrite Ha.
  - intros c srv mdl acc Hc Es Em Eg Hpos Hn.
    destruct (Z_lt_le_dec (avail st' (acc_Type acc))
                (unitsPerReplicaOf mdl acc (accelerator c))) as [Hlt|Hge]; [exact Hlt|].
    exfalso. apply (Hout c Hc). exists srv, mdl, acc. repeat split; auto; lia.
Qed.

End ExhaustiveOutcome.

Section RoundRobinOutcome.
Import core solver props.

Variable sys : System.
Hypothesis Hcap : capacitiesValid sys.

(** A scan that leaves an inactive ticket inactive has found no candidate of
    which one replica fits. *)
Lemma activate_inactive (tk : serverAllocationTicket) (allocs : list Allocation)
    (st : store) :
  active tk = false ->
  active (activate sys tk allocs st) = false ->
  forall c acc,
    c ∈ allocs -> GetAccelerator sys (accelerator c) = Some acc ->
    0 < unitsPerReplicaOf (model tk) acc (accelerator c) ->
    avail st (acc_Type acc) < unitsPerReplicaOf (model tk) acc (accelerator c).
Proof.
  intros Hoff. induction allocs as [|alloc allocs IH]; cbn [activate]; intros Hact c acc Hc.
  { inversion Hc. }
  destruct (GetAccelerator sys (accelerator alloc)) as [acc0|] eqn:Eg.
  - destruct (Z.gtb_spec (unitsPerReplicaOf (model tk) acc0 (accelerator alloc)) 0)
      as [Hpos|Hneg]; cbn [andb] in Hact.
    + destruct (Z.geb_spec (avail st (acc_Type acc0))
                  (unitsPerReplicaOf (model tk) acc0 (accelerator alloc))) as [Hge|Hlt].
      { cbn in Hact. discriminate Hact. }
      apply elem_of_cons in Hc as [->|Hc]; [|now apply IH].
      intros Eg'. rewrite Eg in Eg'. injection Eg' as <-. intros _. exact Hlt.
    + apply elem_of_cons in Hc as [->|Hc]; [|now apply IH].
      intros Eg'. rewrite Eg in Eg'. injection Eg' as <-. lia.
  - apply elem_of_cons in Hc as [->|Hc]; [|now apply IH].
    intros Eg'. rewrite Eg in Eg'. discriminate Eg'.
Qed.

(** The three outcomes of a visit. The member has no ticket and nothing
    changes. Or its ticket leaves the rotation, with nothing else changed: a
    ticket that holds replicas, when less than one further replica of its
    type is available; a ticket without replicas, when the member has no
    candidate of which one replica fits. Or the ticket is granted one
    replica. *)
Lemma visit_outcomes (e : serverEntry) (rr rr' : rrState) :
  rrInv sys rr ->
  visit sys e rr = Ret rr' ->
  (tickets rr !! serverName e = None /\ rr' = rr) \/
  (is_Some (tickets rr !! serverName e) /\
   rr' = mkRR (delete (serverName e) (tickets rr)) (allocatedTickets rr) (rr_store rr) /\
   (forall tk final,
      allocatedTickets rr !! serverName e = Some tk ->
      finalAlloc tk = Some final -> 0 < numReplicas final ->
      avail (rr_store rr) (accType tk) < unitsPerReplica tk) /\
   (allocatedTickets rr !! serverName e = None ->
    (forall c, c ∈ allocations e -> 0 < numReplicas c) ->
    forall c, c ∈ allocations e -> ~ fitsOne sys (rr_store rr) e c)) \/
  exists tk final,
    is_Some (tickets rr !! serverName e) /\
    (allocatedTickets rr !! serverName e = Some tk \/
     allocatedTickets rr !! serverName e = None /\ final ∈ allocations e) /\
    finalAlloc tk = Some final /\
    0 < unitsPerReplica tk <= avail (rr_store rr) (accType tk) /\
    0 < numReplicas final /\
    0 <= ticket_numReplicas tk /\
    rr' = mkRR (<[serverName e :=
                   mkTicket (entry tk) true (server tk) (model tk) (accType tk)
                     (unitsPerReplica tk) (ticket_numReplicas tk + 1) (Some final)]>
                  (tickets rr))
               (<[serverName e :=
                   mkTicket (entry tk) true (server tk) (model tk) (accType tk)
                     (unitsPerReplica tk) (ticket_numReplicas tk + 1) (Some final)]>
                  (allocatedTickets rr))
               (deduct (accType tk) (unitsPerReplica tk) (rr_store rr)).
Proof.
  intros Hinv. unfold visit.
  destruct (tickets rr !! serverName e) as [tk0|] eqn:Et; [|intros [= <-]; now left].
  destruct (rr_tickets _ _ Hinv _ _ Et) as (Hfresh & (srv & Es & Em) & Hact).
  set (ticket := if active tk0 then tk0 else _).
  assert (Hticket :
    active ticket = false /\ allocatedTickets rr !! serverName e = None /\
    (forall c, c ∈ allocations e -> ~ fitsOne sys (rr_store rr) e c) \/
    active ticket = true /\
    exists final,
      (ticket = tk0 /\ allocatedTickets rr !! serverName e = Some tk0 \/
       ticket_numReplicas ticket = 0 /\ allocatedTickets rr !! serverName e = None /\
       final ∈ allocations e /\ unitsPerReplica ticket <= avail (rr_store rr) (accType ticket)) /\
      finalAlloc ticket = Some final /\
      0 < unitsPerReplica ticket /\ 0 <= ticket_numReplicas ticket).
  { subst ticket. destruct (active tk0) eqn:Ea.
    - right. split; [exact Ea|].
      destruct (rr_granted _ _ Hinv _ _ Hact)
        as [(srv' & acc & alloc & _ & _ & Ef & _ & _ & _ & Hu & Hk) _].
      exists alloc. split; [left; auto|]. auto.
    - destruct Hact as [Hnone Hzero].
      destruct (activate_candidate sys tk0 (allocations e) (rr_store rr))
        as [E|(alloc & acc & Hin & Eg & Hu & ->)].
      + left. rewrite E. split; [exact Ea|]. split; [exact Hnone|].
        intros c Hc (srv' & mdl' & acc' & Es' & Em' & Eg' & Hu' & _).
        rewrite Es in Es'. injection Es' as <-. rewrite Em in Em'. injection Em' as <-.
        pose proof (activate_inactive tk0 (allocations e) (rr_store rr) Ea
                      ltac:(now rewrite E) c acc' Hc Eg' ltac:(lia)).
        lia.
      + right. split; [reflexivity|]. exists alloc. cbn.
        split; [right; repeat split; auto; lia|]. split; [reflexivity|]. lia. }
  clearbody ticket.
  destruct Hticket as [(Hoff & Hnone & Hnofit)|[Hon (final & Hprev & Ef & Hu & Hk)]].
  { rewrite Hoff. cbn [negb]. intros [= <-]. right. left.
    split; [eauto|]. split; [reflexivity|]. split.
    - intros tk f Hl. rewrite Hnone in Hl. discriminate Hl.
    - intros _ _. exact Hnofit. }
  rewrite Hon. cbn [negb].
  destruct (Z.eqb_spec (unitsPerReplica ticket) 0) as [Hzero|_]; [lia|].
  rewrite Ef. cbn [deref bind].
  pose proof (rr_available _ _ Hinv (accType ticket)) as Hav.
  destruct (Z.gtb_spec (Z.min (GoInt.quot (avail (rr_store rr) (accType ticket))
                                 (unitsPerReplica ticket)) (numReplicas final)) 0)
    as [Hgrant|Hstop].
  - rewrite quot_exact in Hgrant by assumption.
    assert (Hfit : unitsPerReplica ticket <= avail (rr_store rr) (accType ticket)).
    { pose proof (Z.mul_div_le (avail (rr_store rr) (accType ticket))
                    (unitsPerReplica ticket) Hu). nia. }
    assert (Hn : 0 < numReplicas final).
    { eapply Z.lt_le_trans; [exact Hgrant|apply Z.le_min_r]. }
    assert (Hpend : pendingUnits rr (accType ticket) =
              ticket_numReplicas ticket * unitsPerReplica ticket +
              sumZ (ticketUnits (accType ticket))
                (map_to_list (delete (serverName e) (allocatedTickets rr)))).
    { unfold pendingUnits. destruct Hprev as [[-> Hsome]|(Hzero & Hnone & _)].
      - rewrite (sumZ_map_lookup _ _ _ _ Hsome). unfold ticketUnits at 1. cbn [snd].
        now rewrite decide_True.
      - rewrite delete_id by exact Hnone. rewrite Hzero. lia. }
    assert (Hroom : ticket_numReplicas ticket + 1 <= GoInt.MaxInt).
    { pose proof (rr_units _ _ Hinv (accType ticket)) as Hbal.
      pose proof (rr_allocated _ _ Hinv (accType ticket)).
      pose proof (capacity_bound sys Hcap (accType ticket)).
      pose proof (pending_rest_nonneg sys rr (serverName e) (accType ticket) Hinv).
      rewrite Hpend in Hbal. nia. }
    rewrite add_exact by lia. intros [= <-]. right. right.
    exists ticket, final. split; [eauto|]. split.
    { destruct Hprev as [[-> Hsome]|(_ & Hnone & Hin & _)]; [now left|now right]. }
    split; [exact Ef|]. split; [lia|].
    split; [exact Hn|]. split; [exact Hk|]. reflexivity.
  - intros [= <-]. right. left. split; [eauto|]. split; [reflexivity|].
    rewrite quot_exact in Hstop by assumption.
    assert (Hq : unitsPerReplica ticket <= avail (rr_store rr) (accType ticket) ->
                 numReplicas final <= 0).
    { intros Hge.
      assert (1 <= avail (rr_store rr) (accType ticket) / unitsPerReplica ticket).
      { apply Z.div_le_lower_bound; lia. }
      lia. }
    split.
    + intros tk f Hl Hf Hpos.
      destruct Hprev as [[-> Hsome]|(_ & Hnone & _)]; [|rewrite Hnone in Hl; discriminate Hl].
      rewrite Hsome in Hl. injection Hl as <-. rewrite Ef in Hf. injection Hf as <-.
      destruct (Z_lt_le_dec (avail (rr_store rr) (accType tk0)) (unitsPerReplica tk0))
        as [Hlt|Hge]; [exact Hlt|]. specialize (Hq Hge). lia.
    + intros Hnone Hall.
      destruct Hprev as [[_ Hsome]|(_ & _ & Hin & Hge)];
        [rewrite Hnone in Hsome; discriminate Hsome|].
      specialize (Hq Hge). specialize (Hall final Hin). lia.
Qed.

(** A visit keeps what the round-robin has settled, and lets no count of
    [available] grow. *)
Lemma visit_rrDone (es : list serverEntry) (e : serverEntry) (rr rr' : rrState) :
  NoDup (serverName <$> es) -> e ∈ es ->
  rrInv sys rr -> rrDone sys es rr ->
  visit sys e rr = Ret rr' ->
  rrDone sys es rr' /\ forall t, avail (rr_store rr') t <= avail (rr_store rr) t.
Proof.
  intros Hnd He Hinv [Hg Ho Hi] Hrun.
  destruct (visit_outcomes e rr rr' Hinv Hrun)
    as [[_ ->]|[(_ & -> & Hstop & Hnofit)
               |(tk & final & _ & Hprev & Ef & Hu & Hn & Hk & ->)]].
  - split; [split; assumption|intros; lia].
  - split; [|intros; cbn [rr_store]; lia].
    split; cbn [allocatedTickets tickets rr_store]; [exact Hg| |].
    + intros name tk Hl Hnone. destruct (decide (serverName e = name)) as [<-|Hne].
      * destruct (Hg (serverName e) tk Hl) as [_ (e1 & final & _ & _ & Ef & _ & Hn)].
        now apply (Hstop tk final).
      * rewrite lookup_delete_ne in Hnone by exact Hne. now apply (Ho name tk).
    + intros e1 He1 Hnone Hal. destruct (decide (serverName e = serverName e1)) as [Heq|Hne].
      * assert (e = e1) as <- by (eapply (NoDup_fmap_elem serverName); eauto).
        now apply Hnofit.
      * rewrite lookup_delete_ne in Hnone by exact Hne. now apply Hi.
  - pose proof (rr_available _ _ Hinv (accType tk)) as Hav.
    assert (Hle : forall t, avail (deduct (accType tk) (unitsPerReplica tk) (rr_store rr)) t
                            <= avail (rr_store rr) t).
    { intros t. apply avail_deduct_le; lia. }
    split; [|exact Hle].
    split; cbn [allocatedTickets tickets rr_store].
    + intros name tk1. destruct (decide (serverName e = name)) as [<-|Hne].
      * rewrite lookup_insert_eq. intros [= <-]. cbn. split; [lia|].
        destruct Hprev as [Hsome|[_ Hin]].
        -- destruct (Hg _ _ Hsome) as [_ (e1 & f1 & He1 & Hname & Ef1 & Hin1 & Hn1)].
           rewrite Ef in Ef1. injection Ef1 as <-. exists e1, final. auto.
        -- exists e, final. auto.
      * rewrite lookup_insert_ne by exact Hne. apply Hg.
    + intros name tk1. destruct (decide (serverName e = name)) as [<-|Hne].
      * rewrite !lookup_insert_eq. discriminate.
      * rewrite !lookup_insert_ne by exact Hne. intros Hl Hnone.
        pose proof (Ho _ _ Hl Hnone). specialize (Hle (accType tk1)). lia.
    + intros e1 He1. destruct (decide (serverName e = serverName e1)) as [<-|Hne].
      * rewrite lookup_insert_eq. discriminate.
      * rewrite !lookup_insert_ne by exact Hne. intros Hnone Hal Hall c Hc Hfit.
        apply (Hi e1 He1 Hnone Hal Hall c Hc). eapply fitsOne_le; [exact Hle|exact Hfit].
Qed.

Lemma round_rrDone (all es : list serverEntry) (rr rr' : rrState) :
  NoDup (serverName <$> all) -> (forall e, e ∈ es -> e ∈ all) ->
  rrInv sys rr -> rrDone sys all rr ->
  round sys es rr = Ret rr' ->
  rrDone sys all rr' /\ forall t, avail (rr_store rr') t <= avail (rr_store rr) t.
Proof.
  intros Hnd. revert rr. induction es as [|e es IH]; intros rr Hsub Hinv Hd; cbn [round].
  { intros [= <-]. split; [exact Hd|intros; lia]. }
  destruct (visit sys e rr) as [rr1| |] eqn:E; try discriminate. cbn [bind].
  destruct (visit_rrInv sys Hcap _ _ _ Hinv E) as (Hinv1 & _).
  destruct (visit_rrDone all e rr rr1 Hnd (Hsub e ltac:(left)) Hinv Hd E) as [Hd1 Hle1].
  intros Hrun.
  destruct (IH rr1 (fun e' He' => Hsub e' ltac:(now right)) Hinv1 Hd1 Hrun) as [Hd' Hle'].
  split; [exact Hd'|]. intros t. specialize (Hle1 t). specialize (Hle' t). lia.
Qed.

(** The round-robin ends with no ticket in the rotation. *)
Lemma roundRobin_rrDone (fuel : nat) (es : list serverEntry) (rr rr' : rrState) :
  NoDup (serverName <$> es) ->
  rrInv sys rr -> rrDone sys es rr ->
  roundRobin sys fuel es rr = Ret rr' ->
  rrDone sys es rr' /\ tickets rr' = ∅ /\
  forall t, avail (rr_store rr') t <= avail (rr_store rr) t.
Proof.
  intros Hnd. revert rr. induction fuel as [|fuel IH]; intros rr Hinv Hd; cbn [roundRobin];
    [discriminate|].
  destruct (Nat.eqb_spec (size (tickets rr)) 0) as [Hsize|_].
  { intros [= <-]. split; [exact Hd|]. split; [now apply map_size_empty_iff|intros; lia]. }
  destruct (round sys es rr) as [rr1| |] eqn:E; try discriminate. cbn [bind].
  destruct (round_rrInv sys Hcap _ _ _ Hinv E) as (Hinv1 & _).
  destruct (round_rrDone es es rr rr1 Hnd (fun _ H => H) Hinv Hd E) as [Hd1 Hle1].
  intros Hrun. destruct (IH rr1 Hinv1 Hd1 Hrun) as (Hd' & Hempty & Hle').
  split; [exact Hd'|]. split; [exact Hempty|].
  intros t. specialize (Hle1 t). specialize (Hle' t). lia.
Qed.

(** [createTickets] only adds tickets, and leaves out a member only if the
    model of its server is not registered. *)
Lemma createTickets_keeps (es : list serverEntry)
    (tks tks' : gmap string serverAllocationTicket) (n : string) :
  createTickets sys es tks = Ret tks' -> is_Some (tks !! n) -> is_Some (tks' !! n).
Proof.
  revert tks. induction es as [|e es IH]; intros tks; cbn [createTickets].
  { now intros [= <-]. }
  destruct (GetServer sys (serverName e)) as [srv|]; [|discriminate]. cbn [deref bind].
  destruct (GetModel sys (ModelName srv)) as [mdl|]; [|apply IH].
  intros Hrun Hn. apply (IH _ Hrun).
  destruct (decide (serverName e = n)) as [<-|Hne].
  - rewrite lookup_insert_eq. eauto.
  - now rewrite lookup_insert_ne.
Qed.

Lemma createTickets_left_out (es : list serverEntry)
    (tks tks' : gmap string serverAllocationTicket) (e : serverEntry) :
  createTickets sys es tks = Ret tks' -> e ∈ es -> tks' !! serverName e = None ->
  forall srv, GetServer sys (serverName e) = Some srv ->
    GetModel sys (ModelName srv) = None.
Proof.
  revert tks. induction es as [|e0 es IH]; intros tks; cbn [createTickets].
  { intros _ He. inversion He. }
  destruct (GetServer sys (serverName e0)) as [srv0|] eqn:Es0; [|discriminate].
  cbn [deref bind].
  intros Hrun [->|He]%elem_of_cons Hnone srv Es.
  - rewrite Es0 in Es. injection Es as <-.
    destruct (GetModel sys (ModelName srv0)) as [mdl|]; [|reflexivity].
    destruct (createTickets_keeps _ _ _ (serverName e0) Hrun) as [tk Htk].
    + rewrite lookup_insert_eq. eauto.
    + rewrite Hnone in Htk. discriminate Htk.
  - destruct (GetModel sys (ModelName srv0)); eapply IH; eauto.
Qed.

(** The last loop writes, into the slot of each allocated member, the
    candidate of its ticket cut down to the replicas of the ticket. *)
Lemma commitTickets_scaled (l : list (string * serverAllocationTicket))
    (st st' : store) :
  commitTickets l st = Ret st' ->
  forall n a, allocation st' !! n = Some a ->
    allocation st !! n = Some a \/
    exists tk final,
      (n, tk) ∈ l /\ finalAlloc tk = Some final /\
      a = scaledTo final (ticket_numReplicas tk).
Proof.
  revert st. induction l as [|[n0 tk0] l IH]; intros st; cbn [commitTickets].
  { intros [= <-]. auto. }
  unfold commitTicket.
  destruct (finalAlloc tk0) as [final|] eqn:Ef; [|discriminate]. cbn [deref bind].
  intros Hrun n a Hl. destruct (IH _ Hrun n a Hl) as [Hold|(tk & f & Hin & Hf & Ha)].
  - cbn [SetAllocation allocation] in Hold.
    destruct (decide (n0 = n)) as [<-|Hne].
    + rewrite lookup_insert_eq in Hold. injection Hold as <-.
      right. exists tk0, final. split; [left|]. auto.
    + rewrite lookup_insert_ne in Hold by exact Hne. now left.
  - right. exists tk, f. split; [now right|]. auto.
Qed.

Lemma commitTickets_filled (l : list (string * serverAllocationTicket))
    (st st' : store) (n : string) :
  commitTickets l st = Ret st' ->
  is_Some (allocation st !! n) \/ n ∈ l.*1 ->
  is_Some (allocation st' !! n).
Proof.
  revert st. induction l as [|[n0 tk0] l IH]; intros st; cbn [commitTickets].
  { intros [= <-] [H|H]; [exact H|inversion H]. }
  unfold commitTicket.
  destruct (finalAlloc tk0) as [final|] eqn:Ef; [|discriminate]. cbn [deref bind].
  intros Hrun Hn. apply (IH _ Hrun). cbn [SetAllocation allocation].
  destruct (decide (n0 = n)) as [<-|Hne].
  - left. rewrite lookup_insert_eq. eauto.
  - rewrite lookup_insert_ne by exact Hne.
    destruct Hn as [Hn|Hn]; [now left|right].
    cbn [fmap list_fmap fst] in Hn. apply elem_of_cons in Hn as [->|Hn]; [congruence|exact Hn].
Qed.

(** The state after the round-robin over a group: nothing became available,
    and every member either holds one of its candidates cut down to the
    replicas granted, of which less than one further replica is available,
    or has no slot and, if all its candidates ask for at least one replica,
    no candidate of which one replica fits. *)
Lemma processUnallocatedServerGroup_outcome (es : list serverEntry) (st st' : store) :
  unitInv sys st ->
  NoDup (serverName <$> es) ->
  (forall e, e ∈ es -> allocation st !! serverName e = None) ->
  processUnallocatedServerGroup sys es st = Ret st' ->
  (forall t, avail st' t <= avail st t) /\
  forall e, e ∈ es ->
    match allocation st' !! serverName e with
    | None =>
        (forall c, c ∈ allocations e -> 0 < numReplicas c) ->
        forall c, c ∈ allocations e -> ~ fitsOne sys st' e c
    | Some a => drained sys st' e a
    end.
Proof.
  intros Hu Hnd Hfresh. unfold processUnallocatedServerGroup.
  destruct (createTickets sys es ∅) as [tks| |] eqn:Ec; try discriminate. cbn [bind].
  destruct (roundRobin sys _ es _) as [rr| |] eqn:Er; try discriminate. cbn [bind].
  intros Hrun.
  pose proof (rrInv_init sys es st tks Hu Hfresh Ec) as Hinit.
  assert (Hdinit : rrDone sys es (mkRR tks ∅ st)).
  { split; cbn [allocatedTickets tickets rr_store].
    - intros name tk Hl0. rewrite lookup_empty in Hl0. discriminate Hl0.
    - intros name tk Hl0. rewrite lookup_empty in Hl0. discriminate Hl0.
    - intros e He Hnone _ _ c Hc (srv & mdl & acc & Es & Em & _).
      rewrite (createTickets_left_out _ _ _ _ Ec He Hnone srv Es) in Em. discriminate Em. }
  destruct (roundRobin_rrInv sys Hcap _ _ _ _ Hinit Er) as (Hinv & Hslots & _).
  destruct (roundRobin_rrDone _ _ _ _ Hnd Hinit Hdinit Er) as (Hd & Hempty & Hle).
  cbn [rr_store] in Hslots, Hle.
  destruct (commitTickets_slots _ _ _ Hrun) as [Hav _].
  split; [intros t; rewrite Hav; apply Hle|].
  intros e He. destruct (allocation st' !! serverName e) as [a|] eqn:Hl.
  - destruct (commitTickets_scaled _ _ _ Hrun _ a Hl) as [Hold|(tk & f & Hin & Hf & Ha)].
    { rewrite Hslots, (Hfresh e He) in Hold. discriminate Hold. }
    apply elem_of_map_to_list in Hin.
    destruct (rr_granted _ _ Hinv _ _ Hin)
      as [(srv & acc & alloc & Es & Em & Ef & Eg & Ety & Eu & Hu1 & Hk1) _].
    rewrite Hf in Ef. injection Ef as <-.
    destruct (rd_granted _ _ _ Hd _ _ Hin) as [Hk (e1 & f' & He1 & Hname & Hf' & Hc & Hn)].
    rewrite Hf in Hf'. injection Hf' as <-.
    assert (e1 = e) as -> by (eapply (NoDup_fmap_elem serverName); eauto).
    pose proof (rd_out _ _ _ Hd _ _ Hin ltac:(rewrite Hempty; apply lookup_empty)) as Hout.
    assert (Hka : numReplicas a = ticket_numReplicas tk) by (now rewrite Ha).
    exists f, srv, (model tk), acc.
    split; [exact Hc|]. split; [exact Es|]. split; [exact Em|]. split; [exact Eg|].
    split; [now rewrite Hka|]. split; [lia|]. split; [exact Hn|].
    rewrite <- Eu, <- Ety, Hav. split; [exact Hu1|exact Hout].
  - intros Hall c Hc Hfit.
    assert (Hnone : allocatedTickets rr !! serverName e = None).
    { destruct (allocatedTickets rr !! serverName e) as [tk|] eqn:Et; [|reflexivity].
      destruct (commitTickets_filled _ _ _ (serverName e) Hrun) as [a Ha].
      - right. apply list_elem_of_fmap. exists (serverName e, tk).
        split; [reflexivity|]. now apply elem_of_map_to_list.
      - rewrite Hl in Ha. discriminate Ha. }
    apply (rd_idle _ _ _ Hd e He ltac:(rewrite Hempty; apply lookup_empty) Hnone Hall c Hc).
    eapply fitsOne_le; [|exact Hfit]. intros t. rewrite Hav. lia.
Qed.

End RoundRobinOutcome.

Section GroupsOutcome.
Import core solver props.

Variable sys : System.
Hypothesis Hcap : capacitiesValid sys.

Lemma drained_le (st st' : store) (e : serverEntry) (a : Allocation) :
  (forall t, avail st' t <= avail st t) -> drained sys st e a -> drained sys st' e a.
Proof.
  intros Hle (c & srv & mdl & acc & Hc & Es & Em & Eg & Ha & Hk & Hn & Hu & Hout).
  exists c, srv, mdl, acc. repeat split; auto.
  specialize (Hle (acc_Type acc)). lia.
Qed.

(** The state after the round-robin by priority groups. *)
Lemma groupsLoop_outcome (fuel : nat) (es : list serverEntry) (st st' : store) :
  unitInv sys st ->
  NoDup (serverName <$> es) ->
  (forall e, e ∈ es -> allocation st !! serverName e = None) ->
  groupsLoop sys fuel es st = Ret st' ->
  unitInv sys st' /\
  (forall t, avail st' t <= avail st t) /\
  (forall n, n ∉ serverName <$> es -> allocation st' !! n = allocation st !! n) /\
  forall e, e ∈ es ->
    match allocation st' !! serverName e with
    | None =>
        (forall c, c ∈ allocations e -> 0 < numReplicas c) ->
        forall c, c ∈ allocations e -> ~ fitsOne sys st' e c
    | Some a => drained sys st' e a
    end.
Proof.
  revert es st. induction fuel as [|fuel IH]; intros es st Hu Hnd Hfresh;
    cbn [groupsLoop]; [discriminate|].
  destruct es as [|e l].
  { intros [= <-]. split; [exact Hu|]. split; [intros; lia|]. split; [auto|].
    intros e He. inversion He. }
  destruct (splitGroup (priority e) l) as [g rest] eqn:Eg.
  apply splitGroup_app in Eg. subst l.
  destruct (processUnallocatedServerGroup sys (e :: g) st) as [st1| |] eqn:E;
    try discriminate.
  cbn [bind]. intros Hrun.
  rewrite app_comm_cons in Hnd, Hfresh.
  rewrite fmap_app in Hnd. apply NoDup_app in Hnd as (Hnd1 & Hdisj & Hnd2).
  assert (Hfresh0 : forall e', e' ∈ e :: g -> allocation st !! serverName e' = None).
  { intros e' He'. apply Hfresh. apply elem_of_app. now left. }
  destruct (processUnallocatedServerGroup_unitInv sys Hcap _ _ _ Hu Hfresh0 E)
    as [Hu1 Hsame1].
  destruct (processUnallocatedServerGroup_outcome sys Hcap _ _ _ Hu Hnd1 Hfresh0 E)
    as [Hle1 Hout1].
  assert (Hfresh1 : forall e', e' ∈ rest -> allocation st1 !! serverName e' = None).
  { intros e' He'. rewrite Hsame1.
    - apply Hfresh. apply elem_of_app. now right.
    - intros Hin. apply (Hdisj _ Hin). now apply list_elem_of_fmap_2. }
  destruct (IH rest st1 Hu1 Hnd2 Hfresh1 Hrun) as (Hu' & Hle' & Hsame' & Hout').
  split; [exact Hu'|].
  split; [intros t; specialize (Hle1 t); specialize (Hle' t); lia|].
  split.
  - intros n Hn. rewrite app_comm_cons, fmap_app in Hn.
    apply not_elem_of_app in Hn as [Hn1 Hn2]. now rewrite Hsame', Hsame1.
  - intros e' He'. rewrite app_comm_cons in He'.
    apply elem_of_app in He' as [He'|He']; [|now apply Hout'].
    assert (Hn : serverName e' ∉ serverName <$> rest).
    { intros Hin. apply (Hdisj (serverName e')); [|exact Hin].
      now apply list_elem_of_fmap_2. }
    rewrite (Hsame' _ Hn). specialize (Hout1 e' He').
    destruct (allocation st1 !! serverName e') as [a|].
    + eapply drained_le; eauto.
    + intros Hall c Hc Hfit. apply (Hout1 Hall c Hc). eapply fitsOne_le; eauto.
Qed.

(** Enough fuel is as good as more. *)
Lemma groupsLoop_fuel (fuel fuel' : nat) (es : list serverEntry) (st : store) :
  (length es < fuel)%nat -> (length es < fuel')%nat ->
  groupsLoop sys fuel es st = groupsLoop sys fuel' es st.
Proof.
  revert fuel' es st. induction fuel as [|fuel IH]; intros fuel' es st H1 H2; [lia|].
  destruct fuel' as [|fuel']; [lia|]. cbn [groupsLoop].
  destruct es as [|e l]; [reflexivity|].
  destruct (splitGroup (priority e) l) as [g rest] eqn:Eg.
  apply splitGroup_length in Eg. cbn [length] in H1, H2.
  destruct (processUnallocatedServerGroup sys (e :: g) st) as [st1| |]; cbn [bind];
    [|reflexivity..].
  apply IH; lia.
Qed.

(** What [splitGroup] returns for a run of members of one priority followed
    by a member of another priority, or by nothing. *)
Lemma splitGroup_run (p : Z) (g rest : list serverEntry) :
  (forall e, e ∈ g -> priority e = p) ->
  match rest with [] => True | e :: _ => priority e <> p end ->
  splitGroup p (g ++ rest) = (g, rest).
Proof.
  intros Hg Hrest. induction g as [|e g IH]; cbn [app splitGroup].
  - destruct rest as [|e rest]; [reflexivity|]. cbn [splitGroup].
    destruct (Z.eqb_spec (priority e) p); [contradiction|reflexivity].
  - rewrite (Hg e ltac:(left)), Z.eqb_refl, IH; [reflexivity|].
    intros e' He'. apply Hg. now right.
Qed.

End GroupsOutcome.

Section MainPassCovers.
Import core solver props.

Variable SortFunc : forall E : Type, (E -> E -> comparison) -> list E -> list E.
Variable sys : System.
Hypothesis Hsort : sortPermutes SortFunc.
Hypothesis Hdistinct : serversDistinct sys.

(** A property of the state of the main loop that every kind of round
    preserves holds when the loop returns; here the round that drops the top
    entry knows why: the entry has no candidates, or its server or the model
    of its server is not registered. *)
Lemma greedyLoop_invariant_dropping
    (P : list serverEntry -> list serverEntry -> store -> Prop) :
  (forall top es un st,
     P (top :: es) un st ->
     allocations top = [] \/ GetServer sys (serverName top) = None \/
       (exists srv, GetServer sys (serverName top) = Some srv /\
          GetModel sys (ModelName srv) = None) ->
     P es un st) ->
  (forall top es un st alloc acc mdl,
     P (top :: es) un st ->
     P es un (SetAllocation (serverName top) alloc
                (deduct (acc_Type acc) (unitCount mdl acc alloc) st))) ->
  (forall top es un st k d,
     P (top :: es) un st ->
     P (Insert es k (setCurIndexDelta top (S (curIndex top)) d)) un st) ->
  (forall top es un st,
     P (top :: es) un st ->
     P es (un ++ [setCurIndexDelta top (S (curIndex top)) (delta top)]) st) ->
  forall fuel es un st un' st',
    P es un st ->
    greedyLoop sys fuel es un st = Ret (un', st') ->
    P [] un' st'.
Proof.
  intros Hdrop Hassign Hnext Hout.
  induction fuel as [|fuel IH]; intros es un st un' st' HP Hrun; [discriminate Hrun|].
  cbn [greedyLoop] in Hrun.
  destruct es as [|top es].
  { injection Hrun as <- <-. exact HP. }
  destruct (Nat.eqb_spec (length (allocations top)) 0) as [Hlen|_].
  { eapply IH; [|exact Hrun]. eapply Hdrop; [exact HP|]. left.
    now apply length_zero_iff_nil. }
  destruct (GetServer sys (serverName top)) as [srv|] eqn:Es.
  2:{ eapply IH; [|exact Hrun]. eapply Hdrop; [exact HP|]. right. now left. }
  destruct (GetModel sys (ModelName srv)) as [mdl|] eqn:Em.
  2:{ eapply IH; [|exact Hrun]. eapply Hdrop; [exact HP|]. right. right. eauto. }
  destruct (allocations top !! curIndex top) as [alloc|] eqn:Ea; [|discriminate Hrun].
  destruct (GetAccelerator sys (accelerator alloc)) as [acc|] eqn:Eg;
    [|discriminate Hrun].
  cbn [deref bind] in Hrun.
  destruct (avail st (acc_Type acc) >=? unitCount mdl acc alloc).
  - eapply IH; [|exact Hrun]. now apply Hassign.
  - destruct (S (curIndex top) + 1 <? length (allocations top))%nat.
    + eapply IH; [|exact Hrun]. now apply Hnext.
    + destruct (S (curIndex top) =? length (allocations top))%nat.
      * eapply IH; [|exact Hrun]. now apply Hout.
      * eapply IH; [|exact Hrun]. now apply Hnext.
Qed.

(** The main loop loses no server: a registered server with candidates
    whose model is registered ends the loop with an allocation or among the
    unallocated servers, if it started with an allocation or an entry. *)
Lemma greedyLoop_covers (fuel : nat) (es un un' : list serverEntry) (st st' : store)
    (n : string) (srv : Server) (mdl : Model) :
  GetServer sys n = Some srv ->
  GetModel sys (ModelName srv) = Some mdl ->
  AllAllocations srv <> [] ->
  (is_Some (allocation st !! n) \/
   exists e, e ∈ es ++ un /\ serverName e = n /\
     Permutation (allocations e) (AllAllocations srv)) ->
  greedyLoop sys fuel es un st = Ret (un', st') ->
  is_Some (allocation st' !! n) \/
  exists e, e ∈ un' /\ serverName e = n /\
    Permutation (allocations e) (AllAllocations srv).
Proof.
  intros Es Em Hne Hinit Hrun.
  pose (P := fun (es un : list serverEntry) (st : store) =>
    is_Some (allocation st !! n) \/
    exists e, e ∈ es ++ un /\ serverName e = n /\
      Permutation (allocations e) (AllAllocations srv)).
  change (P [] un' st'). revert Hrun. change (P es un st) in Hinit. revert Hinit.
  apply greedyLoop_invariant_dropping; unfold P; clear P.
  - intros top es0 un0 st0 [H|(e & He & Hn & Hp)] Hwhy; [now left|].
    cbn [app] in He. apply elem_of_cons in He as [->|He]; [|right; eauto].
    exfalso. destruct Hwhy as [Hnil|[Hnone|(srv' & Es' & Em')]].
    + rewrite Hnil in Hp. apply Permutation_nil_l in Hp. now apply Hne.
    + rewrite Hn in Hnone. congruence.
    + rewrite Hn, Es in Es'. injection Es' as <-. congruence.
  - intros top es0 un0 st0 alloc acc mdl0 [H|(e & He & Hn & Hp)].
    + left. cbn [SetAllocation allocation deduct].
      destruct (decide (serverName top = n)) as [<-|Hd].
      * rewrite lookup_insert_eq. eauto.
      * now rewrite lookup_insert_ne.
    + cbn [app] in He. apply elem_of_cons in He as [->|He]; [|right; eauto].
      left. cbn [SetAllocation allocation deduct]. rewrite Hn, lookup_insert_eq. eauto.
  - intros top es0 un0 st0 k d [H|(e & He & Hn & Hp)]; [now left|right].
    cbn [app] in He. apply elem_of_cons in He as [->|He].
    + exists (setCurIndexDelta top (S (curIndex top)) d). split; [|auto].
      apply elem_of_app. left. rewrite Insert_Permutation. left.
    + exists e. split; [|auto]. apply elem_of_app in He as [He|He].
      * apply elem_of_app. left. rewrite Insert_Permutation. now right.
      * apply elem_of_app. now right.
  - intros top es0 un0 st0 [H|(e & He & Hn & Hp)]; [now left|right].
    cbn [app] in He. apply elem_of_cons in He as [->|He].
    + exists (setCurIndexDelta top (S (curIndex top)) (delta top)). split; [|auto].
      apply elem_of_app. right. apply elem_of_app. right. left.
    + exists e. split; [|auto]. rewrite app_assoc. apply elem_of_app. now left.
Qed.

(** After the main pass, a registered server with candidates whose model is
    registered has an allocation or is among the unallocated servers, with
    its candidates. *)
Lemma mainPass_covers (previous : gmap string Allocation) (un : list serverEntry)
    (st : store) (n : string) (srv : Server) (mdl : Model) :
  mainPass SortFunc sys previous = Ret (un, st) ->
  GetServer sys n = Some srv ->
  GetModel sys (ModelName srv) = Some mdl ->
  AllAllocations srv <> [] ->
  is_Some (allocation st !! n) \/
  exists e, e ∈ un /\ serverName e = n /\
    Permutation (allocations e) (AllAllocations srv).
Proof.
  unfold mainPass. rewrite buildEntries_eq. cbn [app].
  intros Hrun Es Em Hne.
  eapply greedyLoop_covers; [exact Es|exact Em|exact Hne| |exact Hrun].
  right. rewrite app_nil_r.
  destruct (newEntry SortFunc n srv) as [e|] eqn:E.
  - exists e. pose proof (newEntry_Some SortFunc Hsort _ _ _ E) as (Hn & _ & _ & Hp).
    split; [|auto]. rewrite (Hsort _ _ _). apply list_elem_of_omap.
    exists (n, srv). split; [|exact E]. now apply assoc_Some_elem.
  - exfalso. unfold newEntry in E.
    destruct (AllAllocations srv); [now apply Hne|discriminate E].
Qed.

End MainPassCovers.

Section SolveOutcome.
Import core solver props.

Variable SortFunc : forall E : Type, (E -> E -> comparison) -> list E -> list E.
Variable sys : System.
Hypothesis Hsort : sortPermutes SortFunc.
Hypothesis Hdistinct : serversDistinct sys.
Hypothesis Hcap : capacitiesValid sys.
Hypothesis Hcounts : countsValid sys.

(** A solve in two steps: the main pass, which leaves the unallocated
    servers [un] and the store [st1], and the saturation, which lets nothing
    become available, changes no slot but those of [un], and under a policy
    other than None leaves every server of [un] either with one of its
    candidates cut down to a positive replica count, or without a candidate
    of which one replica fits. *)
Lemma SolveGreedy_outcome (policy : SaturatedAllocationPolicy)
    (previous : gmap string Allocation) (st : store) :
  SolveGreedy SortFunc sys policy previous = Ret st ->
  exists un st1,
    mainPass SortFunc sys previous = Ret (un, st1) /\
    saturated sys un st1 /\ slotInv sys [] un st1 /\
    (forall t, avail st t <= avail st1 t) /\
    (forall n, n ∉ serverName <$> un -> allocation st !! n = allocation st1 !! n) /\
    (policy = PolicyNone -> st = st1) /\
    (policy <> PolicyNone ->
     forall e, e ∈ un ->
       match allocation st !! serverName e with
       | None =>
           (forall c, c ∈ allocations e -> 0 < numReplicas c) ->
           forall c, c ∈ allocations e -> ~ fitsOne sys st e c
       | Some a =>
           exists c, c ∈ allocations e /\ a = scaledTo c (numReplicas a) /\
             0 < numReplicas a
       end).
Proof.
  unfold SolveGreedy.
  destruct (mainPass SortFunc sys previous) as [[un st1]| |] eqn:E; try discriminate.
  cbn [bind]. intros Hrun. exists un, st1. split; [reflexivity|].
  pose proof (mainPass_saturated SortFunc sys Hsort Hdistinct Hcap Hcounts _ _ _ E) as Hsat.
  pose proof (mainPass_slotInv SortFunc sys Hsort Hdistinct _ _ _ E) as Hslot.
  split; [exact Hsat|]. split; [exact Hslot|].
  destruct Hsat as [Hu Hnd Hsrv Hfresh Href].
  destruct policy.
  - injection Hrun as <-. split; [intros; lia|]. split; [auto|]. split; [auto|].
    intros H. contradiction.
  - destruct (processUnallocatedServers_outcome sys un st1 st Hu Hnd Hfresh Hrun)
      as (_ & Hle & Hsame & Hout).
    split; [exact Hle|]. split; [exact Hsame|]. split; [discriminate|].
    intros _ e He. specialize (Hout e He).
    destruct (allocation st !! serverName e) as [a|].
    + destruct Hout as (c & _ & _ & _ & Hc & _ & _ & _ & Ha & Hk & _).
      exists c. repeat split; auto; lia.
    + intros _. exact Hout.
  - destruct (groupsLoop_outcome sys Hcap _ un st1 st Hu Hnd Hfresh Hrun)
      as (_ & Hle & Hsame & Hout).
    split; [exact Hle|]. split; [exact Hsame|]. split; [discriminate|].
    intros _ e He. specialize (Hout e He).
    destruct (allocation st !! serverName e) as [a|]; [|exact Hout].
    destruct Hout as (c & _ & _ & _ & Hc & _ & _ & _ & Ha & Hk & _).
    exists c. repeat split; auto; lia.
  - destruct (processUnallocatedServerGroup_unitInv sys Hcap un st1 st Hu Hfresh Hrun)
      as [_ Hsame].
    destruct (processUnallocatedServerGroup_outcome sys Hcap un st1 st Hu Hnd Hfresh Hrun)
      as [Hle Hout].
    split; [exact Hle|]. split; [exact Hsame|]. split; [discriminate|].
    intros _ e He. specialize (Hout e He).
    destruct (allocation st !! serverName e) as [a|]; [|exact Hout].
    destruct Hout as (c & _ & _ & _ & Hc & _ & _ & _ & Ha & Hk & _).
    exists c. repeat split; auto; lia.
Qed.

End SolveOutcome.

Section SolveProperties.
Import core solver props.

Variable SortFunc : forall E : Type, (E -> E -> comparison) -> list E -> list E.
Variable sys : System.
Hypothesis Hsort : sortPermutes SortFunc.
Hypothesis Hdistinct : serversDistinct sys.
Hypothesis Hcap : capacitiesValid sys.
Hypothesis Hcounts : countsValid sys.

(** X13: the saturation keeps what the main loop allocated. Within one run
    of [SolveGreedy], under every policy: the run reaches the end of its main
    loop with the unallocated servers [un] and the store [st1]; every
    allocation in a slot then is in that slot, unchanged, when the run ends;
    a slot that is different at the end belongs to a registered server of
    [un], whose slot the main loop left empty; and no accelerator type has
    more units left at the end than at the end of the main loop. *)
Theorem SolveGreedy_saturation_keeps_main_pass (policy : SaturatedAllocationPolicy)
    (previous : gmap string Allocation) (s : store) :
  SolveGreedy SortFunc sys policy previous = Ret s ->
  exists un st1,
    mainPass SortFunc sys previous = Ret (un, st1) /\
    (forall n a, allocation st1 !! n = Some a -> allocation s !! n = Some a) /\
    (forall n, allocation s !! n <> allocation st1 !! n ->
       n ∈ serverName <$> un /\ is_Some (GetServer sys n) /\
       allocation st1 !! n = None) /\
    (forall t, avail s t <= avail st1 t).
Proof.
  intros H.
  destruct (SolveGreedy_outcome SortFunc sys Hsort Hdistinct Hcap Hcounts _ _ _ H)
    as (un & st1 & E & Hsat & _ & Hle & Hsame & _).
  exists un, st1. split; [exact E|].
  assert (Hin : forall n, n ∈ serverName <$> un ->
            is_Some (GetServer sys n) /\ allocation st1 !! n = None).
  { intros n (e & -> & He)%list_elem_of_fmap. split.
    - now apply (sat_servers _ _ _ Hsat).
    - now apply (sat_slots _ _ _ Hsat). }
  split; [|split; [|exact Hle]].
  - intros n a Hl. rewrite Hsame; [exact Hl|].
    intros Hn. destruct (Hin n Hn) as [_ Hx]. rewrite Hx in Hl. discriminate Hl.
  - intros n Hdiff. destruct (decide (n ∈ serverName <$> un)) as [Hn|Hn]; [auto|].
    exfalso. apply Hdiff. now apply Hsame.
Qed.

(** X14: the solver hands out only candidates. Under every policy, the
    allocation that a registered server has after [SolveGreedy] is one of the
    candidates of the server ([AllAllocations]) as it is, or, under a policy
    other than None, a candidate cut down to a positive number of replicas:
    the replica count is replaced, cost and value are multiplied by the new
    count over the count of the candidate, and accelerator, batch size and
    performance figures are those of the candidate. *)
Theorem SolveGreedy_allocates_candidates (policy : SaturatedAllocationPolicy)
    (previous : gmap string Allocation) (s : store) (n : string) (srv : Server)
    (a : Allocation) :
  SolveGreedy SortFunc sys policy previous = Ret s ->
  GetServer sys n = Some srv ->
  allocation s !! n = Some a ->
  exists c,
    c ∈ AllAllocations srv /\
    (a = c \/
     policy <> PolicyNone /\ 0 < numReplicas a /\
     a = mkAllocation (accelerator c) (numReplicas a) (batchSize c)
           (cost c * (float32 (numReplicas a) / float32 (numReplicas c)))
           (value c * (float32 (numReplicas a) / float32 (numReplicas c)))
           (servTime c) (waitTime c) (rho c) (maxArrvRatePerReplica c)).
Proof.
  intros H Es Hl.
  destruct (SolveGreedy_outcome SortFunc sys Hsort Hdistinct Hcap Hcounts _ _ _ H)
    as (un & st1 & E & Hsat & Hslot & _ & Hsame & Hnone & Hout).
  destruct (decide (n ∈ serverName <$> un)) as [Hn|Hn].
  - apply list_elem_of_fmap in Hn as (e & -> & He).
    destruct (inv_entries _ _ _ _ Hslot e ltac:(now apply elem_of_app; right))
      as [_ (srv' & Es' & Hsub)].
    rewrite Es in Es'. injection Es' as <-.
    assert (Hp : policy <> PolicyNone).
    { intros Hp. rewrite (Hnone Hp), (sat_slots _ _ _ Hsat e He) in Hl. discriminate Hl. }
    specialize (Hout Hp e He). rewrite Hl in Hout.
    destruct Hout as (c & Hc & Ha & Hk). exists c. split; [now apply Hsub|].
    right. split; [exact Hp|]. split; [exact Hk|]. exact Ha.
  - rewrite (Hsame n Hn) in Hl. exists a. split; [|now left].
    now apply (inv_slots _ _ _ _ Hslot n a srv).
Qed.

(** X15: a saturation leaves nothing that it could still hand out. After
    [SolveGreedy] under a policy other than None, take a registered server
    with a registered model, all of whose candidates ask for at least one
    replica. If the server has no allocation, then of no candidate on a
    registered accelerator does even one replica (a positive number of
    units) fit into what is left of the type of its accelerator. *)
Theorem SolveGreedy_saturates (policy : SaturatedAllocationPolicy)
    (previous : gmap string Allocation) (s : store) (n : string) (srv : Server)
    (mdl : Model) :
  policy <> PolicyNone ->
  SolveGreedy SortFunc sys policy previous = Ret s ->
  GetServer sys n = Some srv ->
  GetModel sys (ModelName srv) = Some mdl ->
  (forall c, c ∈ AllAllocations srv -> 0 < numReplicas c) ->
  allocation s !! n = None ->
  forall c acc,
    c ∈ AllAllocations srv ->
    GetAccelerator sys (accelerator c) = Some acc ->
    0 < unitsPerReplicaOf mdl acc (accelerator c) ->
    avail s (acc_Type acc) < unitsPerReplicaOf mdl acc (accelerator c).
Proof.
  intros Hp H Es Em Hall Hl c acc Hc Eg Hu.
  destruct (SolveGreedy_outcome SortFunc sys Hsort Hdistinct Hcap Hcounts _ _ _ H)
    as (un & st1 & E & Hsat & Hslot & _ & Hsame & _ & Hout).
  assert (Hne : AllAllocations srv <> []).
  { intros Hnil. rewrite Hnil in Hc. inversion Hc. }
  destruct (mainPass_covers SortFunc sys Hsort _ _ _ n srv mdl E Es Em Hne)
    as [[a Ha]|(e & He & Hn & Hperm)].
  { assert (Hnot : n ∉ serverName <$> un).
    { intros (e & -> & He)%list_elem_of_fmap.
      rewrite (sat_slots _ _ _ Hsat e He) in Ha. discriminate Ha. }
    rewrite (Hsame n Hnot), Ha in Hl. discriminate Hl. }
  specialize (Hout Hp e He). rewrite Hn, Hl in Hout.
  destruct (Z_lt_le_dec (avail s (acc_Type acc)) (unitsPerReplicaOf mdl acc (accelerator c)))
    as [Hlt|Hge]; [exact Hlt|].
  exfalso. apply (Hout (fun c' Hc' => Hall c' ltac:(now rewrite <- Hperm)) c).
  - now rewrite Hperm.
  - exists srv, mdl, acc. rewrite Hn. repeat split; auto; lia.
Qed.

(** X16: under policy None a server goes without an allocation only if
    nothing it could use is left. After [SolveGreedy] under policy None, a
    registered server with a registered model that has no allocation has
    only candidates that ask for more units ([NumReplicas] times the units
    per replica, as the solver computes the count) than are left of the type
    of their accelerator. *)
Theorem SolveGreedy_PolicyNone_refuses (previous : gmap string Allocation) (s : store)
    (n : string) (srv : Server) (mdl : Model) :
  SolveGreedy SortFunc sys PolicyNone previous = Ret s ->
  GetServer sys n = Some srv ->
  GetModel sys (ModelName srv) = Some mdl ->
  allocation s !! n = None ->
  forall c acc,
    c ∈ AllAllocations srv ->
    GetAccelerator sys (accelerator c) = Some acc ->
    avail s (acc_Type acc) < unitCount mdl acc c.
Proof.
  intros H Es Em Hl c acc Hc Eg.
  destruct (SolveGreedy_outcome SortFunc sys Hsort Hdistinct Hcap Hcounts _ _ _ H)
    as (un & st1 & E & Hsat & _ & _ & _ & Hnone & _).
  rewrite (Hnone eq_refl) in *.
  assert (Hne : AllAllocations srv <> []).
  { intros Hnil. rewrite Hnil in Hc. inversion Hc. }
  destruct (mainPass_covers SortFunc sys Hsort _ _ _ n srv mdl E Es Em Hne)
    as [[a Ha]|(e & He & Hn & Hperm)].
  { rewrite Ha in Hl. discriminate Hl. }
  apply (sat_refused _ _ _ Hsat e He c ltac:(now rewrite Hperm) srv mdl acc);
    [now rewrite Hn|exact Em|exact Eg].
Qed.

End SolveProperties.

Section SaturationProcedures.
Import core solver props.

Variable sys : System.
Hypothesis Hcap : capacitiesValid sys.

(** X12: the round-robin hands out replicas until none fits. After
    [processUnallocatedServerGroup], run from a state with the units in
    balance on distinct servers with empty slots whose candidates all ask
    for at least one replica: a member with an allocation holds one of its
    candidates with at least one replica, and less than one further replica
    of it is available now; a member without an allocation has no candidate
    on a registered accelerator of which even one replica (a positive number
    of units) fits into what is available now. *)
Theorem processUnallocatedServerGroup_exhausts (es : list serverEntry) (st st' : store) :
  unitInv sys st ->
  NoDup (serverName <$> es) ->
  (forall e, e ∈ es -> allocation st !! serverName e = None) ->
  (forall e c, e ∈ es -> c ∈ allocations e -> 0 < numReplicas c) ->
  processUnallocatedServerGroup sys es st = Ret st' ->
  forall e, e ∈ es ->
    match allocation st' !! serverName e with
    | None =>
        forall c srv mdl acc,
          c ∈ allocations e ->
          GetServer sys (serverName e) = Some srv ->
          GetModel sys (ModelName srv) = Some mdl ->
          GetAccelerator sys (accelerator c) = Some acc ->
          0 < unitsPerReplicaOf mdl acc (accelerator c) ->
          avail st' (acc_Type acc) < unitsPerReplicaOf mdl acc (accelerator c)
    | Some a =>
        exists c srv mdl acc,
          c ∈ allocations e /\
          GetServer sys (serverName e) = Some srv /\
          GetModel sys (ModelName srv) = Some mdl /\
          GetAccelerator sys (accelerator c) = Some acc /\
          accelerator a = accelerator c /\
          1 <= numReplicas a /\
          avail st' (acc_Type acc) < unitsPerReplicaOf mdl acc (accelerator c)
    end.
Proof.
  intros Hu Hnd Hfresh Hall Hrun e He.
  destruct (processUnallocatedServerGroup_outcome sys Hcap es st st' Hu Hnd Hfresh Hrun)
    as [_ Hout].
  specialize (Hout e He). destruct (allocation st' !! serverName e) as [a|].
  - destruct Hout as (c & srv & mdl & acc & Hc & Es & Em & Eg & Ha & Hk & _ & _ & Hlt).
    exists c, srv, mdl, acc. repeat split; auto. now rewrite Ha.
  - intros c srv mdl acc Hc Es Em Eg Hpos.
    destruct (Z_lt_le_dec (avail st' (acc_Type acc))
                (unitsPerReplicaOf mdl acc (accelerator c))) as [Hlt|Hge]; [exact Hlt|].
    exfalso. apply (Hout (fun c' Hc' => Hall e c' He Hc') c Hc).
    exists srv, mdl, acc. repeat split; auto. now apply (Hall e).
Qed.

(** X17: [processGroupsOfUnallocatedServers] is the round-robin, one
    priority group after the other. For a list that starts with a run
    [e :: g] of servers of one priority: if the run is the whole list, the
    procedure does what [processUnallocatedServerGroup] does on it; if the
    run is followed by [rest], which is empty or starts with a server of
    another priority, the procedure runs [processUnallocatedServerGroup] on
    the run and then itself on [rest], from the state that the run left. *)
Theorem processGroupsOfUnallocatedServers_by_group (e : serverEntry)
    (g rest : list serverEntry) (st : store) :
  (forall e', e' ∈ g -> priority e' = priority e) ->
  processGroupsOfUnallocatedServers sys (e :: g) st =
    processUnallocatedServerGroup sys (e :: g) st /\
  (match rest with [] => True | e' :: _ => priority e' <> priority e end ->
   processGroupsOfUnallocatedServers sys (e :: g ++ rest) st =
     try! st' := processUnallocatedServerGroup sys (e :: g) st in
     processGroupsOfUnallocatedServers sys rest st').
Proof.
  intros Hg.
  assert (Hstep : forall rest,
    match rest with [] => True | e' :: _ => priority e' <> priority e end ->
    processGroupsOfUnallocatedServers sys (e :: g ++ rest) st =
      try! st' := processUnallocatedServerGroup sys (e :: g) st in
      processGroupsOfUnallocatedServers sys rest st').
  { intros rest0 Hrest. unfold processGroupsOfUnallocatedServers.
    set (f := S (length rest0)). cbn [groupsLoop].
    rewrite (splitGroup_run (priority e) g rest0 Hg Hrest).
    destruct (processUnallocatedServerGroup sys (e :: g) st) as [st1| |]; cbn [bind];
      [|reflexivity..].
    subst f. apply groupsLoop_fuel; cbn [length]; rewrite ?length_app; lia. }
  split; [|apply Hstep].
  pose proof (Hstep [] I) as H. rewrite app_nil_r in H. rewrite H.
  destruct (processUnallocatedServerGroup sys (e :: g) st); reflexivity.
Qed.

End SaturationProcedures.

Section EntryOrder.
Import core solver.

(** X18: on entries whose current index is within their candidates,
    [orderFunc] is a comparison that [slices.SortFunc] and
    [slices.BinarySearchFunc] can work with: an entry is equal to itself,
    exchanging the arguments reverses the result, and both "less" and
    "equal" are transitive. *)
Theorem orderFunc_consistent (a b c : serverEntry) :
  (curIndex a < length (allocations a))%nat ->
  (curIndex b < length (allocations b))%nat ->
  (curIndex c < length (allocations c))%nat ->
  orderFunc a a = Eq /\
  orderFunc b a = CompOpp (orderFunc a b) /\
  (orderFunc a b = Lt -> orderFunc b c = Lt -> orderFunc a c = Lt) /\
  (orderFunc a b = Eq -> orderFunc b c = Eq -> orderFunc a c = Eq).
Proof.
  intros _ _ _. unfold orderFunc, cmpCompareQ, cmpCompareZ, Qeqb.
  set (va := valueAt (allocations a) (curIndex a)).
  set (vb := valueAt (allocations b) (curIndex b)).
  set (vc := valueAt (allocations c) (curIndex c)).
  assert (Hq : forall x y : Q,
            (Qeq_bool x y = true /\ x == y) \/ (Qeq_bool x y = false /\ ~ x == y)).
  { intros x y. destruct (Qeq_bool x y) eqn:E.
    - left. split; [reflexivity|now apply Qeq_bool_iff].
    - right. split; [reflexivity|]. now apply Qeq_bool_neq. }
  split; [|split; [|split]].
  - rewrite Z.eqb_refl.
    destruct (Hq (delta a) (delta a)) as [[-> _]|[_ H]]; [|exfalso; apply H; reflexivity].
    apply Qeq_alt. reflexivity.
  - rewrite (Z.eqb_sym (priority b) (priority a)).
    destruct (Z.eqb_spec (priority a) (priority b)) as [Hp|Hp].
    + destruct (Hq (delta a) (delta b)) as [[-> Hd]|[-> Hd]];
        destruct (Hq (delta b) (delta a)) as [[-> Hd']|[-> Hd']].
      * now rewrite <- Qcompare_antisym.
      * exfalso. apply Hd'. now symmetry.
      * exfalso. apply Hd. now symmetry.
      * now rewrite <- Qcompare_antisym.
    + now rewrite Z.compare_antisym.
  - destruct (Z.eqb_spec (priority a) (priority b)) as [Hab|Hab];
      destruct (Z.eqb_spec (priority b) (priority c)) as [Hbc|Hbc];
      destruct (Z.eqb_spec (priority a) (priority c)) as [Hac|Hac]; try lia;
      rewrite ?Z.compare_lt_iff; try lia.
    destruct (Hq (delta a) (delta b)) as [[-> Hd1]|[-> Hd1]];
      destruct (Hq (delta b) (delta c)) as [[-> Hd2]|[-> Hd2]];
      destruct (Hq (delta a) (delta c)) as [[-> Hd3]|[-> Hd3]];
      rewrite <- ?Qlt_alt; intros H1 H2; lra.
  - destruct (Z.eqb_spec (priority a) (priority b)) as [Hab|Hab];
      destruct (Z.eqb_spec (priority b) (priority c)) as [Hbc|Hbc];
      destruct (Z.eqb_spec (priority a) (priority c)) as [Hac|Hac]; try lia;
      rewrite ?Z.compare_eq_iff; try lia.
    destruct (Hq (delta a) (delta b)) as [[-> Hd1]|[-> Hd1]];
      destruct (Hq (delta b) (delta c)) as [[-> Hd2]|[-> Hd2]];
      destruct (Hq (delta a) (delta c)) as [[-> Hd3]|[-> Hd3]];
      rewrite <- ?Qeq_alt; intros H1 H2; lra.
Qed.

End EntryOrder.

Section FurtherSolverAtInputs.
Import core solver props examples.
Local Open Scope string_scope.

Lemma serversDistinct_sysPair (units : Z) : serversDistinct (sysPair units).
Proof.
  unfold serversDistinct. cbn. apply NoDup_cons. split; [|apply NoDup_singleton].
  intros H%list_elem_of_singleton. discriminate H.
Qed.

Lemma capacitiesValid_sysPair (units : Z) :
  0 <= units <= GoInt.MaxInt -> capacitiesValid (sysPair units).
Proof.
  intros Hu t c H. cbn [GetCapacities sysPair] in H.
  apply lookup_singleton_Some in H as [_ <-]. exact Hu.
Qed.

Lemma pair_servers (units : Z) (name : string) (srv : Server) (a : Allocation) :
  GetServer (sysPair units) name = Some srv -> a ∈ AllAllocations srv ->
  ModelName srv = "granite_13b" /\ a = twoMin.
Proof.
  unfold GetServer, sysPair. cbn. intros Hs Ha.
  destruct (String.eqb name "Premium-g13b").
  - injection Hs as <-. cbn in Ha. apply list_elem_of_singleton in Ha as ->. auto.
  - destruct (String.eqb name "Bronze-g13b"); [|discriminate Hs].
    injection Hs as <-. cbn in Ha. apply list_elem_of_singleton in Ha as ->. auto.
Qed.

Lemma countsValid_sysPair (units : Z) : countsValid (sysPair units).
Proof.
  intros name srv mdl acc a Hs Hm Ha Hg.
  destruct (pair_servers units name srv a Hs Ha) as [Hmn ->]. rewrite Hmn in Hm.
  cbn in Hm, Hg. injection Hm as <-. injection Hg as <-. discriminate.
Qed.

Lemma acceleratorsKnown_sysPair (units : Z) : acceleratorsKnown (sysPair units).
Proof.
  intros name srv a Hs Ha. destruct (pair_servers units name srv a Hs Ha) as [_ ->].
  cbn. eauto.
Qed.

Lemma three_units : 0 <= 3 <= GoInt.MaxInt.
Proof. split; [lia|discriminate]. Qed.

Lemma two_units : 0 <= 2 <= GoInt.MaxInt.
Proof. split; [lia|discriminate]. Qed.

(** X11 at a concrete system: two servers and three units. The main pass
    gives two units to the first server and refuses the second, which the
    exhaustive procedure then gives the one replica that is left. *)
Lemma processUnallocatedServers_exhausts_at_sysPair :
  let e := mkEntry "Bronze-g13b" 2 1 [twoMin] MaxFloat32 in
  let st := mkStore {["A100" := 1]} {["Premium-g13b" := twoMin]} in
  mainPass insertionSort (sysPair 3) ∅ = Ret ([e], st) /\
  unitInv (sysPair 3) st /\
  NoDup (serverName <$> [e]) /\
  (forall e', e' ∈ [e] -> allocation st !! serverName e' = None) /\
  exists st' a,
    processUnallocatedServers (sysPair 3) [e] st = Ret st' /\
    allocation st' !! "Bronze-g13b" = Some a /\
    accelerator a = "A100" /\ numReplicas a = 1 /\ avail st' "A100" = 0.
Proof.
  intros e st.
  assert (E : mainPass insertionSort (sysPair 3) ∅ = Ret ([e], st))
    by (vm_compute; reflexivity).
  destruct (mainPass_saturated insertionSort (sysPair 3) insertionSort_Permutation
              (serversDistinct_sysPair 3) (capacitiesValid_sysPair 3 three_units)
              (countsValid_sysPair 3) _ _ _ E) as [Hu Hnd _ Hfresh _].
  split; [exact E|]. split; [exact Hu|]. split; [exact Hnd|]. split; [exact Hfresh|].
  destruct (processUnallocatedServers (sysPair 3) [e] st) as [st'| |] eqn:Er;
    [|vm_compute in Er; discriminate Er..].
  pose proof (processUnallocatedServers_exhausts (sysPair 3) [e] st st' Hu Hnd Hfresh Er
                e ltac:(left)) as Hout.
  cbn [serverName e] in Hout.
  destruct (allocation st' !! "Bronze-g13b") as [a|] eqn:Ea;
    [|pose proof Er as Er'; vm_compute in Er'; injection Er' as <-;
      vm_compute in Ea; discriminate Ea].
  destruct Hout as (c & srv & mdl & acc & Hc & _ & _ & _ & Hacc & _ & _).
  apply list_elem_of_singleton in Hc as ->.
  exists st', a. split; [reflexivity|]. split; [exact Ea|]. split; [exact Hacc|].
  pose proof Er as Er'. vm_compute in Er'. injection Er' as <-.
  vm_compute in Ea. injection Ea as <-. split; reflexivity.
Defined.

(** X12 at the same system: the round-robin gives the second server the one
    replica that is left. *)
Lemma processUnallocatedServerGroup_exhausts_at_sysPair :
  let e := mkEntry "Bronze-g13b" 2 1 [twoMin] MaxFloat32 in
  let st := mkStore {["A100" := 1]} {["Premium-g13b" := twoMin]} in
  capacitiesValid (sysPair 3) /\
  mainPass insertionSort (sysPair 3) ∅ = Ret ([e], st) /\
  unitInv (sysPair 3) st /\
  NoDup (serverName <$> [e]) /\
  (forall e', e' ∈ [e] -> allocation st !! serverName e' = None) /\
  (forall e' c, e' ∈ [e] -> c ∈ allocations e' -> 0 < numReplicas c) /\
  exists st' a,
    processUnallocatedServerGroup (sysPair 3) [e] st = Ret st' /\
    allocation st' !! "Bronze-g13b" = Some a /\
    accelerator a = "A100" /\ 1 <= numReplicas a /\ avail st' "A100" = 0.
Proof.
  intros e st.
  assert (E : mainPass insertionSort (sysPair 3) ∅ = Ret ([e], st))
    by (vm_compute; reflexivity).
  pose proof (capacitiesValid_sysPair 3 three_units) as Hcap.
  destruct (mainPass_saturated insertionSort (sysPair 3) insertionSort_Permutation
              (serversDistinct_sysPair 3) Hcap
              (countsValid_sysPair 3) _ _ _ E) as [Hu Hnd _ Hfresh _].
  assert (Hall : forall e' c, e' ∈ [e] -> c ∈ allocations e' -> 0 < numReplicas c).
  { intros e' c ->%list_elem_of_singleton ->%list_elem_of_singleton. reflexivity. }
  split; [exact Hcap|]. split; [exact E|]. split; [exact Hu|]. split; [exact Hnd|].
  split; [exact Hfresh|]. split; [exact Hall|].
  destruct (processUnallocatedServerGroup (sysPair 3) [e] st) as [st'| |] eqn:Er;
    [|vm_compute in Er; discriminate Er..].
  pose proof (processUnallocatedServerGroup_exhausts (sysPair 3) Hcap [e] st st'
                Hu Hnd Hfresh Hall Er e ltac:(left)) as Hout.
  cbn [serverName e] in Hout.
  destruct (allocation st' !! "Bronze-g13b") as [a|] eqn:Ea;
    [|pose proof Er as Er'; vm_compute in Er'; injection Er' as <-;
      vm_compute in Ea; discriminate Ea].
  destruct Hout as (c & srv & mdl & acc & Hc & _ & _ & _ & Hacc & Hk & _).
  apply list_elem_of_singleton in Hc as ->.
  exists st', a. split; [reflexivity|]. split; [exact Ea|]. split; [exact Hacc|].
  split; [exact Hk|].
  pose proof Er as Er'. vm_compute in Er'. injection Er' as <-. reflexivity.
Defined.

(** X13 at the same system, under the round-robin: the allocation that the
    main loop gave the first server is there at the end. *)
Lemma SolveGreedy_saturation_keeps_main_pass_at_sysPair :
  sortPermutes insertionSort /\ serversDistinct (sysPair 3) /\
  capacitiesValid (sysPair 3) /\ countsValid (sysPair 3) /\
  exists s un st1,
    SolveGreedy insertionSort (sysPair 3) RoundRobin ∅ = Ret s /\
    mainPass insertionSort (sysPair 3) ∅ = Ret (un, st1) /\
    allocation st1 !! "Premium-g13b" = Some twoMin /\
    allocation s !! "Premium-g13b" = Some twoMin /\
    avail s "A100" <= avail st1 "A100".
Proof.
  pose proof (capacitiesValid_sysPair 3 three_units) as Hcap.
  split; [exact insertionSort_Permutation|]. split; [exact (serversDistinct_sysPair 3)|].
  split; [exact Hcap|]. split; [exact (countsValid_sysPair 3)|].
  destruct (SolveGreedy insertionSort (sysPair 3) RoundRobin ∅) as [s| |] eqn:E;
    [|vm_compute in E; discriminate E..].
  destruct (SolveGreedy_saturation_keeps_main_pass insertionSort (sysPair 3)
              insertionSort_Permutation (serversDistinct_sysPair 3) Hcap
              (countsValid_sysPair 3) RoundRobin ∅ s E)
    as (un & st1 & Em & Hkeep & _ & Hle).
  assert (H1 : allocation st1 !! "Premium-g13b" = Some twoMin).
  { pose proof Em as Em'. vm_compute in Em'. injection Em' as <- <-. reflexivity. }
  exists s, un, st1. split; [reflexivity|]. split; [exact Em|]. split; [exact H1|].
  split; [exact (Hkeep _ _ H1)|exact (Hle "A100")].
Defined.

(** X14 at the same system: under the exhaustive policy the second server
    ends with its candidate cut down to one replica at half the cost. *)
Lemma SolveGreedy_allocates_candidates_at_sysPair :
  sortPermutes insertionSort /\ serversDistinct (sysPair 3) /\
  capacitiesValid (sysPair 3) /\ countsValid (sysPair 3) /\
  exists s a,
    SolveGreedy insertionSort (sysPair 3) PriorityExhaustive ∅ = Ret s /\
    GetServer (sysPair 3) "Bronze-g13b" = Some (pairServer "Bronze-g13b" 2) /\
    allocation s !! "Bronze-g13b" = Some a /\
    numReplicas a = 1 /\
    a = mkAllocation (accelerator twoMin) (numReplicas a) (batchSize twoMin)
          (cost twoMin * (float32 (numReplicas a) / float32 (numReplicas twoMin)))
          (value twoMin * (float32 (numReplicas a) / float32 (numReplicas twoMin)))
          (servTime twoMin) (waitTime twoMin) (rho twoMin) (maxArrvRatePerReplica twoMin).
Proof.
  pose proof (capacitiesValid_sysPair 3 three_units) as Hcap.
  split; [exact insertionSort_Permutation|]. split; [exact (serversDistinct_sysPair 3)|].
  split; [exact Hcap|]. split; [exact (countsValid_sysPair 3)|].
  destruct (SolveGreedy insertionSort (sysPair 3) PriorityExhaustive ∅) as [s| |] eqn:E;
    [|vm_compute in E; discriminate E..].
  destruct (allocation s !! "Bronze-g13b") as [a|] eqn:Ea;
    [|pose proof E as E'; vm_compute in E'; injection E' as <-;
      vm_compute in Ea; discriminate Ea].
  assert (Hk : numReplicas a = 1).
  { pose proof E as E'. vm_compute in E'. injection E' as <-.
    vm_compute in Ea. injection Ea as <-. reflexivity. }
  destruct (SolveGreedy_allocates_candidates insertionSort (sysPair 3)
              insertionSort_Permutation (serversDistinct_sysPair 3) Hcap
              (countsValid_sysPair 3) PriorityExhaustive ∅ s "Bronze-g13b"
              (pairServer "Bronze-g13b" 2) a E eq_refl Ea) as (c & Hc & Hcase).
  cbn in Hc. apply list_elem_of_singleton in Hc as ->.
  exists s, a. split; [reflexivity|]. split; [reflexivity|]. split; [exact Ea|].
  split; [exact Hk|].
  destruct Hcase as [->|(_ & _ & Ha)]; [discriminate Hk|exact Ha].
Defined.

(** X15 at a concrete system: two servers and two units. The main pass gives
    both units to the first server; the round-robin by priority groups has
    nothing to hand out, and the second server ends without an allocation
    with less than the one unit of a replica available. *)
Lemma SolveGreedy_saturates_at_sysPair :
  sortPermutes insertionSort /\ serversDistinct (sysPair 2) /\
  capacitiesValid (sysPair 2) /\ countsValid (sysPair 2) /\
  PriorityRoundRobin <> PolicyNone /\
  exists s,
    SolveGreedy insertionSort (sysPair 2) PriorityRoundRobin ∅ = Ret s /\
    GetServer (sysPair 2) "Bronze-g13b" = Some (pairServer "Bronze-g13b" 2) /\
    GetModel (sysPair 2) "granite_13b" = Some granite /\
    (forall c, c ∈ AllAllocations (pairServer "Bronze-g13b" 2) -> 0 < numReplicas c) /\
    allocation s !! "Bronze-g13b" = None /\
    twoMin ∈ AllAllocations (pairServer "Bronze-g13b" 2) /\
    GetAccelerator (sysPair 2) "A100" = Some A100 /\
    0 < unitsPerReplicaOf granite A100 "A100" /\
    avail s "A100" < unitsPerReplicaOf granite A100 "A100".
Proof.
  pose proof (capacitiesValid_sysPair 2 two_units) as Hcap.
  split; [exact insertionSort_Permutation|]. split; [exact (serversDistinct_sysPair 2)|].
  split; [exact Hcap|]. split; [exact (countsValid_sysPair 2)|].
  split; [discriminate|].
  destruct (SolveGreedy insertionSort (sysPair 2) PriorityRoundRobin ∅) as [s| |] eqn:E;
    [|vm_compute in E; discriminate E..].
  assert (Hall : forall c, c ∈ AllAllocations (pairServer "Bronze-g13b" 2) ->
                   0 < numReplicas c).
  { intros c ->%list_elem_of_singleton. reflexivity. }
  assert (Hl : allocation s !! "Bronze-g13b" = None).
  { pose proof E as E'. vm_compute in E'. injection E' as <-. reflexivity. }
  assert (Hin : twoMin ∈ AllAllocations (pairServer "Bronze-g13b" 2)) by left.
  assert (Hpos : 0 < unitsPerReplicaOf granite A100 "A100") by reflexivity.
  exists s. split; [reflexivity|]. split; [reflexivity|]. split; [reflexivity|].
  split; [exact Hall|]. split; [exact Hl|]. split; [exact Hin|]. split; [reflexivity|].
  split; [exact Hpos|].
  exact (SolveGreedy_saturates insertionSort (sysPair 2)
           insertionSort_Permutation (serversDistinct_sysPair 2) Hcap
           (countsValid_sysPair 2) PriorityRoundRobin ∅ s "Bronze-g13b"
           (pairServer "Bronze-g13b" 2) granite ltac:(discriminate) E eq_refl eq_refl
           Hall Hl twoMin A100 Hin eq_refl Hpos).
Defined.

(** X16 at the system with three units: under policy None the second server
    has no allocation, and its candidate asks for two units where one is
    left. *)
Lemma SolveGreedy_PolicyNone_refuses_at_sysPair :
  sortPermutes insertionSort /\ serversDistinct (sysPair 3) /\
  capacitiesValid (sysPair 3) /\ countsValid (sysPair 3) /\
  exists s,
    SolveGreedy insertionSort (sysPair 3) PolicyNone ∅ = Ret s /\
    GetServer (sysPair 3) "Bronze-g13b" = Some (pairServer "Bronze-g13b" 2) /\
    GetModel (sysPair 3) "granite_13b" = Some granite /\
    allocation s !! "Bronze-g13b" = None /\
    twoMin ∈ AllAllocations (pairServer "Bronze-g13b" 2) /\
    GetAccelerator (sysPair 3) "A100" = Some A100 /\
    avail s "A100" < unitCount granite A100 twoMin.
Proof.
  pose proof (capacitiesValid_sysPair 3 three_units) as Hcap.
  split; [exact insertionSort_Permutation|]. split; [exact (serversDistinct_sysPair 3)|].
  split; [exact Hcap|]. split; [exact (countsValid_sysPair 3)|].
  destruct (SolveGreedy insertionSort (sysPair 3) PolicyNone ∅) as [s| |] eqn:E;
    [|vm_compute in E; discriminate E..].
  assert (Hl : allocation s !! "Bronze-g13b" = None).
  { pose proof E as E'. vm_compute in E'. injection E' as <-. reflexivity. }
  assert (Hin : twoMin ∈ AllAllocations (pairServer "Bronze-g13b" 2)) by left.
  exists s. split; [reflexivity|]. split; [reflexivity|]. split; [reflexivity|].
  split; [exact Hl|]. split; [exact Hin|]. split; [reflexivity|].
  exact (SolveGreedy_PolicyNone_refuses insertionSort (sysPair 3)
           insertionSort_Permutation (serversDistinct_sysPair 3) Hcap
           (countsValid_sysPair 3) ∅ s "Bronze-g13b"
           (pairServer "Bronze-g13b" 2) granite E eq_refl eq_refl
           Hl twoMin A100 Hin eq_refl).
Defined.

(** X17 at two entries of different priorities and three units: the
    procedure runs the round-robin on the first entry alone, then on the
    second. *)
Lemma processGroupsOfUnallocatedServers_by_group_at_sysPair :
  let e1 := mkEntry "Premium-g13b" 1 1 [twoMin] MaxFloat32 in
  let e2 := mkEntry "Bronze-g13b" 2 1 [twoMin] MaxFloat32 in
  let st := mkStore {["A100" := 3]} ∅ in
  (forall e', e' ∈ [] -> priority e' = priority e1) /\
  priority e2 <> priority e1 /\
  processGroupsOfUnallocatedServers (sysPair 3) [e1] st =
    processUnallocatedServerGroup (sysPair 3) [e1] st /\
  processGroupsOfUnallocatedServers (sysPair 3) [e1; e2] st =
    try! st' := processUnallocatedServerGroup (sysPair 3) [e1] st in
    processGroupsOfUnallocatedServers (sysPair 3) [e2] st'.
Proof.
  intros e1 e2 st.
  assert (Hg : forall e', e' ∈ [] -> priority e' = priority e1).
  { intros e' He'. inversion He'. }
  assert (Hrest : priority e2 <> priority e1) by discriminate.
  destruct (processGroupsOfUnallocatedServers_by_group (sysPair 3) e1 [] [e2] st Hg)
    as [Hone Hstep].
  split; [exact Hg|]. split; [exact Hrest|]. split; [exact Hone|exact (Hstep Hrest)].
Defined.

(** X18 at three entries with in-range indices: lower priority number
    first, then larger delta. *)
Lemma orderFunc_consistent_at_entries :
  let a := mkEntry "a" 1 0 [twoMin] 5 in
  let b := mkEntry "b" 2 0 [twoMin] 7 in
  let c := mkEntry "c" 2 0 [twoMin] 6 in
  (curIndex a < length (allocations a))%nat /\
  (curIndex b < length (allocations b))%nat /\
  (curIndex c < length (allocations c))%nat /\
  orderFunc a b = Lt /\ orderFunc b c = Lt /\ orderFunc a c = Lt /\
  orderFunc b a = Gt.
Proof.
  intros a b c.
  assert (Ha : (curIndex a < length (allocations a))%nat) by (cbn; lia).
  assert (Hb : (curIndex b < length (allocations b))%nat) by (cbn; lia).
  assert (Hc : (curIndex c < length (allocations c))%nat) by (cbn; lia).
  destruct (orderFunc_consistent a b c Ha Hb Hc) as (_ & Hanti & Hlt & _).
  assert (Hab : orderFunc a b = Lt) by reflexivity.
  assert (Hbc : orderFunc b c = Lt) by reflexivity.
  split; [exact Ha|]. split; [exact Hb|]. split; [exact Hc|].
  split; [exact Hab|]. split; [exact Hbc|]. split; [exact (Hlt Hab Hbc)|].
  rewrite Hanti, Hab. reflexivity.
Defined.

End FurtherSolverAtInputs.

(** * Further properties of [Scale] *)

Section ScaleResults.
Import core props.

Variable MaxQueueToBatchRatio : Z.
Variables Delta StabilitySafetyFraction SLOMargin : Q.
Variable Solve : MM1ModelStateDependent -> Q -> QueueStats.
Variable BinarySearch : Q -> Q -> Q -> (Q -> option Q) -> Q * Z * bool.
Variable sys : System.

(** What [CreateAllocation] returns is on the accelerator asked for, when
    the accelerator is registered under its own name. *)
Lemma CreateAllocation_accelerator (serverName gName : string) (a : Allocation) :
  (forall acc, GetAccelerator sys gName = Some acc -> acc_Name acc = gName) ->
  CreateAllocation MaxQueueToBatchRatio Delta StabilitySafetyFraction SLOMargin
    Solve BinarySearch sys serverName gName = Some a ->
  accelerator a = gName.
Proof.
  intros Hname H.
  destruct (CreateAllocation_Some_inv _ _ _ _ _ _ _ _ _ _ H)
    as (acc & srv & ld & mdl & perf & svc & target & Eg & _ & _ & _ & _ & _ & _ & _ & Ha).
  destruct (Qeqb (ArrivalRate ld) 0 || (AvgLength ld =? 0)).
  - injection Ha as <-. cbn. now apply Hname.
  - unfold positiveLoadAllocation in Ha.
    destruct (lambdaStarService _ _ _ _ _ _ _) as [lsService|]; [|discriminate Ha].
    destruct (lambdaStarWait _ _ _ _ _ _ _) as [lsWait|]; [|discriminate Ha].
    cbn [mbind option_bind] in Ha. injection Ha as <-. reflexivity.
Qed.

(** X19: scaling settles at once. If [Scale] on an allocation returns an
    allocation and an increment, and the accelerator of the allocation is
    registered under its own name, then the allocation returned is on the
    same accelerator, the increment is the difference of the replica counts,
    and [Scale] on the allocation returned gives the same allocation again
    with increment 0. *)
Theorem Scale_settles (a a' : Allocation) (serverName : string) (inc : Z) :
  (forall acc, GetAccelerator sys (accelerator a) = Some acc ->
     acc_Name acc = accelerator a) ->
  Scale MaxQueueToBatchRatio Delta StabilitySafetyFraction SLOMargin
    Solve BinarySearch sys a serverName = Ret (Some a', inc) ->
  accelerator a' = accelerator a /\
  inc = GoInt.sub (numReplicas a') (numReplicas a) /\
  Scale MaxQueueToBatchRatio Delta StabilitySafetyFraction SLOMargin
    Solve BinarySearch sys a' serverName = Ret (Some a', 0).
Proof.
  intros Hname Hrun.
  assert (Hc : CreateAllocation MaxQueueToBatchRatio Delta StabilitySafetyFraction
                 SLOMargin Solve BinarySearch sys serverName (accelerator a) = Some a' /\
               inc = GoInt.sub (numReplicas a') (numReplicas a)).
  { unfold Scale in Hrun.
    destruct (GetServer sys serverName) as [srv|]; [|discriminate Hrun].
    destruct (Load srv) as [ld|]; [|discriminate Hrun].
    destruct (GetAccelerator sys (accelerator a)) as [acc|]; [|discriminate Hrun].
    destruct (CreateAllocation _ _ _ _ _ _ sys serverName (accelerator a)) as [a1|];
      [|discriminate Hrun].
    cbn [deref bind] in Hrun. injection Hrun as -> <-. split; reflexivity. }
  destruct Hc as [Ec ->].
  pose proof (CreateAllocation_accelerator _ _ _ Hname Ec) as Hacc.
  split; [exact Hacc|]. split; [reflexivity|].
  rewrite <- Hacc in Ec.
  rewrite (Scale_feasible _ _ _ _ _ _ _ a' a' serverName Ec).
  unfold GoInt.sub. now rewrite Z.sub_diag.
Qed.

End ScaleResults.

Section ScaleResultsAtInputs.
Import core props examples.
Local Open Scope string_scope.

(** X19 at a concrete system: the server of [sysFits], from two replicas on
    A100. *)
Lemma Scale_settles_at_sysFits :
  (forall acc, GetAccelerator sysFits (accelerator twoReplicas) = Some acc ->
     acc_Name acc = accelerator twoReplicas) /\
  exists a' inc,
    Scale MaxQueueToBatchRatio Delta StabilitySafetyFraction SLOMargin
      Solve BinarySearch sysFits twoReplicas "Premium-g13b" = Ret (Some a', inc) /\
    accelerator a' = "A100" /\
    Scale MaxQueueToBatchRatio Delta StabilitySafetyFraction SLOMargin
      Solve BinarySearch sysFits a' "Premium-g13b" = Ret (Some a', 0).
Proof.
  assert (Hname : forall acc, GetAccelerator sysFits (accelerator twoReplicas) = Some acc ->
                    acc_Name acc = accelerator twoReplicas).
  { intros acc [= <-]. reflexivity. }
  split; [exact Hname|].
  destruct (Scale MaxQueueToBatchRatio Delta StabilitySafetyFraction SLOMargin
              Solve BinarySearch sysFits twoReplicas "Premium-g13b")
    as [[[a'|] inc]| |] eqn:E; [|vm_compute in E; discriminate E..].
  destruct (Scale_settles MaxQueueToBatchRatio Delta StabilitySafetyFraction SLOMargin
              Solve BinarySearch sysFits twoReplicas a' "Premium-g13b" inc Hname E)
    as (Hacc & _ & Hagain).
  exists a', inc. split; [reflexivity|]. split; [exact Hacc|exact Hagain].
Defined.

End ScaleResultsAtInputs.

Section SolveReturnsAtInputs.
Import core solver props examples.
Local Open Scope string_scope.

(** X20 at the system of two servers and three units, under the
    round-robin. *)
Lemma SolveGreedy_returns_at_sysPair :
  sortPermutes insertionSort /\ serversDistinct (sysPair 3) /\
  acceleratorsKnown (sysPair 3) /\ capacitiesValid (sysPair 3) /\
  countsValid (sysPair 3) /\
  exists st, SolveGreedy insertionSort (sysPair 3) RoundRobin ∅ = Ret st.
Proof.
  pose proof (capacitiesValid_sysPair 3 three_units) as Hcap.
  split; [exact insertionSort_Permutation|]. split; [exact (serversDistinct_sysPair 3)|].
  split; [exact (acceleratorsKnown_sysPair 3)|]. split; [exact Hcap|].
  split; [exact (countsValid_sysPair 3)|].
  exact (SolveGreedy_returns insertionSort (sysPair 3) insertionSort_Permutation
           (serversDistinct_sysPair 3) (acceleratorsKnown_sysPair 3) Hcap
           (countsValid_sysPair 3) RoundRobin ∅).
Defined.

End SolveReturnsAtInputs.

(** * Solves under every saturation policy *)

Section SlotsBehind.
Import core solver props.

Variable sys : System.

Lemma deduct_behind (m0 : gmap string Allocation) (t : string) (c : Z) (st : store) :
  deduct t c (behind m0 st) = behind m0 (deduct t c st).
Proof. reflexivity. Qed.

Lemma SetAllocation_behind (m0 : gmap string Allocation) (name : string)
    (a : Allocation) (st : store) :
  SetAllocation name a (behind m0 st) = behind m0 (SetAllocation name a st).
Proof.
  unfold SetAllocation, behind. cbn [available allocation]. now rewrite insert_union_l.
Qed.

(** The saturation procedures never read a slot: slots that lie behind
    those of the store stay behind those of the result. *)
Lemma exhaustEntry_behind (m0 : gmap string Allocation) (e : serverEntry)
    (allocs : list Allocation) (st : store) :
  exhaustEntry sys e allocs (behind m0 st) =
    try! st' := exhaustEntry sys e allocs st in Ret (behind m0 st').
Proof.
  induction allocs as [|alloc allocs IH]; cbn [exhaustEntry]; [reflexivity|].
  destruct (GetServer sys (serverName e)) as [srv|]; [|reflexivity]. cbn [deref bind].
  destruct (GetAccelerator sys (accelerator alloc)) as [acc|]; [|exact IH].
  destruct (GetModel sys (ModelName srv)) as [mdl|]; [|exact IH].
  destruct (unitsPerReplicaOf mdl acc (accelerator alloc) >? 0); [|exact IH].
  change (avail (behind m0 st)) with (avail st).
  destruct (Z.min _ _ >? 0); [|exact IH].
  cbn [bind]. now rewrite SetAllocation_behind, deduct_behind.
Qed.

Lemma processUnallocatedServers_behind (m0 : gmap string Allocation)
    (es : list serverEntry) (st : store) :
  processUnallocatedServers sys es (behind m0 st) =
    try! st' := processUnallocatedServers sys es st in Ret (behind m0 st').
Proof.
  revert st. induction es as [|e es IH]; intros st; cbn [processUnallocatedServers];
    [reflexivity|].
  rewrite exhaustEntry_behind.
  destruct (exhaustEntry sys e (allocations e) st) as [st1| |]; cbn [bind];
    [apply IH|reflexivity..].
Qed.

Lemma activate_behind (m0 : gmap string Allocation) (tk : serverAllocationTicket)
    (allocs : list Allocation) (st : store) :
  activate sys tk allocs (behind m0 st) = activate sys tk allocs st.
Proof.
  induction allocs as [|alloc allocs IH]; cbn [activate]; [reflexivity|].
  rewrite IH. reflexivity.
Qed.

Lemma visit_behind (m0 : gmap string Allocation) (e : serverEntry)
    (tks al : gmap string serverAllocationTicket) (st : store) :
  visit sys e (mkRR tks al (behind m0 st)) =
    try! rr' := visit sys e (mkRR tks al st) in
    Ret (mkRR (tickets rr') (allocatedTickets rr') (behind m0 (rr_store rr'))).
Proof.
  unfold visit. cbn [tickets allocatedTickets rr_store].
  destruct (tks !! serverName e) as [tk0|]; [|reflexivity].
  rewrite activate_behind. change (avail (behind m0 st)) with (avail st).
  set (ticket := if active tk0 then tk0 else _).
  destruct (negb (active ticket)); [reflexivity|].
  destruct (unitsPerReplica ticket =? 0); [reflexivity|].
  destruct (finalAlloc ticket) as [final|]; [|reflexivity]. cbn [deref bind].
  destruct (Z.min _ _ >? 0); reflexivity.
Qed.

Lemma round_behind (m0 : gmap string Allocation) (es : list serverEntry)
    (tks al : gmap string serverAllocationTicket) (st : store) :
  round sys es (mkRR tks al (behind m0 st)) =
    try! rr' := round sys es (mkRR tks al st) in
    Ret (mkRR (tickets rr') (allocatedTickets rr') (behind m0 (rr_store rr'))).
Proof.
  revert tks al st. induction es as [|e es IH]; intros tks al st; cbn [round];
    [reflexivity|].
  rewrite visit_behind.
  destruct (visit sys e (mkRR tks al st)) as [[tks1 al1 st1]| |]; cbn [bind];
    [apply IH|reflexivity..].
Qed.

Lemma roundRobin_behind (m0 : gmap string Allocation) (fuel : nat)
    (es : list serverEntry) (tks al : gmap string serverAllocationTicket) (st : store) :
  roundRobin sys fuel es (mkRR tks al (behind m0 st)) =
    try! rr' := roundRobin sys fuel es (mkRR tks al st) in
    Ret (mkRR (tickets rr') (allocatedTickets rr') (behind m0 (rr_store rr'))).
Proof.
  revert tks al st. induction fuel as [|fuel IH]; intros tks al st; cbn [roundRobin];
    [reflexivity|].
  cbn [tickets]. destruct (size tks =? 0)%nat; [reflexivity|].
  rewrite round_behind.
  destruct (round sys es (mkRR tks al st)) as [[tks1 al1 st1]| |]; cbn [bind];
    [apply IH|reflexivity..].
Qed.

Lemma commitTickets_behind (m0 : gmap string Allocation)
    (l : list (string * serverAllocationTicket)) (st : store) :
  commitTickets l (behind m0 st) =
    try! st' := commitTickets l st in Ret (behind m0 st').
Proof.
  revert st. induction l as [|[n tk] l IH]; intros st; cbn [commitTickets];
    [reflexivity|].
  unfold commitTicket. destruct (finalAlloc tk) as [final|]; [|reflexivity].
  cbn [deref bind]. rewrite SetAllocation_behind. apply IH.
Qed.

Lemma processUnallocatedServerGroup_behind (m0 : gmap string Allocation)
    (es : list serverEntry) (st : store) :
  processUnallocatedServerGroup sys es (behind m0 st) =
    try! st' := processUnallocatedServerGroup sys es st in Ret (behind m0 st').
Proof.
  unfold processUnallocatedServerGroup.
  destruct (createTickets sys es ∅) as [tks| |]; cbn [bind]; [|reflexivity..].
  change (roundRobinFuel tks (behind m0 st)) with (roundRobinFuel tks st).
  rewrite roundRobin_behind.
  destruct (roundRobin sys _ es _) as [[tks1 al1 st1]| |]; cbn [bind]; [|reflexivity..].
  cbn [allocatedTickets rr_store]. apply commitTickets_behind.
Qed.

Lemma groupsLoop_behind (m0 : gmap string Allocation) (fuel : nat)
    (es : list serverEntry) (st : store) :
  groupsLoop sys fuel es (behind m0 st) =
    try! st' := groupsLoop sys fuel es st in Ret (behind m0 st').
Proof.
  revert es st. induction fuel as [|fuel IH]; intros es st; cbn [groupsLoop];
    [reflexivity|].
  destruct es as [|e l]; [reflexivity|].
  destruct (splitGroup (priority e) l) as [g rest].
  rewrite processUnallocatedServerGroup_behind.
  destruct (processUnallocatedServerGroup sys (e :: g) st) as [st1| |]; cbn [bind];
    [apply IH|reflexivity..].
Qed.

Variable SortFunc : forall E : Type, (E -> E -> comparison) -> list E -> list E.

(** A solve started from slots [previous] is the solve started from empty
    slots, with the slots of [previous] that belong to no registered server
    left behind it, under every policy. *)
Lemma SolveGreedy_previous (policy : SaturatedAllocationPolicy)
    (previous : gmap string Allocation) :
  exists m0 : gmap string Allocation,
    (forall name srv, GetServer sys name = Some srv -> m0 !! name = None) /\
    SolveGreedy SortFunc sys policy previous =
      try! st0 := SolveGreedy SortFunc sys policy ∅ in Ret (behind m0 st0).
Proof.
  destruct (mainPass_previous SortFunc sys previous) as (m0 & Hm0 & Heq).
  exists m0. split; [exact Hm0|]. unfold SolveGreedy. rewrite Heq.
  destruct (mainPass SortFunc sys ∅) as [[un st1]| |]; cbn [onStore bind];
    [|reflexivity..].
  destruct policy.
  - reflexivity.
  - apply processUnallocatedServers_behind.
  - apply groupsLoop_behind.
  - apply processUnallocatedServerGroup_behind.
Qed.

End SlotsBehind.

Section EveryPolicy.
Import core solver props.

Variable SortFunc : forall E : Type, (E -> E -> comparison) -> list E -> list E.
Variable sys : System.
Hypothesis Hsort : sortPermutes SortFunc.
Hypothesis Hdistinct : serversDistinct sys.
Hypothesis Hcap : capacitiesValid sys.
Hypothesis Hcounts : countsValid sys.

(** C9: [SolveGreedy] empties the slot of every registered server before it
    builds the entries, and nothing in a solve reads a slot. So after a
    solve under any policy a registered server without candidates has no
    allocation; under policy None a server whose candidates were all refused
    (it ended the main loop in the unallocated list, its candidates
    exhausted, each asking for more units than are left) has no allocation;
    and under any policy the slot of every registered server is what the
    same solve, visiting the servers in the same order, leaves in it when
    started from empty slots: no allocation of an earlier solve survives. *)
Theorem SolveGreedy_no_stale_allocation (policy : SaturatedAllocationPolicy)
    (previous : gmap string Allocation) (st : store) :
  SolveGreedy SortFunc sys policy previous = Ret st ->
  (forall name srv, GetServer sys name = Some srv ->
     AllAllocations srv = [] -> allocation st !! name = None) /\
  (policy = PolicyNone ->
   exists un, mainPass SortFunc sys previous = Ret (un, st) /\
     forall e, e ∈ un ->
       curIndex e = length (allocations e) /\
       refused sys st e /\
       allocation st !! serverName e = None) /\
  (exists st0, SolveGreedy SortFunc sys policy ∅ = Ret st0 /\
     forall name srv, GetServer sys name = Some srv ->
       allocation st !! name = allocation st0 !! name).
Proof.
  intros Hrun.
  destruct (SolveGreedy_outcome SortFunc sys Hsort Hdistinct Hcap Hcounts _ _ _ Hrun)
    as (un & st1 & E & Hsat & Hslot & _ & Hsame & Hnone & Hout).
  split; [|split].
  - intros name srv Hs Hnil.
    destruct (allocation st !! name) as [a|] eqn:Hl; [|reflexivity]. exfalso.
    destruct (decide (name ∈ serverName <$> un)) as [Hn|Hn].
    + apply list_elem_of_fmap in Hn as (e & -> & He).
      destruct (inv_entries _ _ _ _ Hslot e ltac:(now apply elem_of_app; right))
        as [_ (srv' & Es' & Hsub)].
      rewrite Hs in Es'. injection Es' as <-.
      assert (Hp : policy <> PolicyNone).
      { intros Hp. rewrite (Hnone Hp), (sat_slots _ _ _ Hsat e He) in Hl.
        discriminate Hl. }
      specialize (Hout Hp e He). rewrite Hl in Hout.
      destruct Hout as (c & Hc & _). apply Hsub in Hc. rewrite Hnil in Hc. inversion Hc.
    + rewrite (Hsame name Hn) in Hl.
      pose proof (inv_slots _ _ _ _ Hslot name a srv Hl Hs) as Ha.
      rewrite Hnil in Ha. inversion Ha.
  - intros Hp. rewrite (Hnone Hp). exists un. split; [exact E|].
    intros e He. split; [|split].
    + revert e He. unfold mainPass in E.
      destruct (buildEntries _ _ _ _) as [es st2].
      eapply greedyLoop_unallocated; [|exact E]. intros e He. inversion He.
    + now apply (sat_refused _ _ _ Hsat).
    + now apply (sat_slots _ _ _ Hsat).
  - destruct (SolveGreedy_previous sys SortFunc policy previous) as (m0 & Hm0 & Heq).
    rewrite Hrun in Heq.
    destruct (SolveGreedy SortFunc sys policy ∅) as [st0| |]; try discriminate Heq.
    cbn [bind] in Heq. injection Heq as ->. exists st0. split; [reflexivity|].
    intros name srv Hs. cbn [behind allocation].
    rewrite lookup_union_l; [reflexivity|]. eapply Hm0; eauto.
Qed.

(** C5 (as amended): after a solve under any policy, a registered server
    that has an allocation holds one of its own candidates as it is, and
    then has at least its minNumReplicas whenever its candidates have (as
    those that [CreateAllocation] returns do); or the policy is not None,
    the main loop left the server without an allocation, and the server
    holds one of its candidates cut down to a positive replica count, with
    cost and value in proportion, for which no minimum is kept. *)
Theorem SolveGreedy_minNumReplicas (policy : SaturatedAllocationPolicy)
    (previous : gmap string Allocation) (st : store) :
  (forall name srv a, GetServer sys name = Some srv -> a ∈ AllAllocations srv ->
     minNumReplicas srv <= numReplicas a) ->
  SolveGreedy SortFunc sys policy previous = Ret st ->
  forall name srv a,
    GetServer sys name = Some srv -> allocation st !! name = Some a ->
    (a ∈ AllAllocations srv /\ numReplicas a >= minNumReplicas srv) \/
    (policy <> PolicyNone /\
     (exists un st1,
        mainPass SortFunc sys previous = Ret (un, st1) /\
        allocation st1 !! name = None) /\
     exists c,
       c ∈ AllAllocations srv /\ minNumReplicas srv <= numReplicas c /\
       0 < numReplicas a /\
       a = mkAllocation (accelerator c) (numReplicas a) (batchSize c)
             (cost c * (float32 (numReplicas a) / float32 (numReplicas c)))
             (value c * (float32 (numReplicas a) / float32 (numReplicas c)))
             (servTime c) (waitTime c) (rho c) (maxArrvRatePerReplica c)).
Proof.
  intros Hmin Hrun name srv a Hs Hl.
  destruct (SolveGreedy_outcome SortFunc sys Hsort Hdistinct Hcap Hcounts _ _ _ Hrun)
    as (un & st1 & E & Hsat & Hslot & _ & Hsame & Hnone & Hout).
  destruct (decide (name ∈ serverName <$> un)) as [Hn|Hn].
  - apply list_elem_of_fmap in Hn as (e & -> & He).
    destruct (inv_entries _ _ _ _ Hslot e ltac:(now apply elem_of_app; right))
      as [_ (srv' & Es' & Hsub)].
    rewrite Hs in Es'. injection Es' as <-.
    assert (Hp : policy <> PolicyNone).
    { intros Hp. rewrite (Hnone Hp), (sat_slots _ _ _ Hsat e He) in Hl.
      discriminate Hl. }
    specialize (Hout Hp e He). rewrite Hl in Hout.
    destruct Hout as (c & Hc & Ha & Hk). right. split; [exact Hp|]. split.
    + exists un, st1. split; [exact E|]. now apply (sat_slots _ _ _ Hsat).
    + exists c. split; [now apply Hsub|]. split; [|split; [exact Hk|exact Ha]].
      apply (Hmin _ _ _ Hs). now apply Hsub.
  - rewrite (Hsame name Hn) in Hl. left.
    pose proof (inv_slots _ _ _ _ Hslot name a srv Hl Hs) as Hin.
    split; [exact Hin|]. specialize (Hmin _ _ _ Hs Hin). lia.
Qed.

End EveryPolicy.

Section EveryPolicyAtInputs.
Import core solver props examples.
Local Open Scope string_scope.

(** C9 at a concrete system: the server carries an allocation from an
    earlier solve, its only candidate needs two units and one is available;
    under policy None the solve leaves it without an allocation. *)
Lemma SolveGreedy_no_stale_allocation_at_sysTwoMin :
  let previous : gmap string Allocation := {["Premium-g13b" := oneReplica]} in
  sortPermutes insertionSort /\ serversDistinct sysTwoMin /\
  capacitiesValid sysTwoMin /\ countsValid sysTwoMin /\
  exists st,
    SolveGreedy insertionSort sysTwoMin PolicyNone previous = Ret st /\
    allocation st !! "Premium-g13b" = None.
Proof.
  intros previous.
  split; [exact insertionSort_Permutation|]. split; [exact serversDistinct_sysTwoMin|].
  split; [exact capacitiesValid_sysTwoMin|]. split; [exact countsValid_sysTwoMin|].
  destruct (SolveGreedy insertionSort sysTwoMin PolicyNone previous) as [st| |] eqn:E;
    [|vm_compute in E; discriminate E..].
  exists st. split; [reflexivity|].
  destruct (SolveGreedy_no_stale_allocation insertionSort sysTwoMin
              insertionSort_Permutation serversDistinct_sysTwoMin
              capacitiesValid_sysTwoMin countsValid_sysTwoMin PolicyNone previous st E)
    as (_ & H2 & _).
  destruct (H2 eq_refl) as (un & Em & Hun).
  pose proof Em as Em'. vm_compute in Em'. injection Em' as <- _.
  apply (Hun (mkEntry "Premium-g13b" 1 1 [twoMin] MaxFloat32)). left.
Defined.

Lemma minimum_sysPair (units : Z) :
  forall name srv a, GetServer (sysPair units) name = Some srv ->
    a ∈ AllAllocations srv -> minNumReplicas srv <= numReplicas a.
Proof.
  intros name srv a Hs Ha. destruct (pair_servers units name srv a Hs Ha) as [_ ->].
  unfold GetServer, sysPair in Hs. cbn in Hs.
  destruct (String.eqb name "Premium-g13b"); [injection Hs as <-; cbn; lia|].
  destruct (String.eqb name "Bronze-g13b"); [|discriminate Hs].
  injection Hs as <-. cbn. lia.
Qed.

(** C5 (as amended) at a concrete system: two servers with a minimum of two
    replicas, three units, the exhaustive policy. The first server holds its
    candidate of two replicas; the second, which the main loop refused,
    holds its candidate cut down to one replica. *)
Lemma SolveGreedy_minNumReplicas_at_sysPair :
  sortPermutes insertionSort /\ serversDistinct (sysPair 3) /\
  capacitiesValid (sysPair 3) /\ countsValid (sysPair 3) /\
  (forall name srv a, GetServer (sysPair 3) name = Some srv -> a ∈ AllAllocations srv ->
     minNumReplicas srv <= numReplicas a) /\
  exists st a1 a2,
    SolveGreedy insertionSort (sysPair 3) PriorityExhaustive ∅ = Ret st /\
    GetServer (sysPair 3) "Premium-g13b" = Some (pairServer "Premium-g13b" 1) /\
    GetServer (sysPair 3) "Bronze-g13b" = Some (pairServer "Bronze-g13b" 2) /\
    allocation st !! "Premium-g13b" = Some a1 /\
    allocation st !! "Bronze-g13b" = Some a2 /\
    numReplicas a1 >= minNumReplicas (pairServer "Premium-g13b" 1) /\
    numReplicas a2 = 1 /\ 0 < numReplicas a2 /\
    exists c, c ∈ AllAllocations (pairServer "Bronze-g13b" 2) /\
      accelerator a2 = accelerator c.
Proof.
  pose proof (capacitiesValid_sysPair 3 three_units) as Hcap.
  split; [exact insertionSort_Permutation|]. split; [exact (serversDistinct_sysPair 3)|].
  split; [exact Hcap|]. split; [exact (countsValid_sysPair 3)|].
  split; [exact (minimum_sysPair 3)|].
  destruct (SolveGreedy insertionSort (sysPair 3) PriorityExhaustive ∅) as [st| |] eqn:E;
    [|vm_compute in E; discriminate E..].
  destruct (allocation st !! "Premium-g13b") as [a1|] eqn:E1;
    [|pose proof E as E'; vm_compute in E'; injection E' as <-;
      vm_compute in E1; discriminate E1].
  destruct (allocation st !! "Bronze-g13b") as [a2|] eqn:E2;
    [|pose proof E as E'; vm_compute in E'; injection E' as <-;
      vm_compute in E2; discriminate E2].
  assert (Hk1 : numReplicas a1 = 2).
  { pose proof E as E'. vm_compute in E'. injection E' as <-.
    vm_compute in E1. injection E1 as <-. reflexivity. }
  assert (Hk2 : numReplicas a2 = 1).
  { pose proof E as E'. vm_compute in E'. injection E' as <-.
    vm_compute in E2. injection E2 as <-. reflexivity. }
  pose proof (SolveGreedy_minNumReplicas insertionSort (sysPair 3)
                insertionSort_Permutation (serversDistinct_sysPair 3) Hcap
                (countsValid_sysPair 3) PriorityExhaustive ∅ st (minimum_sysPair 3) E)
    as Hall.
  exists st, a1, a2. split; [reflexivity|]. split; [reflexivity|]. split; [reflexivity|].
  split; [exact E1|]. split; [exact E2|]. split; [|split; [exact Hk2|]].
  - destruct (Hall "Premium-g13b" _ a1 eq_refl E1) as [[_ H]|(_ & _ & c & Hc & _ & _ & Ha)];
      [exact H|].
    cbn in Hc. apply list_elem_of_singleton in Hc as ->. rewrite Hk1. cbn. lia.
  - destruct (Hall "Bronze-g13b" _ a2 eq_refl E2) as [[Hin _]|(_ & _ & c & Hc & _ & Hk & Ha)].
    + cbn in Hin. apply list_elem_of_singleton in Hin as ->. discriminate Hk2.
    + split; [exact Hk|]. exists c. split; [exact Hc|]. now rewrite Ha.
Defined.

End EveryPolicyAtInputs.
